(** * PDF crawler: a shallow embedding of [pdf_crawler.py]

    The crawler object of [PDFCrawler] is modelled by explicit state
    passing.  The external collaborators (the [requests] session, the
    [urllib.parse] functions, BeautifulSoup, the file system) are taken at
    their interface, as fields of a record [World]; the Python string and
    [os.path] functions the crawler calls are written out.

    Strings are sequences of one-byte characters; [str.lower] is the ASCII
    one (no non-ASCII character lower-cases to one of [.], [p], [d], [f]).

    The crawler is embedded twice.  In the first embedding [print] and the
    write of an open file do not fail; the claims are stated on it.  The
    second one, the module [Fine], has a [print] that can raise and a write
    that can fail and leave a part of the file; on a world where neither
    fails the two are the same ([fine_crawl_page_reliable]).

    Of [upload_pdfs_to_elasticsearch.py], which indexes the files the
    crawler saves, the function that names the documents,
    [generate_document_id], is embedded too. *)

From Stdlib Require Import ZArith Ascii String List Lia Bool.
From stdpp Require Import base decidable option list gmap strings pretty relations.

Local Open Scope string_scope.
Local Open Scope list_scope.
Local Open Scope Z_scope.

(** ** Python string operations *)

Module PyStr.

(** [s[i:]] and [s[:i]] for a non-negative index [i]. *)
Fixpoint drop (n : nat) (s : string) : string :=
  match n, s with
  | O, _ => s
  | S n', String _ s' => drop n' s'
  | S _, EmptyString => EmptyString
  end.

Fixpoint take (n : nat) (s : string) : string :=
  match n, s with
  | O, _ => EmptyString
  | S n', String a s' => String a (take n' s')
  | S _, EmptyString => EmptyString
  end.

Definition slice_from (i : Z) (s : string) : string := drop (Z.to_nat i) s.
Definition slice_to (i : Z) (s : string) : string := take (Z.to_nat i) s.

(** [s.startswith(p)] *)
Fixpoint startswith (s p : string) {struct p} : bool :=
  match p, s with
  | EmptyString, _ => true
  | String _ _, EmptyString => false
  | String a p', String b s' => Ascii.eqb a b && startswith s' p'
  end.

(** [s.endswith(x)]: the last [len(x)] characters of [s] are [x]. *)
Definition endswith (s x : string) : bool :=
  (String.length x <=? String.length s)%nat
  && String.eqb (drop (String.length s - String.length x) s) x.

(** [x in s] *)
Fixpoint contains (s x : string) : bool :=
  startswith s x
  || match s with
     | EmptyString => false
     | String _ s' => contains s' x
     end.

(** [s.lower()] on ASCII: [A]..[Z] (65..90) are moved to [a]..[z]. *)
Definition lower_char (c : ascii) : ascii :=
  let n := N_of_ascii c in
  if ((65 <=? n) && (n <=? 90))%N then ascii_of_N (n + 32) else c.

Fixpoint lower (s : string) : string :=
  match s with
  | EmptyString => EmptyString
  | String c s' => String (lower_char c) (lower s')
  end.

(** [s.rfind(c)] for a one-character [c]: the index of the last occurrence,
    [-1] when there is none. *)
Fixpoint rfind_from (c : ascii) (s : string) (i last : Z) : Z :=
  match s with
  | EmptyString => last
  | String a s' => rfind_from c s' (i + 1) (if Ascii.eqb a c then i else last)
  end.

Definition rfind (s : string) (c : ascii) : Z := rfind_from c s 0 (-1).

(** [c in s] for a one-character [c]. *)
Fixpoint occurs (c : ascii) (s : string) : bool :=
  match s with
  | EmptyString => false
  | String a s' => Ascii.eqb a c || occurs c s'
  end.

(** [s[i:i+1]], the empty string out of range. *)
Definition char_at (s : string) (i : Z) : string :=
  take 1 (slice_from i s).

(** [s.replace(old, new)] for a non-empty [old]: every occurrence of [old],
    taken from the left and without overlap, is replaced by [new].  [skip]
    is the number of characters of the occurrence found that are still to be
    passed over. *)
Fixpoint replace_from (skip : nat) (s old new : string) : string :=
  match s with
  | EmptyString => EmptyString
  | String c s' =>
      match skip with
      | S skip' => replace_from skip' s' old new
      | O =>
          if startswith s old
          then new +:+ replace_from (String.length old - 1) s' old new
          else String c (replace_from 0 s' old new)
      end
  end.

(** [s.replace('', new)]: [new] before every character and at the end. *)
Fixpoint replace_empty (s new : string) : string :=
  match s with
  | EmptyString => new
  | String c s' => new +:+ String c (replace_empty s' new)
  end.

Definition replace (s old new : string) : string :=
  match old with
  | EmptyString => replace_empty s new
  | String _ _ => replace_from 0 s old new
  end.

End PyStr.

(** ** [os.path] (posixpath) *)

Module OsPath.
Import PyStr.

(** [os.path.basename(p)]: [i = p.rfind('/') + 1; return p[i:]]. *)
Definition basename (p : string) : string :=
  let i := rfind p "/" + 1 in
  slice_from i p.

(** The scan of [genericpath._splitext] over the leading dots:
    [while filenameIndex < dotIndex], answer [true] at the first character
    that is not a dot.  [n] is [dotIndex - filenameIndex]. *)
Fixpoint splitext_scan (p : string) (filenameIndex : Z) (n : nat) : bool :=
  match n with
  | O => false
  | S n' =>
      if negb (String.eqb (char_at p filenameIndex) ".") then true
      else splitext_scan p (filenameIndex + 1) n'
  end.

(** [os.path.splitext(p)] *)
Definition splitext (p : string) : string * string :=
  let sepIndex := rfind p "/" in
  let dotIndex := rfind p "." in
  if (dotIndex >? sepIndex) &&
     splitext_scan p (sepIndex + 1) (Z.to_nat (dotIndex - (sepIndex + 1)))
  then (slice_to dotIndex p, slice_from dotIndex p)
  else (p, EmptyString).

(** [os.path.join(a, b)] with two arguments. *)
Definition join (a b : string) : string :=
  if startswith b "/" then b
  else if String.eqb a "" || endswith a "/" then a +:+ b
  else a +:+ "/" +:+ b.

End OsPath.

(** ** The outside world *)

(** Exceptions, all of them subclasses of Python's [Exception]; the
    argument is [str(e)]. *)
Inductive Exn :=
| RequestException (msg : string)
| ValueError (msg : string)
| ParserError (msg : string)
| OSError (msg : string).

Inductive Result (A : Type) :=
| Ok (a : A)
| Err (e : Exn).
Arguments Ok {A} a.
Arguments Err {A} e.

(** What the crawler reads of a [requests] response: the [Content-Type]
    header, when there is one, and the body. *)
Record Response := {
  content_type : option string;
  content : string
}.

(** What the crawler reads of [urlparse(url)]. *)
Record ParseResult := {
  netloc : string;
  path : string
}.

(** The lines the crawler prints. *)
Inductive LogLine :=
| LogDownloading (pdf_url : string)
| LogSaved (filename : string)
| LogErrorDownloading (pdf_url : string) (e : Exn)
| LogCrawling (current_depth : Z) (url : string)
| LogErrorCrawling (url : string) (e : Exn)
| LogStart (base_url output_dir : string) (max_depth : Z)
| LogComplete (pages pdfs : nat) (output_dir : string).

(** The effects of a run on the outside, in the order they happen. *)
Inductive Event :=
| EvPrint (l : LogLine)
| EvGet (url : string)
| EvSleep
| EvWrite (filepath data : string).

(** How [f.write(data)] ends on a file that [open] has made: all of [data]
    is in the file, or the write raises and [written] is what the file is
    left with. *)
Inductive Written :=
| WriteOk
| WriteFailed (e : Exn) (written : string).

(** The collaborators of the crawler.  [http_get] is
    [session.get(url, timeout=30)] followed by [raise_for_status()]; its
    answer may depend on everything that happened before.  [find_links] is
    the parse of a body followed by [find_all(['a', 'link'], href=True)],
    giving the [href] of each tag found.  [open_wb] tells whether
    [open(filepath, 'wb')] succeeds, [f_write] how the write that follows
    ends (the closing of the file included), and [stdout] whether a [print]
    succeeds, the making of its line included, which may depend on what
    happened before. *)
Record World := {
  urlparse : string -> Result ParseResult;
  urljoin : string -> string -> Result string;
  http_get : list Event -> string -> Result Response;
  find_links : string -> Result (list string);
  open_wb : string -> Result unit;
  f_write : string -> string -> Written;
  stdout : list Event -> LogLine -> Result unit
}.

(** ** The crawler object and what it acts on *)

(** The fields of [PDFCrawler], the files that exist (a path and what it
    holds) and the effects so far, most recent first. *)
Record Crawler := {
  base_url : string;
  domain : string;
  output_dir : string;
  visited_urls : gset string;
  downloaded_pdfs : gset string;
  files : gmap string string;
  trace : list Event
}.

Definition set_visited_urls (v : gset string) (st : Crawler) : Crawler :=
  {| base_url := base_url st; domain := domain st; output_dir := output_dir st;
     visited_urls := v; downloaded_pdfs := downloaded_pdfs st;
     files := files st; trace := trace st |}.

Definition set_downloaded_pdfs (d : gset string) (st : Crawler) : Crawler :=
  {| base_url := base_url st; domain := domain st; output_dir := output_dir st;
     visited_urls := visited_urls st; downloaded_pdfs := d;
     files := files st; trace := trace st |}.

Definition set_files (f : gmap string string) (st : Crawler) : Crawler :=
  {| base_url := base_url st; domain := domain st; output_dir := output_dir st;
     visited_urls := visited_urls st; downloaded_pdfs := downloaded_pdfs st;
     files := f; trace := trace st |}.

Definition set_trace (t : list Event) (st : Crawler) : Crawler :=
  {| base_url := base_url st; domain := domain st; output_dir := output_dir st;
     visited_urls := visited_urls st; downloaded_pdfs := downloaded_pdfs st;
     files := files st; trace := t |}.

(** The URLs requested so far, most recent first. *)
Fixpoint requests (t : list Event) : list string :=
  match t with
  | [] => []
  | EvGet u :: t' => u :: requests t'
  | _ :: t' => requests t'
  end.

(** The files written so far, most recent first. *)
Fixpoint writes (t : list Event) : list string :=
  match t with
  | [] => []
  | EvWrite p _ :: t' => p :: writes t'
  | _ :: t' => writes t'
  end.

(** ** A state and exception monad *)

(** How a call ends: it returns, it raises, or it never ends. *)
Inductive Outcome (A : Type) :=
| Normal (a : A)
| Raised (e : Exn)
| Diverged.
Arguments Normal {A} a.
Arguments Raised {A} e.
Arguments Diverged {A}.

Definition M (A : Type) : Type := Crawler -> Outcome A * Crawler.

Definition ret {A} (a : A) : M A := fun st => (Normal a, st).

Definition bind {A B} (m : M A) (k : A -> M B) : M B :=
  fun st =>
    match m st with
    | (Normal a, st') => k a st'
    | (Raised e, st') => (Raised e, st')
    | (Diverged, st') => (Diverged, st')
    end.

Definition raise {A} (e : Exn) : M A := fun st => (Raised e, st).

Definition diverge {A} : M A := fun st => (Diverged, st).

(** [try: m  except Exception as e: h e] *)
Definition try_except (m : M unit) (h : Exn -> M unit) : M unit :=
  fun st =>
    match m st with
    | (Raised e, st') => h e st'
    | r => r
    end.

Definition lift {A} (r : Result A) : M A :=
  match r with
  | Ok a => ret a
  | Err e => raise e
  end.

Definition gets {A} (f : Crawler -> A) : M A := fun st => (Normal (f st), st).

Definition modify (f : Crawler -> Crawler) : M unit := fun st => (Normal tt, f st).

Declare Scope monad_scope.
Delimit Scope monad_scope with monad.
Bind Scope monad_scope with M.
Notation "x <- c1 ;; c2" := (bind c1 (fun x => c2))
  (at level 100, c1 at next level, right associativity) : monad_scope.
Notation "c1 ;; c2" := (bind c1 (fun _ => c2))
  (at level 100, right associativity) : monad_scope.

Local Open Scope monad_scope.

(** [for x in l: f x] *)
Fixpoint for_each {A} (f : A -> M unit) (l : list A) : M unit :=
  match l with
  | [] => ret tt
  | x :: l' => f x ;; for_each f l'
  end.

Definition emit (ev : Event) : M unit :=
  modify (fun st => set_trace (ev :: trace st) st).

(** [print(line)], on a standard output that takes every line.  The
    module [Fine] below has the [print] that can raise. *)
Definition print (l : LogLine) : M unit := emit (EvPrint l).

(** [time.sleep(0.5)] *)
Definition sleep : M unit := emit EvSleep.

(** ** The crawler *)

(** [os.path.exists(p)] *)
Definition path_exists (fs : gmap string string) (p : string) : bool :=
  bool_decide (is_Some (fs !! p)).

(** The name tried at a given value of the counter:
    [f"{base_name}_{counter}{ext}"]. *)
Definition numbered (base_name : string) (counter : nat) (ext : string) : string :=
  base_name +:+ "_" +:+ pretty counter +:+ ext.

(** The loop [while os.path.exists(filepath): ...] of [download_pdf], which
    gives the last [filename] and [filepath].  [None]: the loop has not
    ended within [fuel] tests. *)
Fixpoint collision_loop (fuel : nat) (fs : gmap string string)
    (output_dir base_name ext : string) (counter : nat)
    (filename filepath : string) : option (string * string) :=
  match fuel with
  | O => None
  | S fuel' =>
      if path_exists fs filepath then
        let filename := numbered base_name counter ext in
        let filepath := OsPath.join output_dir filename in
        collision_loop fuel' fs output_dir base_name ext (S counter) filename filepath
      else Some (filename, filepath)
  end.

(** The path tried at a given value of the counter. *)
Definition candidate (output_dir base_name ext : string) (k : nat) : string :=
  OsPath.join output_dir (numbered base_name k ext).

(** The link test of [crawl_page]:
    [href.lower().endswith('.pdf') or '.pdf' in href.lower()]. *)
Definition is_pdf_link (href : string) : bool :=
  PyStr.endswith (PyStr.lower href) ".pdf" || PyStr.contains (PyStr.lower href) ".pdf".

(** The test of the fetched page:
    [response.headers.get('Content-Type', '').startswith('application/pdf')]. *)
Definition is_pdf_response (response : Response) : bool :=
  PyStr.startswith (default "" (content_type response)) "application/pdf".

(** The name the collision loop settles on: the derived name when its path
    is free, else the numbered name with the least number, from 1 on, whose
    path is free. *)
Definition settled (fs : gmap string string) (output_dir filename : string)
    (r : string * string) : Prop :=
  let base_name := (OsPath.splitext filename).1 in
  let ext := (OsPath.splitext filename).2 in
  r.2 = OsPath.join output_dir r.1 /\
  (r.2 ∉ dom fs) /\
  (((OsPath.join output_dir filename ∉ dom fs) /\ r.1 = filename)
   \/
   (OsPath.join output_dir filename ∈ dom fs /\
    exists j, (1 <= j)%nat /\ r.1 = numbered base_name j ext /\
      forall i, (1 <= i < j)%nat ->
        OsPath.join output_dir (numbered base_name i ext) ∈ dom fs)).

(** The state a failed download leaves. *)
Definition download_failed (pdf_url : string) (e : Exn) (st : Crawler) : Crawler :=
  set_trace (EvPrint (LogErrorDownloading pdf_url e) :: EvGet pdf_url
             :: EvPrint (LogDownloading pdf_url) :: trace st) st.

(** The state a download that saves [data] as [filename] at [filepath]
    leaves. *)
Definition download_saved (pdf_url filename filepath data : string)
    (st : Crawler) : Crawler :=
  {| base_url := base_url st; domain := domain st; output_dir := output_dir st;
     visited_urls := visited_urls st;
     downloaded_pdfs := {[pdf_url]} ∪ downloaded_pdfs st;
     files := <[filepath := data]> (files st);
     trace := EvPrint (LogSaved filename) :: EvWrite filepath data
              :: EvGet pdf_url :: EvPrint (LogDownloading pdf_url) :: trace st |}.

(** The state in which the [try] block of [crawl_page] starts. *)
Definition entered (url : string) (current_depth : Z) (st : Crawler) : Crawler :=
  set_trace (EvPrint (LogCrawling current_depth url) :: trace st)
    (set_visited_urls ({[url]} ∪ visited_urls st) st).

Section PDFCrawler.

Variable w : World.

(** [PDFCrawler.__init__], on the files that exist when it is called. *)
Definition init (base_url output_dir : string) (fs : gmap string string)
    : Result Crawler :=
  match urlparse w base_url with
  | Err e => Err e
  | Ok parsed =>
      Ok {| base_url := base_url; domain := netloc parsed;
            output_dir := output_dir; visited_urls := ∅;
            downloaded_pdfs := ∅; files := fs; trace := [] |}
  end.

Definition is_valid_url (url : string) : M bool :=
  parsed <- lift (urlparse w url) ;;
  domain <- gets domain ;;
  ret (String.eqb (netloc parsed) domain || String.eqb (netloc parsed) "").

Definition get_pdf_filename (url : string) : Result string :=
  match urlparse w url with
  | Err e => Err e
  | Ok parsed =>
      let filename := OsPath.basename (path parsed) in
      if negb (PyStr.endswith filename ".pdf")
      then Ok (filename +:+ ".pdf")
      else Ok filename
  end.

(** [self.session.get(url, timeout=30)] and [response.raise_for_status()] *)
Definition session_get (url : string) : M Response :=
  before <- gets trace ;;
  emit (EvGet url) ;;
  lift (http_get w before url).

(** [with open(filepath, 'wb') as f: f.write(data)], where the write goes
    through once the file is open.  The module [Fine] below has the write
    that can fail and leave a part of [data] in the file. *)
Definition write_file (filepath data : string) : M unit :=
  lift (open_wb w filepath) ;;
  modify (fun st => set_files (<[filepath := data]> (files st)) st) ;;
  emit (EvWrite filepath data).

(** The lines under [# Handle duplicate filenames] of [download_pdf], on
    the files [fs] that exist; the fuel is two more than their number, which
    is enough ([resolve_terminates]). *)
Definition resolve (fs : gmap string string) (output_dir filename : string)
    : option (string * string) :=
  let filepath := OsPath.join output_dir filename in
  let counter := 1%nat in
  let '(base_name, ext) := OsPath.splitext filename in
  collision_loop (S (S (size fs))) fs output_dir base_name ext counter
    filename filepath.

Definition resolve_collision (filename : string) : M (string * string) :=
  output_dir <- gets output_dir ;;
  fs <- gets files ;;
  match resolve fs output_dir filename with
  | Some r => ret r
  | None => diverge
  end.

Definition download_pdf (pdf_url : string) : M unit :=
  downloaded <- gets downloaded_pdfs ;;
  if bool_decide (pdf_url ∈ downloaded) then ret tt
  else
    try_except
      (print (LogDownloading pdf_url) ;;
       response <- session_get pdf_url ;;
       filename <- lift (get_pdf_filename pdf_url) ;;
       r <- resolve_collision filename ;;
       let '(filename, filepath) := r in
       write_file filepath (content response) ;;
       modify (fun st => set_downloaded_pdfs ({[pdf_url]} ∪ downloaded_pdfs st) st) ;;
       print (LogSaved filename))
      (fun e => print (LogErrorDownloading pdf_url e)).

(** One turn of the loop over the links of [crawl_page]; [crawl] is the
    recursive call. *)
Definition process_link (crawl : string -> Z -> Z -> M unit)
    (url : string) (max_depth current_depth : Z) (href : string) : M unit :=
  full_url <- lift (urljoin w url href) ;;
  if is_pdf_link href then download_pdf full_url
  else
    valid <- is_valid_url full_url ;;
    visited <- gets visited_urls ;;
    if valid && negb (bool_decide (full_url ∈ visited)) then
      sleep ;;
      crawl full_url max_depth (current_depth + 1)
    else ret tt.

(** The [try] block of [crawl_page]. *)
Definition crawl_body (crawl : string -> Z -> Z -> M unit)
    (url : string) (max_depth current_depth : Z) : M unit :=
  response <- session_get url ;;
  if is_pdf_response response then download_pdf url
  else
    links <- lift (find_links w (content response)) ;;
    for_each (process_link crawl url max_depth current_depth) links.

(** [crawl_page]; [fuel] bounds the nesting of the calls that pass the
    guards. *)
Fixpoint crawl_page_fuel (fuel : nat) (url : string)
    (max_depth current_depth : Z) : M unit :=
  visited <- gets visited_urls ;;
  if (current_depth >? max_depth) || bool_decide (url ∈ visited) then ret tt
  else
    valid <- is_valid_url url ;;
    if negb valid then ret tt
    else
      match fuel with
      | O => diverge
      | S fuel' =>
          modify (fun st => set_visited_urls ({[url]} ∪ visited_urls st) st) ;;
          print (LogCrawling current_depth url) ;;
          try_except
            (crawl_body (crawl_page_fuel fuel') url max_depth current_depth)
            (fun e => print (LogErrorCrawling url e))
      end.

(** A call passes the guards at depths [current_depth], ..., [max_depth] at
    most, which is the fuel [crawl_page] is given. *)
Definition crawl_page (url : string) (max_depth current_depth : Z) : M unit :=
  crawl_page_fuel (Z.to_nat (max_depth - current_depth + 1)) url
    max_depth current_depth.

Definition start (max_depth : Z) : M unit :=
  base_url <- gets base_url ;;
  output_dir <- gets output_dir ;;
  print (LogStart base_url output_dir max_depth) ;;
  crawl_page base_url max_depth 0 ;;
  pages <- gets (fun st => size (visited_urls st)) ;;
  pdfs <- gets (fun st => size (downloaded_pdfs st)) ;;
  print (LogComplete pages pdfs output_dir).

(** The scope test, on the domain of the crawler. *)
Definition scope_check (domain url : string) : Result bool :=
  match urlparse w url with
  | Err e => Err e
  | Ok parsed => Ok (String.eqb (netloc parsed) domain || String.eqb (netloc parsed) "")
  end.

(** How a call of [download_pdf] can end. *)
Inductive download_outcome (pdf_url : string) (st : Crawler) : Crawler -> Prop :=
| Dl_skipped :
    pdf_url ∈ downloaded_pdfs st ->
    download_outcome pdf_url st st
| Dl_failed (e : Exn) :
    pdf_url ∉ downloaded_pdfs st ->
    download_outcome pdf_url st (download_failed pdf_url e st)
| Dl_saved (response : Response) (filename : string) (r : string * string) :
    pdf_url ∉ downloaded_pdfs st ->
    http_get w (EvPrint (LogDownloading pdf_url) :: trace st) pdf_url = Ok response ->
    get_pdf_filename pdf_url = Ok filename ->
    settled (files st) (output_dir st) filename r ->
    download_outcome pdf_url st
      (download_saved pdf_url r.1 r.2 (content response) st).

End PDFCrawler.

(** The state a call leaves. *)
Definition after (m : M unit) (st : Crawler) : Crawler := (m st).2.

(** One call of a method of the crawler, from outside. *)
Inductive call (w : World) (st : Crawler) : Crawler -> Prop :=
| Call_crawl_page (url : string) (max_depth current_depth : Z) :
    call w st (after (crawl_page w url max_depth current_depth) st)
| Call_download_pdf (pdf_url : string) :
    call w st (after (download_pdf w pdf_url) st).

(** [st'] is reached from [st] later in the same run. *)
Definition later (w : World) : relation Crawler := rtc (call w).

(** ** The crawler, with printing and writing that can fail *)

(** [pdf_crawler.py] again, where [print] raises what the standard output
    raises and a write can fail once the file is open.  What does not print
    or write ([session_get], [is_valid_url], [get_pdf_filename],
    [resolve_collision]) is as above. *)
Module Fine.

Section PDFCrawler.

Variable w : World.

(** [print(line)]: when the making of the line or the standard output
    raises, nothing is printed. *)
Definition print (l : LogLine) : M unit :=
  before <- gets trace ;;
  lift (stdout w before l) ;;
  emit (EvPrint l).

(** [with open(filepath, 'wb') as f: f.write(data)]: [open] makes the file;
    a write that fails leaves the file with what it has written. *)
Definition write_file (filepath data : string) : M unit :=
  lift (open_wb w filepath) ;;
  match f_write w filepath data with
  | WriteOk =>
      modify (fun st => set_files (<[filepath := data]> (files st)) st) ;;
      emit (EvWrite filepath data)
  | WriteFailed e written =>
      modify (fun st => set_files (<[filepath := written]> (files st)) st) ;;
      raise e
  end.

Definition download_pdf (pdf_url : string) : M unit :=
  downloaded <- gets downloaded_pdfs ;;
  if bool_decide (pdf_url ∈ downloaded) then ret tt
  else
    try_except
      (print (LogDownloading pdf_url) ;;
       response <- session_get w pdf_url ;;
       filename <- lift (get_pdf_filename w pdf_url) ;;
       r <- resolve_collision filename ;;
       let '(filename, filepath) := r in
       write_file filepath (content response) ;;
       modify (fun st => set_downloaded_pdfs ({[pdf_url]} ∪ downloaded_pdfs st) st) ;;
       print (LogSaved filename))
      (fun e => print (LogErrorDownloading pdf_url e)).

Definition process_link (crawl : string -> Z -> Z -> M unit)
    (url : string) (max_depth current_depth : Z) (href : string) : M unit :=
  full_url <- lift (urljoin w url href) ;;
  if is_pdf_link href then download_pdf full_url
  else
    valid <- is_valid_url w full_url ;;
    visited <- gets visited_urls ;;
    if valid && negb (bool_decide (full_url ∈ visited)) then
      sleep ;;
      crawl full_url max_depth (current_depth + 1)
    else ret tt.

Definition crawl_body (crawl : string -> Z -> Z -> M unit)
    (url : string) (max_depth current_depth : Z) : M unit :=
  response <- session_get w url ;;
  if is_pdf_response response then download_pdf url
  else
    links <- lift (find_links w (content response)) ;;
    for_each (process_link crawl url max_depth current_depth) links.

Fixpoint crawl_page_fuel (fuel : nat) (url : string)
    (max_depth current_depth : Z) : M unit :=
  visited <- gets visited_urls ;;
  if (current_depth >? max_depth) || bool_decide (url ∈ visited) then ret tt
  else
    valid <- is_valid_url w url ;;
    if negb valid then ret tt
    else
      match fuel with
      | O => diverge
      | S fuel' =>
          modify (fun st => set_visited_urls ({[url]} ∪ visited_urls st) st) ;;
          print (LogCrawling current_depth url) ;;
          try_except
            (crawl_body (crawl_page_fuel fuel') url max_depth current_depth)
            (fun e => print (LogErrorCrawling url e))
      end.

Definition crawl_page (url : string) (max_depth current_depth : Z) : M unit :=
  crawl_page_fuel (Z.to_nat (max_depth - current_depth + 1)) url
    max_depth current_depth.

Definition start (max_depth : Z) : M unit :=
  base_url <- gets base_url ;;
  output_dir <- gets output_dir ;;
  print (LogStart base_url output_dir max_depth) ;;
  crawl_page base_url max_depth 0 ;;
  pages <- gets (fun st => size (visited_urls st)) ;;
  pdfs <- gets (fun st => size (downloaded_pdfs st)) ;;
  print (LogComplete pages pdfs output_dir).

End PDFCrawler.

End Fine.

(** ** The uploader: the identifier of a document *)

(** [generate_document_id] of [upload_pdfs_to_elasticsearch.py].  With the
    ASCII [lower], the identifier of a file name with capitals that are not
    ASCII keeps them, where Python lower-cases them too. *)
Definition generate_document_id (filename : string) : string :=
  let doc_id :=
    PyStr.lower (PyStr.replace (PyStr.replace filename ".pdf" "") " " "-") in
  doc_id.

(** ** What the properties are stated with *)

(** [m] ends: it returns or raises. *)
Definition terminates {A} (m : M A) : Prop :=
  forall st, (m st).1 <> Diverged.

(** [m] returns: it ends and raises nothing. *)
Definition returns {A} (m : M A) : Prop :=
  forall st, exists a, (m st).1 = Normal a.

(** [m] takes every state to one related to it by [R], however it ends. *)
Definition keeps (R : relation Crawler) {A} (m : M A) : Prop :=
  forall st, R st (m st).2.

(** [st'] comes after [st]: the settings are the same, the two sets and the
    files have only grown (no file has changed), and the effects of [st]
    are the oldest of [st']. *)
Record extends (st st' : Crawler) : Prop := {
  ext_base_url : base_url st' = base_url st;
  ext_domain : domain st' = domain st;
  ext_output_dir : output_dir st' = output_dir st;
  ext_visited : visited_urls st ⊆ visited_urls st';
  ext_downloaded : downloaded_pdfs st ⊆ downloaded_pdfs st';
  ext_files : files st ⊆ files st';
  ext_trace : exists new, trace st' = new ++ trace st
}.

(** [s] is made of dots only. *)
Fixpoint all_dots (s : string) : bool :=
  match s with
  | EmptyString => true
  | String a s' => Ascii.eqb a "." && all_dots s'
  end.

(** [u] is what one of the [links] of the page at [url], one that passes
    the link test, resolves to. *)
Definition linked_pdf (w : World) (links : list string) (url u : string) : Prop :=
  exists href, href ∈ links /\ is_pdf_link href = true /\ urljoin w url href = Ok u.

(** From [st] to [st'] no page has been visited, and every URL requested
    is one of [allowed]. *)
Definition only_requests (allowed : string -> Prop) : relation Crawler :=
  fun st st' =>
    visited_urls st' = visited_urls st /\
    exists new, trace st' = new ++ trace st /\
                forall u, u ∈ requests new -> allowed u.

(** From [st] to [st'] the domain is the same and every page visited is in
    scope. *)
Definition visits_in_scope (w : World) : relation Crawler :=
  fun st st' =>
    domain st' = domain st /\
    forall u, u ∈ visited_urls st' ->
              u ∈ visited_urls st \/ scope_check w (domain st) u = Ok true.

(** The pages crawled so far (the lines [Crawling [d]: url]), most recent
    first. *)
Fixpoint crawled (t : list Event) : list string :=
  match t with
  | [] => []
  | EvPrint (LogCrawling _ u) :: t' => u :: crawled t'
  | _ :: t' => crawled t'
  end.

(** Every effect of [t], most recent first, is allowed by [ok] after the
    effect that comes just before it, if there is one. *)
Fixpoint follows (ok : Event -> option Event -> bool) (t : list Event) : bool :=
  match t with
  | [] => true
  | ev :: t' => ok ev (head t') && follows ok t'
  end.

(** A page is crawled right after a pause. *)
Definition after_pause (ev : Event) (before : option Event) : bool :=
  match ev, before with
  | EvPrint (LogCrawling _ _), Some EvSleep => true
  | EvPrint (LogCrawling _ _), _ => false
  | _, _ => true
  end.

(** The scope test as a Boolean: [false] also when [urlparse] raises. *)
Definition in_scope (w : World) (domain url : string) : bool :=
  match scope_check w domain url with
  | Ok valid => valid
  | Err _ => false
  end.

(** A request comes right after the line that announces it: the line
    [Crawling] of a page in scope, or the line [Downloading]. *)
Definition announced (w : World) (domain : string) (ev : Event)
    (before : option Event) : bool :=
  match ev with
  | EvGet u =>
      match before with
      | Some (EvPrint (LogCrawling _ u')) => String.eqb u u' && in_scope w domain u
      | Some (EvPrint (LogDownloading u')) => String.eqb u u'
      | _ => false
      end
  | _ => true
  end.

(** From [st] to [st'] every effect is allowed by [ok] after the one before
    it. *)
Definition steps (ok : Event -> option Event -> bool) : relation Crawler :=
  fun st st' =>
    exists new, trace st' = new ++ trace st /\ follows ok new = true.

(** The same, for a test that depends on the domain, which stays the same. *)
Definition requests_announced (w : World) : relation Crawler :=
  fun st st' =>
    domain st' = domain st /\ steps (announced w (domain st)) st st'.

(** What a call of [crawl_page] on [url] at depth [d] adds to the effects:
    nothing, or the line [Crawling] of [url] and then effects among which
    every page is crawled after a pause. *)
Definition crawls_after_pauses (url : string) (d : Z) : relation Crawler :=
  fun st st' =>
    st' = st \/
    exists new, trace st' = new ++ EvPrint (LogCrawling d url) :: trace st /\
                follows after_pause new = true.

(** From [st] to [st'] the pages crawled are crawled at a depth from [lo] to
    [hi]. *)
Definition crawls_within (lo hi : Z) : relation Crawler :=
  fun st st' =>
    exists new, trace st' = new ++ trace st /\
      forall d u, EvPrint (LogCrawling d u) ∈ new -> lo <= d <= hi.

(** [e] is an exception that a [print] raises. *)
Definition print_error (w : World) (e : Exn) : Prop :=
  exists before l, stdout w before l = Err e.

(** [m] ends, and raises nothing but what a [print] raises. *)
Definition raises_print_errors (w : World) {A} (m : M A) : Prop :=
  forall st,
    match (m st).1 with
    | Normal _ => True
    | Raised e => print_error w e
    | Diverged => False
    end.

(** The standard output takes every line, and no write fails. *)
Definition prints (w : World) : Prop := forall before l, stdout w before l = Ok tt.
Definition writes_through (w : World) : Prop :=
  forall filepath data, f_write w filepath data = WriteOk.

(** From [st] to [st'] files have been written in full, each at a path of
    its own where there was none, and one URL has been recorded per file;
    the other files that have appeared are those of writes that failed. *)
Definition saves (w : World) : relation Crawler :=
  fun st st' =>
    files st ⊆ files st' /\
    exists new, trace st' = new ++ trace st /\
      NoDup (writes new) /\
      (forall p, p ∈ writes new -> p ∉ dom (files st)) /\
      (forall p data, EvWrite p data ∈ new -> files st' !! p = Some data) /\
      size (downloaded_pdfs st')
      = (size (downloaded_pdfs st) + length (writes new))%nat /\
      (writes_through w ->
       dom (files st') = list_to_set (writes new) ∪ dom (files st)).

(** What a call of [download_pdf] on [pdf_url] leaves, from [st] to [st']
    and with the effects [new]: nothing but effects; or a file that a write
    that failed has left, at a path where there was none; or a file written
    in full at such a path, and its URL recorded. *)
Inductive download_left (w : World) (pdf_url : string) (st st' : Crawler)
    (new : list Event) : Prop :=
| Left_nothing :
    downloaded_pdfs st' = downloaded_pdfs st -> files st' = files st ->
    writes new = [] ->
    download_left w pdf_url st st' new
| Left_part (filepath data : string) (e : Exn) (written : string) :
    files st !! filepath = None ->
    f_write w filepath data = WriteFailed e written ->
    downloaded_pdfs st' = downloaded_pdfs st ->
    files st' = <[filepath := written]> (files st) ->
    writes new = [] ->
    download_left w pdf_url st st' new
| Left_saved (filepath data : string) :
    pdf_url ∉ downloaded_pdfs st ->
    files st !! filepath = None ->
    f_write w filepath data = WriteOk ->
    downloaded_pdfs st' = {[pdf_url]} ∪ downloaded_pdfs st ->
    files st' = <[filepath := data]> (files st) ->
    writes new = [filepath] -> EvWrite filepath data ∈ new ->
    download_left w pdf_url st st' new.

(** From [st] to [st'] the settings and [visited_urls] are the same, and
    [new] is what the effects have gained. *)
Definition only_effects (st st' : Crawler) (new : list Event) : Prop :=
  base_url st' = base_url st /\ domain st' = domain st /\
  output_dir st' = output_dir st /\ visited_urls st' = visited_urls st /\
  trace st' = new ++ trace st.

(** From [st] to [st'] pages have been crawled, each one once and none that
    was visited before, and they are what [visited_urls] has gained. *)
Definition crawls_once : relation Crawler :=
  fun st st' =>
    exists new, trace st' = new ++ trace st /\
      NoDup (crawled new) /\
      (forall u, u ∈ crawled new -> u ∉ visited_urls st) /\
      visited_urls st' = list_to_set (crawled new) ∪ visited_urls st.

(** What [replace(' ', '-')] makes of a character. *)
Definition dash (c : ascii) : ascii := if Ascii.eqb " " c then "-"%char else c.

(** ** A small site to run the crawler on *)

Module Demo.

Fixpoint assoc {A} (t : list (string * A)) (k : string) : option A :=
  match t with
  | [] => None
  | (k', a) :: t' => if String.eqb k k' then Some a else assoc t' k
  end.

Definition seed : string := "https://site.com/".

(** [urlparse] on the URLs of the site: the [netloc] and the [path]. *)
Definition parsed_urls : list (string * ParseResult) :=
  [ ("https://site.com/", {| netloc := "site.com"; path := "/" |});
    ("https://site.com/page2.html", {| netloc := "site.com"; path := "/page2.html" |});
    ("https://site.com/doc.pdf", {| netloc := "site.com"; path := "/doc.pdf" |});
    ("https://site.com/broken.html", {| netloc := "site.com"; path := "/broken.html" |});
    ("https://site.com/missing.pdf", {| netloc := "site.com"; path := "/missing.pdf" |});
    ("https://site.com/DOC.PDF", {| netloc := "site.com"; path := "/DOC.PDF" |});
    ("https://site.com/files/?name=a.pdf", {| netloc := "site.com"; path := "/files/" |});
    ("https://site.com/files/?name=b.pdf", {| netloc := "site.com"; path := "/files/" |});
    ("https://site.com/2023/report.pdf", {| netloc := "site.com"; path := "/2023/report.pdf" |});
    ("https://site.com/2024/report.pdf", {| netloc := "site.com"; path := "/2024/report.pdf" |});
    ("https://other.example.com/x", {| netloc := "other.example.com"; path := "/x" |});
    ("https://other.example.com/y.pdf", {| netloc := "other.example.com"; path := "/y.pdf" |});
    ("https://site.com/viewer.pdf", {| netloc := "site.com"; path := "/viewer.pdf" |});
    ("https://site.com/viewer.pdf?page=2", {| netloc := "site.com"; path := "/viewer.pdf" |});
    ("https://site.com/help.html?ref=.pdf", {| netloc := "site.com"; path := "/help.html" |}) ].

(** [urljoin] on the links of the pages of the site. *)
Definition joined_urls : list (string * list (string * string)) :=
  [ ("https://site.com/",
     [ ("page2.html", "https://site.com/page2.html");
       ("doc.pdf", "https://site.com/doc.pdf");
       ("broken.html", "https://site.com/broken.html");
       ("https://other.example.com/x", "https://other.example.com/x");
       ("https://other.example.com/y.pdf", "https://other.example.com/y.pdf") ]);
    ("https://site.com/page2.html",
     [ ("/", "https://site.com/");
       ("missing.pdf", "https://site.com/missing.pdf");
       ("doc.pdf", "https://site.com/doc.pdf") ]);
    ("https://site.com/viewer.pdf",
     [ ("?page=2", "https://site.com/viewer.pdf?page=2");
       ("help.html?ref=.pdf", "https://site.com/help.html?ref=.pdf") ]) ].

(** What the server answers: a page, a PDF, or an error status. *)
Definition html (body : string) : Result Response :=
  Ok {| content_type := Some "text/html; charset=utf-8"; content := body |}.

Definition pdf (body : string) : Result Response :=
  Ok {| content_type := Some "application/pdf"; content := body |}.

Definition served : list (string * Result Response) :=
  [ ("https://site.com/", html "SEED");
    ("https://site.com/page2.html", html "PAGE2");
    ("https://site.com/doc.pdf", pdf "%PDF doc");
    ("https://site.com/broken.html", Err (RequestException "500 Server Error"));
    ("https://site.com/missing.pdf", Err (RequestException "404 Client Error"));
    ("https://site.com/DOC.PDF", pdf "%PDF upper");
    ("https://site.com/files/?name=a.pdf", pdf "%PDF a");
    ("https://site.com/files/?name=b.pdf", pdf "%PDF b");
    ("https://site.com/2023/report.pdf", pdf "%PDF 2023");
    ("https://site.com/2024/report.pdf", pdf "%PDF 2024");
    ("https://other.example.com/x", html "OTHER");
    ("https://other.example.com/y.pdf", pdf "%PDF y");
    ("https://site.com/viewer.pdf", html "VIEWER");
    ("https://site.com/viewer.pdf?page=2", html "VIEWER2");
    ("https://site.com/help.html?ref=.pdf", html "HELP") ].

(** The links of each page. *)
Definition page_links : list (string * list string) :=
  [ ("SEED", [ "page2.html"; "doc.pdf"; "broken.html";
               "https://other.example.com/x"; "https://other.example.com/y.pdf" ]);
    ("PAGE2", [ "/"; "missing.pdf"; "doc.pdf" ]);
    ("OTHER", []);
    ("VIEWER", [ "?page=2"; "help.html?ref=.pdf" ]) ].

Definition site : World :=
  {| urlparse := fun url =>
       match assoc parsed_urls url with
       | Some r => Ok r
       | None => Err (ValueError "not a URL of the site")
       end;
     urljoin := fun base href =>
       match assoc joined_urls base with
       | Some t =>
           match assoc t href with
           | Some u => Ok u
           | None => Err (ValueError "not a link of the page")
           end
       | None => Err (ValueError "not a page of the site")
       end;
     http_get := fun _ url =>
       match assoc served url with
       | Some r => r
       | None => Err (RequestException "connection refused")
       end;
     find_links := fun body =>
       match assoc page_links body with
       | Some l => Ok l
       | None => Ok []
       end;
     open_wb := fun _ => Ok tt;
     f_write := fun _ _ => WriteOk;
     stdout := fun _ _ => Ok tt |}.

(** The lines with a sign that is not ASCII: [Saved] and the two [Error]
    lines. *)
Definition has_sign (l : LogLine) : bool :=
  match l with
  | LogSaved _ | LogErrorDownloading _ _ | LogErrorCrawling _ _ => true
  | _ => false
  end.

(** The site on a standard output that cannot encode these signs. *)
Definition ascii_site : World :=
  {| urlparse := urlparse site; urljoin := urljoin site; http_get := http_get site;
     find_links := find_links site; open_wb := open_wb site; f_write := f_write site;
     stdout := fun _ l =>
       if has_sign l then Err (ValueError "UnicodeEncodeError") else Ok tt |}.

(** The site with a disk on which the write of [out/doc.pdf] fails after
    four bytes. *)
Definition short_site : World :=
  {| urlparse := urlparse site; urljoin := urljoin site; http_get := http_get site;
     find_links := find_links site; open_wb := open_wb site;
     f_write := fun filepath data =>
       if String.eqb filepath "out/doc.pdf"
       then WriteFailed (OSError "No space left on device") (PyStr.take 4 data)
       else WriteOk;
     stdout := stdout site |}.

(** A crawler on the site, as [PDFCrawler(seed, "out")] makes it when the
    files [fs] exist. *)
Definition fresh (fs : gmap string string) : Crawler :=
  {| base_url := seed; domain := "site.com"; output_dir := "out";
     visited_urls := ∅; downloaded_pdfs := ∅; files := fs; trace := [] |}.

End Demo.

(** * Properties *)

Example basename_ex1 : OsPath.basename "/docs/report.pdf" = "report.pdf".
Proof. reflexivity. Qed.
Example basename_ex2 : OsPath.basename "/docs/" = "".
Proof. reflexivity. Qed.
Example basename_ex3 : OsPath.basename "" = "".
Proof. reflexivity. Qed.
Example splitext_ex1 : OsPath.splitext "report.pdf" = ("report", ".pdf").
Proof. reflexivity. Qed.
Example splitext_ex2 : OsPath.splitext ".pdf" = (".pdf", "").
Proof. reflexivity. Qed.
Example splitext_ex3 : OsPath.splitext "DOC.PDF.pdf" = ("DOC.PDF", ".pdf").
Proof. reflexivity. Qed.
Example join_ex1 : OsPath.join "out" "a.pdf" = "out/a.pdf".
Proof. reflexivity. Qed.
Example join_ex2 : OsPath.join "out/" "a.pdf" = "out/a.pdf".
Proof. reflexivity. Qed.
Example lower_ex1 : PyStr.lower "Doc.PDF?V=2" = "doc.pdf?v=2".
Proof. reflexivity. Qed.
Example pretty_ex1 : pretty 12%nat = "12".
Proof. reflexivity. Qed.

(** ** Strings *)

Module PyStrFacts.
Import PyStr.

Lemma app_nil_l (s : string) : "" +:+ s = s.
Proof. reflexivity. Qed.

Lemma app_cons (a : ascii) (s t : string) : String a s +:+ t = String a (s +:+ t).
Proof. reflexivity. Qed.

Lemma app_nil_r (s : string) : s +:+ "" = s.
Proof.
  induction s as [|a s IH]; [reflexivity |].
  now rewrite app_cons, IH.
Qed.

Lemma app_assoc (s1 s2 s3 : string) : (s1 +:+ s2) +:+ s3 = s1 +:+ s2 +:+ s3.
Proof.
  induction s1 as [|a s1 IH]; [reflexivity |].
  now rewrite !app_cons, IH.
Qed.

Lemma length_app (s1 s2 : string) :
  String.length (s1 +:+ s2) = (String.length s1 + String.length s2)%nat.
Proof.
  induction s1 as [|a s1 IH]; [reflexivity |].
  rewrite app_cons. simpl. now rewrite IH.
Qed.

Lemma app_inv_tail (s1 s2 x : string) : s1 +:+ x = s2 +:+ x -> s1 = s2.
Proof.
  revert s2. induction s1 as [|a s1 IH]; intros [|b s2] H.
  - reflexivity.
  - apply (f_equal String.length) in H.
    rewrite app_nil_l, app_cons in H. simpl in H. rewrite length_app in H. lia.
  - apply (f_equal String.length) in H.
    rewrite app_nil_l, app_cons in H. simpl in H. rewrite length_app in H. lia.
  - rewrite !app_cons in H. injection H as -> H. f_equal. now apply IH.
Qed.

Lemma take_drop (n : nat) (s : string) : take n s +:+ drop n s = s.
Proof.
  revert s. induction n as [|n IH]; intros [|a s]; simpl; try reflexivity.
  now rewrite app_cons, IH.
Qed.

Lemma drop_app_length (r x : string) : drop (String.length r) (r +:+ x) = x.
Proof.
  induction r as [|a r IH]; [now destruct x |].
  rewrite app_cons. exact IH.
Qed.

Lemma take_app_length (r x : string) : take (String.length r) (r +:+ x) = r.
Proof.
  induction r as [|a r IH]; [now destruct x |].
  rewrite app_cons. simpl. now rewrite IH.
Qed.

Lemma startswith_spec (s p : string) :
  startswith s p = true <-> exists r, s = p +:+ r.
Proof.
  revert s. induction p as [|a p IH]; intros s.
  - split; [intros _; now exists s | intros _; now destruct s].
  - destruct s as [|b s]; simpl.
    + split; [discriminate | intros [r Hr]; discriminate].
    + rewrite andb_true_iff, Ascii.eqb_eq, IH. split.
      * intros [-> [r ->]]. now exists r.
      * intros [r Hr]. rewrite app_cons in Hr. injection Hr as -> ->.
        split; [reflexivity | now exists r].
Qed.

Lemma endswith_spec (s x : string) :
  endswith s x = true <-> exists r, s = r +:+ x.
Proof.
  unfold endswith. rewrite andb_true_iff, Nat.leb_le, String.eqb_eq. split.
  - intros [_ H]. exists (take (String.length s - String.length x) s).
    pose proof (take_drop (String.length s - String.length x) s) as E.
    rewrite H in E. now symmetry.
  - intros [r ->]. rewrite length_app. split; [lia |].
    replace (String.length r + String.length x - String.length x)%nat
      with (String.length r) by lia.
    apply drop_app_length.
Qed.

Lemma contains_nil (x : string) : contains "" x = startswith "" x.
Proof. unfold contains. apply orb_false_r. Qed.

Lemma contains_cons (c : ascii) (s x : string) :
  contains (String c s) x = startswith (String c s) x || contains s x.
Proof. reflexivity. Qed.

Lemma contains_spec (s x : string) :
  contains s x = true <-> exists a b, s = a +:+ x +:+ b.
Proof.
  induction s as [|c s IH].
  - rewrite contains_nil, startswith_spec. split.
    + intros [r Hr]. now exists "", r.
    + intros [[|a0 a] [b Hb]]; [now exists b | discriminate].
  - rewrite contains_cons, orb_true_iff, IH, startswith_spec. split.
    + intros [[r Hr] | [a [b ->]]].
      * now exists "", r.
      * now exists (String c a), b.
    + intros [[|a0 a] [b Hb]].
      * left. now exists b.
      * right. rewrite app_cons in Hb. injection Hb as -> ->. now exists a, b.
Qed.

(** An ending is in particular an occurrence. *)
Lemma endswith_contains (s x : string) :
  endswith s x = true -> contains s x = true.
Proof.
  rewrite endswith_spec, contains_spec. intros [r ->].
  exists r, "". now rewrite app_nil_r.
Qed.

Lemma lower_app (s1 s2 : string) : lower (s1 +:+ s2) = lower s1 +:+ lower s2.
Proof.
  induction s1 as [|a s1 IH]; [reflexivity |].
  rewrite app_cons. simpl. now rewrite IH, app_cons.
Qed.

Lemma length_lower (s : string) : String.length (lower s) = String.length s.
Proof. induction s as [|a s IH]; simpl; [reflexivity | now rewrite IH]. Qed.

(** Two endings of the same length of one string are the same. *)
Lemma app_inv_length (r1 r2 x1 x2 : string) :
  r1 +:+ x1 = r2 +:+ x2 -> String.length x1 = String.length x2 -> x1 = x2.
Proof.
  intros H Hlen.
  assert (String.length r1 = String.length r2) as Hr.
  { apply (f_equal String.length) in H. rewrite !length_app in H. lia. }
  rewrite <- (drop_app_length r1 x1), H, Hr. apply drop_app_length.
Qed.

Lemma occurs_app (c : ascii) (s1 s2 : string) :
  occurs c (s1 +:+ s2) = occurs c s1 || occurs c s2.
Proof.
  induction s1 as [|a s1 IH]; [reflexivity |].
  rewrite app_cons. simpl. now rewrite IH, orb_assoc.
Qed.

(** A non-empty ending of a string that ends in [c] ends in [c]. *)
Lemma app_eq_snoc (x y d : string) (c : ascii) :
  y <> "" -> x +:+ y = d +:+ String c "" -> exists y', y = y' +:+ String c "".
Proof.
  intros Hy. revert d. induction x as [|a x IH]; intros d H.
  - rewrite app_nil_l in H. now exists d.
  - destruct d as [|b d].
    + rewrite app_cons, app_nil_l in H. injection H as _ H.
      destruct x; [| discriminate]. rewrite app_nil_l in H. contradiction.
    + rewrite !app_cons in H. injection H as _ H. now apply (IH d).
Qed.

Lemma occurs_contains (c : ascii) (s : string) :
  contains s (String c "") = occurs c s.
Proof.
  induction s as [|a s IH]; [reflexivity |].
  rewrite contains_cons, IH. simpl.
  now rewrite andb_true_r, Ascii.eqb_sym.
Qed.

(** [rfind_from] gives [last] when [c] is not in [s], else the index, counted
    from [i], after which [c] does not occur any more. *)
Lemma rfind_from_spec (c : ascii) (s : string) : forall (i last : Z),
  (occurs c s = false /\ rfind_from c s i last = last)
  \/
  (exists pre post, s = pre +:+ String c post /\ occurs c post = false /\
     rfind_from c s i last = i + Z.of_nat (String.length pre)).
Proof.
  induction s as [|a s IH]; intros i last; simpl.
  - left. now split.
  - destruct (IH (i + 1) (if Ascii.eqb a c then i else last))
      as [[Hno Hr] | (pre & post & -> & Hno & Hr)].
    + destruct (Ascii.eqb a c) eqn:Hac.
      * right. apply Ascii.eqb_eq in Hac as ->. exists "", s.
        repeat split; [exact Hno |]. rewrite Hr. simpl. lia.
      * left. rewrite Hno. now split.
    + right. exists (String a pre), post. rewrite app_cons.
      repeat split; [exact Hno |]. rewrite Hr. simpl String.length. lia.
Qed.

End PyStrFacts.

(** ** Paths *)

Module OsPathFacts.
Import PyStr PyStrFacts OsPath.

(** [basename] gives what follows the last slash: the path is a directory
    part, empty or ending in a slash, followed by the base name, which has
    no slash. *)
Lemma basename_spec (p : string) :
  exists dir, p = dir +:+ basename p /\
              (dir = "" \/ endswith dir "/" = true) /\
              occurs "/" (basename p) = false.
Proof.
  unfold basename, rfind, slice_from.
  destruct (rfind_from_spec "/" p 0 (-1)) as [[Hno ->] | (pre & post & -> & Hno & ->)].
  - exists "". simpl. auto.
  - exists (pre +:+ "/").
    replace (Z.to_nat (0 + Z.of_nat (String.length pre) + 1))
      with (String.length (pre +:+ "/")) by (rewrite length_app; simpl; lia).
    replace (pre +:+ String "/" post) with ((pre +:+ "/") +:+ post)
      by (now rewrite app_assoc).
    rewrite drop_app_length. repeat split; [| exact Hno].
    right. apply endswith_spec. now exists pre.
Qed.

(** The base name of a path with no slash is the path; of a path that ends
    in a slash, the empty string. *)
Lemma basename_no_slash (p : string) : occurs "/" p = false -> basename p = p.
Proof.
  intros Hno. unfold basename, rfind, slice_from.
  destruct (rfind_from_spec "/" p 0 (-1)) as [[_ ->] | (pre & post & -> & _ & _)].
  - reflexivity.
  - exfalso. clear -Hno. induction pre as [|a pre IH].
    + rewrite app_nil_l in Hno. simpl in Hno. discriminate.
    + rewrite app_cons in Hno. simpl in Hno. apply orb_false_iff in Hno as [_ Hno].
      now apply IH.
Qed.

Lemma basename_trailing_slash (dir : string) : basename (dir +:+ "/") = "".
Proof.
  unfold basename, rfind, slice_from.
  destruct (rfind_from_spec "/" (dir +:+ "/") 0 (-1))
    as [[Hno _] | (pre & post & Heq & Hno & ->)].
  - rewrite occurs_app in Hno. simpl in Hno.
    rewrite orb_true_r in Hno. discriminate.
  - replace (Z.to_nat (0 + Z.of_nat (String.length pre) + 1))
      with (String.length (pre +:+ "/")) by (rewrite length_app; simpl; lia).
    rewrite Heq.
    replace (pre +:+ String "/" post) with ((pre +:+ "/") +:+ post)
      by (now rewrite app_assoc).
    rewrite drop_app_length.
    destruct post as [|a post]; [reflexivity | exfalso].
    symmetry in Heq. apply (app_eq_snoc pre) in Heq as [y Hy]; [| discriminate].
    apply (app_eq_snoc "/") in Hy as [y' Hy']; [| discriminate].
    rewrite Hy', occurs_app in Hno. simpl in Hno.
    rewrite orb_true_r in Hno. discriminate.
Qed.

Lemma rfind_from_absent (c : ascii) (s : string) (i last : Z) :
  occurs c s = false -> rfind_from c s i last = last.
Proof.
  revert i last. induction s as [|a s IH]; intros i last H; [reflexivity |].
  simpl in *. apply orb_false_iff in H as [Ha Hs].
  rewrite Ha. now apply IH.
Qed.

(** [rfind] gives the index of the occurrence that no other follows. *)
Lemma rfind_last (c : ascii) (pre post : string) :
  occurs c post = false ->
  rfind (pre +:+ String c post) c = Z.of_nat (String.length pre).
Proof.
  intros Hno. unfold rfind.
  enough (forall i last,
            rfind_from c (pre +:+ String c post) i last
            = i + Z.of_nat (String.length pre)) as H by (rewrite H; lia).
  induction pre as [|a pre IH]; intros i last.
  - rewrite app_nil_l. simpl. rewrite Ascii.eqb_refl.
    rewrite rfind_from_absent by assumption. lia.
  - rewrite app_cons. simpl rfind_from. rewrite IH. simpl String.length. lia.
Qed.

(** The scan of [splitext] over a part [s] of the path finds a character
    that is not a dot unless [s] is made of dots. *)
Lemma splitext_scan_part (pre s rest : string) :
  splitext_scan (pre +:+ s +:+ rest) (Z.of_nat (String.length pre)) (String.length s)
  = negb (all_dots s).
Proof.
  revert pre. induction s as [|a s IH]; intros pre; [reflexivity |].
  simpl splitext_scan. unfold char_at, slice_from.
  rewrite Nat2Z.id, drop_app_length, app_cons. simpl take.
  assert (String.eqb (String a "") "." = Ascii.eqb a ".") as ->.
  { simpl. now destruct (Ascii.eqb a "."). }
  simpl all_dots. destruct (Ascii.eqb a ".") eqn:Ha; [| reflexivity].
  simpl. specialize (IH (pre +:+ String a "")).
  rewrite length_app in IH. simpl String.length in IH.
  replace (Z.of_nat (String.length pre) + 1)
    with (Z.of_nat (String.length pre + 1)) by lia.
  rewrite <- IH. f_equal. now rewrite app_assoc.
Qed.

(** [splitext] on a name [stem.pdf] with no directory: the extension is
    [.pdf] when the stem has a character that is not a dot; when the stem
    is empty or made of dots, the whole name is the root and there is no
    extension. *)
Lemma splitext_pdf (stem : string) :
  occurs "/" stem = false ->
  splitext (stem +:+ ".pdf")
  = if all_dots stem then (stem +:+ ".pdf", "") else (stem, ".pdf").
Proof.
  intros Hslash. unfold splitext.
  assert (rfind (stem +:+ ".pdf") "/" = -1) as ->.
  { unfold rfind. apply rfind_from_absent. rewrite occurs_app, Hslash. reflexivity. }
  assert (rfind (stem +:+ ".pdf") "." = Z.of_nat (String.length stem)) as ->.
  { apply (rfind_last "." stem "pdf"). reflexivity. }
  assert ((Z.of_nat (String.length stem) >? -1) = true) as ->.
  { rewrite Z.gtb_ltb. apply Z.ltb_lt. lia. }
  replace (Z.to_nat (Z.of_nat (String.length stem) - (-1 + 1)))
    with (String.length stem) by lia.
  change (-1 + 1) with (Z.of_nat (String.length "")).
  pose proof (splitext_scan_part "" stem ".pdf") as Hscan.
  rewrite app_nil_l in Hscan. rewrite Hscan.
  destruct (all_dots stem); simpl; [reflexivity |].
  unfold slice_to, slice_from. rewrite Nat2Z.id.
  now rewrite take_app_length, drop_app_length.
Qed.

End OsPathFacts.

(** ** The loop over the names that are taken *)

Section CollisionLoop.
Import PyStrFacts.

Variables (fs : gmap string string) (output_dir base_name ext : string).

Local Abbreviation candidate := (candidate output_dir base_name ext).

Lemma path_exists_true (p : string) : path_exists fs p = true <-> p ∈ dom fs.
Proof. unfold path_exists. rewrite bool_decide_eq_true. symmetry. apply elem_of_dom. Qed.

Lemma path_exists_false (p : string) : path_exists fs p = false <-> p ∉ dom fs.
Proof. rewrite <- path_exists_true. destruct (path_exists fs p); intuition congruence. Qed.

Lemma numbered_inj (j k : nat) :
  numbered base_name j ext = numbered base_name k ext -> j = k.
Proof.
  unfold numbered. intros H.
  apply (inj (String.app base_name)) in H.
  apply (inj (String.app "_")) in H.
  apply app_inv_tail in H.
  now apply (inj pretty) in H.
Qed.

(** Whether a numbered name starts with a slash does not depend on the
    number. *)
Lemma numbered_startswith_slash (j k : nat) :
  PyStr.startswith (numbered base_name j ext) "/"
  = PyStr.startswith (numbered base_name k ext) "/".
Proof. unfold numbered. destruct base_name; [reflexivity | now rewrite !app_cons]. Qed.

Lemma candidate_inj (j k : nat) : candidate j = candidate k -> j = k.
Proof.
  unfold candidate, OsPath.join.
  rewrite (numbered_startswith_slash j k).
  destruct (PyStr.startswith (numbered base_name k ext) "/").
  - apply numbered_inj.
  - destruct (String.eqb output_dir "" || PyStr.endswith output_dir "/"); intros H.
    + apply (inj (String.app output_dir)) in H. now apply numbered_inj.
    + apply (inj (String.app output_dir)) in H.
      apply (inj (String.app "/")) in H. now apply numbered_inj.
Qed.

(** Once the loop tries numbered names, a set [X] of existing paths that
    holds every existing candidate still ahead bounds the tests left. *)
Lemma collision_loop_numbered (fuel : nat) : forall (X : gset string) (k : nat),
  (forall j, (k <= j)%nat -> candidate j ∈ dom fs -> candidate j ∈ X) ->
  (size X < fuel)%nat ->
  exists j, (k <= j)%nat /\
    collision_loop fuel fs output_dir base_name ext (S k)
      (numbered base_name k ext) (candidate k)
    = Some (numbered base_name j ext, candidate j) /\
    (candidate j ∉ dom fs) /\
    (forall i, (k <= i < j)%nat -> candidate i ∈ dom fs).
Proof.
  induction fuel as [|fuel IH]; intros X k HX Hsize; [lia |].
  simpl. destruct (path_exists fs (candidate k)) eqn:E.
  - apply path_exists_true in E.
    destruct (IH (X ∖ {[candidate k]}) (S k)) as (j & Hj & Hloop & Hfree & Hbelow).
    + intros j Hj Hin. apply elem_of_difference. split; [apply HX; [lia | exact Hin] |].
      rewrite elem_of_singleton. intros Heq. apply candidate_inj in Heq. lia.
    + assert (candidate k ∈ X) as HkX by (apply HX; [lia | exact E]).
      assert (size X = size ({[candidate k]} : gset string) + size (X ∖ {[candidate k]}))%nat as Hs.
      { rewrite <- size_union by (apply disjoint_difference_r1; reflexivity).
        f_equal. apply set_eq. intros x.
        rewrite elem_of_union, elem_of_difference, elem_of_singleton.
        destruct (decide (x = candidate k)) as [-> |]; tauto. }
      rewrite size_singleton in Hs. lia.
    + exists j. repeat split; [lia | exact Hloop | exact Hfree |].
      intros i Hi. destruct (decide (i = k)) as [-> | Hne]; [exact E |].
      apply Hbelow. lia.
  - apply path_exists_false in E.
    exists k. repeat split; [lia | exact E |]. intros i Hi. lia.
Qed.

(** What the loop gives, from the start: the first name when its path is
    free, else the numbered name with the least number, from [counter] on,
    whose path is free. *)
Lemma collision_loop_result (fuel : nat) (counter : nat) (filename filepath : string) :
  (S (size fs) < fuel)%nat ->
  ((filepath ∉ dom fs) /\
   collision_loop fuel fs output_dir base_name ext counter filename filepath
   = Some (filename, filepath))
  \/
  (filepath ∈ dom fs /\
   exists j, (counter <= j)%nat /\
     collision_loop fuel fs output_dir base_name ext counter filename filepath
     = Some (numbered base_name j ext, candidate j) /\
     (candidate j ∉ dom fs) /\
     (forall i, (counter <= i < j)%nat -> candidate i ∈ dom fs)).
Proof.
  intros Hfuel. destruct fuel as [|fuel]; [lia |].
  simpl. destruct (path_exists fs filepath) eqn:E.
  - right. apply path_exists_true in E. split; [exact E |].
    apply (collision_loop_numbered fuel (dom fs) counter).
    + intros j _ Hin. exact Hin.
    + rewrite size_dom. lia.
  - left. apply path_exists_false in E. now split.
Qed.

End CollisionLoop.

(** ** Reasoning on monadic code *)

Section Rules.

Context {A B : Type}.

Lemma returns_terminates (m : M A) : returns m -> terminates m.
Proof. intros H st. destruct (H st) as [a ->]. discriminate. Qed.

Lemma terminates_ret (a : A) : terminates (ret a).
Proof. intros st. discriminate. Qed.

Lemma terminates_lift (r : Result A) : terminates (lift r).
Proof. intros st. destruct r; discriminate. Qed.

Lemma terminates_gets (f : Crawler -> A) : terminates (gets f).
Proof. intros st. discriminate. Qed.

Lemma terminates_bind (m : M A) (k : A -> M B) :
  terminates m -> (forall a, terminates (k a)) -> terminates (bind m k).
Proof.
  intros Hm Hk st. unfold bind. specialize (Hm st).
  destruct (m st) as [[a | e |] st']; simpl in *.
  - apply Hk.
  - discriminate.
  - congruence.
Qed.

Lemma keeps_bind (R : relation Crawler) `{!Transitive R} (m : M A) (k : A -> M B) :
  keeps R m -> (forall a, keeps R (k a)) -> keeps R (bind m k).
Proof.
  intros Hm Hk st. unfold bind. specialize (Hm st).
  destruct (m st) as [[a | e |] st']; simpl in *; try exact Hm.
  etransitivity; [exact Hm | apply Hk].
Qed.

Lemma keeps_ret (R : relation Crawler) `{!Reflexive R} (a : A) : keeps R (ret a).
Proof. intros st. simpl. reflexivity. Qed.

Lemma keeps_lift (R : relation Crawler) `{!Reflexive R} (r : Result A) :
  keeps R (lift r).
Proof. intros st. destruct r; simpl; reflexivity. Qed.

Lemma keeps_gets (R : relation Crawler) `{!Reflexive R} (f : Crawler -> A) :
  keeps R (gets f).
Proof. intros st. simpl. reflexivity. Qed.

End Rules.

Lemma terminates_modify (f : Crawler -> Crawler) : terminates (modify f).
Proof. intros st. discriminate. Qed.

Lemma terminates_try_except (m : M unit) (h : Exn -> M unit) :
  terminates m -> (forall e, terminates (h e)) -> terminates (try_except m h).
Proof.
  intros Hm Hh st. unfold try_except. specialize (Hm st).
  destruct (m st) as [[[] | e |] st']; simpl in *.
  - discriminate.
  - apply Hh.
  - congruence.
Qed.

(** A [try] whose body ends and whose handler returns lets nothing out. *)
Lemma returns_try_except (m : M unit) (h : Exn -> M unit) :
  terminates m -> (forall e, returns (h e)) -> returns (try_except m h).
Proof.
  intros Hm Hh st. unfold try_except. specialize (Hm st).
  destruct (m st) as [[[] | e |] st']; simpl in *.
  - now exists tt.
  - apply Hh.
  - congruence.
Qed.

Lemma keeps_try_except (R : relation Crawler) `{!Transitive R}
    (m : M unit) (h : Exn -> M unit) :
  keeps R m -> (forall e, keeps R (h e)) -> keeps R (try_except m h).
Proof.
  intros Hm Hh st. unfold try_except. specialize (Hm st).
  destruct (m st) as [[[] | e |] st']; simpl in *; try exact Hm.
  etransitivity; [exact Hm | apply Hh].
Qed.

Lemma terminates_for_each {A} (f : A -> M unit) (l : list A) :
  (forall x, x ∈ l -> terminates (f x)) -> terminates (for_each f l).
Proof.
  induction l as [|x l IH]; intros H; simpl.
  - apply terminates_ret.
  - apply terminates_bind.
    + apply H. left.
    + intros _. apply IH. intros y Hy. apply H. now right.
Qed.

Lemma keeps_for_each (R : relation Crawler) `{!PreOrder R} {A}
    (f : A -> M unit) (l : list A) :
  (forall x, x ∈ l -> keeps R (f x)) -> keeps R (for_each f l).
Proof.
  induction l as [|x l IH]; intros H; simpl.
  - apply keeps_ret; apply _.
  - apply keeps_bind; [apply _ | |].
    + apply H. left.
    + intros _. apply IH. intros y Hy. apply H. now right.
Qed.

Lemma keeps_modify (R : relation Crawler) (f : Crawler -> Crawler) :
  (forall st, R st (f st)) -> keeps R (modify f).
Proof. intros H st. apply H. Qed.

(** ** [download_pdf], step by step *)

Lemma resolve_terminates (fs : gmap string string) (output_dir filename : string) :
  exists r, resolve fs output_dir filename = Some r /\
            settled fs output_dir filename r.
Proof.
  unfold resolve, settled. destruct (OsPath.splitext filename) as [base_name ext].
  simpl.
  destruct (collision_loop_result fs output_dir base_name ext
              (S (S (size fs))) 1 filename (OsPath.join output_dir filename))
    as [[Hfree Hloop] | [Htaken (j & Hj & Hloop & Hfree & Hbelow)]]; [lia | |].
  - eexists. split; [exact Hloop |]. simpl. auto.
  - eexists. split; [exact Hloop |]. simpl. split; [reflexivity |].
    split; [exact Hfree |]. right. split; [exact Htaken |]. exists j. auto.
Qed.

Section DownloadFacts.

Variable w : World.

Lemma download_pdf_unfold (pdf_url : string) (st : Crawler) :
  download_pdf w pdf_url st =
  if bool_decide (pdf_url ∈ downloaded_pdfs st) then (Normal tt, st)
  else
    match http_get w (EvPrint (LogDownloading pdf_url) :: trace st) pdf_url with
    | Err e => (Normal tt, download_failed pdf_url e st)
    | Ok response =>
        match get_pdf_filename w pdf_url with
        | Err e => (Normal tt, download_failed pdf_url e st)
        | Ok filename =>
            match resolve (files st) (output_dir st) filename with
            | None =>
                (Diverged,
                 set_trace (EvGet pdf_url :: EvPrint (LogDownloading pdf_url)
                            :: trace st) st)
            | Some (filename', filepath) =>
                match open_wb w filepath with
                | Err e => (Normal tt, download_failed pdf_url e st)
                | Ok _ =>
                    (Normal tt,
                     download_saved pdf_url filename' filepath (content response) st)
                end
            end
        end
    end.
Proof.
  unfold download_pdf, bind, gets. simpl.
  destruct (bool_decide (pdf_url ∈ downloaded_pdfs st)); [reflexivity |].
  unfold try_except, bind, print, emit, modify, session_get, bind, gets, emit,
    modify, lift. simpl.
  destruct (http_get w _ pdf_url) as [response | e]; simpl; [| reflexivity].
  destruct (get_pdf_filename w pdf_url) as [filename | e]; simpl; [| reflexivity].
  unfold resolve_collision, bind, gets. simpl.
  destruct (resolve (files st) (output_dir st) filename) as [[filename' filepath] |];
    simpl; [| reflexivity].
  unfold write_file, bind, lift, modify, emit, modify. simpl.
  destruct (open_wb w filepath) as [[] | e]; reflexivity.
Qed.

(** [download_pdf] always returns, in one of the three ways. *)
Lemma download_pdf_spec (pdf_url : string) (st : Crawler) :
  exists st', download_pdf w pdf_url st = (Normal tt, st') /\
              download_outcome w pdf_url st st'.
Proof.
  rewrite download_pdf_unfold.
  destruct (bool_decide (pdf_url ∈ downloaded_pdfs st)) eqn:Hin.
  { apply bool_decide_eq_true in Hin. eexists. split; [reflexivity |].
    now constructor. }
  apply bool_decide_eq_false in Hin.
  destruct (http_get w _ pdf_url) as [response | e] eqn:Hget.
  2: { eexists. split; [reflexivity |]. now constructor. }
  destruct (get_pdf_filename w pdf_url) as [filename | e] eqn:Hname.
  2: { eexists. split; [reflexivity |]. now constructor. }
  destruct (resolve_terminates (files st) (output_dir st) filename)
    as ([filename' filepath] & -> & Hsettled).
  destruct (open_wb w filepath) as [[] | e] eqn:Hopen.
  2: { eexists. split; [reflexivity |]. now constructor. }
  eexists. split; [reflexivity |].
  exact (Dl_saved w pdf_url st response filename (filename', filepath)
           Hin Hget Hname Hsettled).
Qed.

Lemma download_pdf_returns (pdf_url : string) : returns (download_pdf w pdf_url).
Proof.
  intros st. destruct (download_pdf_spec pdf_url st) as (st' & -> & _).
  now exists tt.
Qed.

(** What a download of a URL that is not in [downloaded_pdfs] does: it
    requests the URL, once, and visits nothing; when the fetch, the
    derivation of the name and the opening of the file go through, it
    stores the body fetched at the path the loop settles on, where no file
    was, and records the URL. *)
Lemma download_pdf_effects (pdf_url : string) (st : Crawler) :
  pdf_url ∉ downloaded_pdfs st ->
  let st' := after (download_pdf w pdf_url) st in
  requests (trace st') = pdf_url :: requests (trace st) /\
  forall response filename filename' filepath,
    http_get w (EvPrint (LogDownloading pdf_url) :: trace st) pdf_url = Ok response ->
    get_pdf_filename w pdf_url = Ok filename ->
    resolve (files st) (output_dir st) filename = Some (filename', filepath) ->
    open_wb w filepath = Ok tt ->
    files st !! filepath = None /\
    files st' = <[filepath := content response]> (files st) /\
    writes (trace st') = filepath :: writes (trace st) /\
    downloaded_pdfs st' = {[pdf_url]} ∪ downloaded_pdfs st.
Proof.
  intros Hnotin st'. unfold st', after. rewrite download_pdf_unfold.
  rewrite (bool_decide_eq_false_2 _ Hnotin). split.
  - destruct (http_get w _ pdf_url) as [response | e]; [| reflexivity].
    destruct (get_pdf_filename w pdf_url) as [filename | e]; [| reflexivity].
    destruct (resolve_terminates (files st) (output_dir st) filename)
      as ([filename' filepath] & -> & _).
    destruct (open_wb w filepath) as [[] | e]; reflexivity.
  - intros response filename filename' filepath Hget Hname Hres Hopen.
    rewrite Hget, Hname, Hres, Hopen. simpl.
    destruct (resolve_terminates (files st) (output_dir st) filename)
      as (r & Hr & _ & Hfree & _).
    rewrite Hres in Hr. injection Hr as <-. simpl in Hfree.
    split; [now apply not_elem_of_dom | auto].
Qed.

(** A download crawls and visits no page. *)
Lemma download_pdf_crawled (pdf_url : string) (st : Crawler) :
  crawled (trace (after (download_pdf w pdf_url) st)) = crawled (trace st)
  /\ visited_urls (after (download_pdf w pdf_url) st) = visited_urls st.
Proof.
  unfold after. destruct (download_pdf_spec pdf_url st) as (st' & -> & H).
  destruct H; now split.
Qed.

End DownloadFacts.

(** ** What a run never undoes *)

Global Instance extends_preorder : PreOrder extends.
Proof.
  split.
  - intros st. split; try reflexivity. now exists [].
  - intros st1 st2 st3 [] []. split; try (etransitivity; eassumption).
    destruct ext_trace0 as [n1 H1], ext_trace1 as [n2 H2].
    exists (n2 ++ n1). now rewrite H2, H1, app_assoc.
Qed.

Lemma extends_emit (ev : Event) : keeps extends (emit ev).
Proof.
  intros st. simpl. split; try reflexivity. now exists [ev].
Qed.

Section CrawlFacts.

Variable w : World.

Lemma download_pdf_extends (pdf_url : string) : keeps extends (download_pdf w pdf_url).
Proof.
  intros st. destruct (download_pdf_spec w pdf_url st) as (st' & -> & H). simpl.
  destruct H as [Hin | e Hin | response filename r Hin Hget Hname Hsettled].
  - reflexivity.
  - split; try reflexivity. simpl.
    now exists [EvPrint (LogErrorDownloading pdf_url e); EvGet pdf_url;
                EvPrint (LogDownloading pdf_url)].
  - split; try reflexivity; simpl.
    + set_solver.
    + apply insert_subseteq. apply not_elem_of_dom. apply Hsettled.
    + now exists [EvPrint (LogSaved r.1); EvWrite r.2 (content response);
                  EvGet pdf_url; EvPrint (LogDownloading pdf_url)].
Qed.

Lemma is_valid_url_unfold (url : string) (st : Crawler) :
  is_valid_url w url st = lift (scope_check w (domain st) url) st.
Proof.
  unfold is_valid_url, scope_check, bind, lift, gets.
  destruct (urlparse w url); reflexivity.
Qed.

Lemma crawl_page_fuel_unfold (fuel : nat) (url : string) (max_depth current_depth : Z)
    (st : Crawler) :
  crawl_page_fuel w fuel url max_depth current_depth st =
  if (current_depth >? max_depth) || bool_decide (url ∈ visited_urls st)
  then (Normal tt, st)
  else
    match scope_check w (domain st) url with
    | Err e => (Raised e, st)
    | Ok false => (Normal tt, st)
    | Ok true =>
        match fuel with
        | O => (Diverged, st)
        | S fuel' =>
            try_except
              (crawl_body w (crawl_page_fuel w fuel') url max_depth current_depth)
              (fun e => print (LogErrorCrawling url e))
              (entered url current_depth st)
        end
    end.
Proof.
  destruct fuel as [|fuel']; simpl; unfold bind at 1, gets at 1;
    (destruct ((current_depth >? max_depth) || bool_decide (url ∈ visited_urls st));
     [reflexivity |]);
    unfold bind at 1; rewrite is_valid_url_unfold;
    destruct (scope_check w (domain st) url) as [[|] | e]; reflexivity.
Qed.

(** *** The crawl ends *)

Lemma session_get_terminates (url : string) : terminates (session_get w url).
Proof.
  unfold session_get.
  apply terminates_bind; [apply terminates_gets | intros before].
  apply terminates_bind; [apply terminates_modify | intros _].
  apply terminates_lift.
Qed.

Lemma is_valid_url_terminates (url : string) : terminates (is_valid_url w url).
Proof.
  unfold is_valid_url.
  apply terminates_bind; [apply terminates_lift | intros parsed].
  apply terminates_bind; [apply terminates_gets | intros d].
  apply terminates_ret.
Qed.

Lemma process_link_terminates (crawl : string -> Z -> Z -> M unit)
    (url : string) (max_depth current_depth : Z) (href : string) :
  (forall u, terminates (crawl u max_depth (current_depth + 1))) ->
  terminates (process_link w crawl url max_depth current_depth href).
Proof.
  intros Hcrawl. unfold process_link.
  apply terminates_bind; [apply terminates_lift | intros full_url].
  destruct (is_pdf_link href).
  - apply returns_terminates, download_pdf_returns.
  - apply terminates_bind; [apply is_valid_url_terminates | intros valid].
    apply terminates_bind; [apply terminates_gets | intros visited].
    destruct (valid && negb (bool_decide (full_url ∈ visited))).
    + apply terminates_bind; [apply terminates_modify | intros _]. apply Hcrawl.
    + apply terminates_ret.
Qed.

Lemma crawl_body_terminates (crawl : string -> Z -> Z -> M unit)
    (url : string) (max_depth current_depth : Z) :
  (forall u, terminates (crawl u max_depth (current_depth + 1))) ->
  terminates (crawl_body w crawl url max_depth current_depth).
Proof.
  intros Hcrawl. unfold crawl_body.
  apply terminates_bind; [apply session_get_terminates | intros response].
  destruct (is_pdf_response response).
  - apply returns_terminates, download_pdf_returns.
  - apply terminates_bind; [apply terminates_lift | intros links].
    apply terminates_for_each. intros href _.
    now apply process_link_terminates.
Qed.

(** The fuel [crawl_page] gives is enough, and so is any larger one. *)
Lemma crawl_page_fuel_terminates (fuel : nat) :
  forall (url : string) (max_depth current_depth : Z),
  (Z.to_nat (max_depth - current_depth + 1) <= fuel)%nat ->
  terminates (crawl_page_fuel w fuel url max_depth current_depth).
Proof.
  induction fuel as [|fuel IH]; intros url max_depth current_depth Hfuel st;
    rewrite crawl_page_fuel_unfold;
    destruct (current_depth >? max_depth) eqn:Hdepth; simpl; try discriminate;
    destruct (bool_decide (url ∈ visited_urls st)); try discriminate;
    destruct (scope_check w (domain st) url) as [[|] | e]; try discriminate.
  - rewrite Z.gtb_ltb, Z.ltb_ge in Hdepth. lia.
  - rewrite Z.gtb_ltb, Z.ltb_ge in Hdepth.
    apply terminates_try_except.
    + apply crawl_body_terminates. intros u. apply IH. lia.
    + intros e. apply terminates_modify.
Qed.

Lemma crawl_page_terminates (url : string) (max_depth current_depth : Z) :
  terminates (crawl_page w url max_depth current_depth).
Proof. apply crawl_page_fuel_terminates. reflexivity. Qed.

End CrawlFacts.

(** ** The recursive call *)

Section CrawlUnfold.

Variable w : World.

Lemma bind_ext {A B} (m : M A) (k1 k2 : A -> M B) (st : Crawler) :
  (forall a st', k1 a st' = k2 a st') -> bind m k1 st = bind m k2 st.
Proof.
  intros H. unfold bind. destruct (m st) as [[a | e |] st']; [apply H | |]; reflexivity.
Qed.

Lemma for_each_ext {A} (f1 f2 : A -> M unit) (l : list A) (st : Crawler) :
  (forall x st', f1 x st' = f2 x st') -> for_each f1 l st = for_each f2 l st.
Proof.
  intros H. revert st. induction l as [|x l IH]; intros st; simpl; [reflexivity |].
  unfold bind. rewrite H. destruct (f2 x st) as [[[] | e |] st']; [apply IH | |]; reflexivity.
Qed.

(** [process_link] and [crawl_body] only call [crawl] one level down. *)
Lemma process_link_ext (crawl1 crawl2 : string -> Z -> Z -> M unit)
    (url : string) (max_depth current_depth : Z) (href : string) (st : Crawler) :
  (forall u st', crawl1 u max_depth (current_depth + 1) st'
                 = crawl2 u max_depth (current_depth + 1) st') ->
  process_link w crawl1 url max_depth current_depth href st
  = process_link w crawl2 url max_depth current_depth href st.
Proof.
  intros H. unfold process_link. apply bind_ext. intros full_url st1.
  destruct (is_pdf_link href); [reflexivity |].
  apply bind_ext. intros valid st2. apply bind_ext. intros visited st3.
  destruct (valid && negb (bool_decide (full_url ∈ visited))); [| reflexivity].
  apply bind_ext. intros _ st4. apply H.
Qed.

Lemma crawl_body_ext (crawl1 crawl2 : string -> Z -> Z -> M unit)
    (url : string) (max_depth current_depth : Z) (st : Crawler) :
  (forall u st', crawl1 u max_depth (current_depth + 1) st'
                 = crawl2 u max_depth (current_depth + 1) st') ->
  crawl_body w crawl1 url max_depth current_depth st
  = crawl_body w crawl2 url max_depth current_depth st.
Proof.
  intros H. unfold crawl_body. apply bind_ext. intros response st1.
  destruct (is_pdf_response response); [reflexivity |].
  apply bind_ext. intros links st2. apply for_each_ext. intros href st3.
  now apply process_link_ext.
Qed.

(** [crawl_page], unfolded once: the recursive calls are calls of
    [crawl_page]. *)
Lemma crawl_page_unfold (url : string) (max_depth current_depth : Z) (st : Crawler) :
  crawl_page w url max_depth current_depth st =
  if (current_depth >? max_depth) || bool_decide (url ∈ visited_urls st)
  then (Normal tt, st)
  else
    match scope_check w (domain st) url with
    | Err e => (Raised e, st)
    | Ok false => (Normal tt, st)
    | Ok true =>
        try_except
          (crawl_body w (crawl_page w) url max_depth current_depth)
          (fun e => print (LogErrorCrawling url e))
          (entered url current_depth st)
    end.
Proof.
  unfold crawl_page at 1. rewrite crawl_page_fuel_unfold.
  destruct (current_depth >? max_depth) eqn:Hdepth; [reflexivity |].
  rewrite Z.gtb_ltb, Z.ltb_ge in Hdepth. simpl.
  destruct (bool_decide (url ∈ visited_urls st)); [reflexivity |].
  destruct (scope_check w (domain st) url) as [[|] | e]; try reflexivity.
  replace (Z.to_nat (max_depth - current_depth + 1))
    with (S (Z.to_nat (max_depth - (current_depth + 1) + 1))) by lia.
  unfold try_except. erewrite crawl_body_ext; [reflexivity |].
  intros u st'. reflexivity.
Qed.

End CrawlUnfold.

(** ** Invariants of a crawl *)

Section CrawlInvariant.

Variable w : World.
Variable R : relation Crawler.
Context `{!PreOrder R}.

Hypothesis R_emit : forall ev, keeps R (emit ev).
Hypothesis R_download : forall pdf_url, keeps R (download_pdf w pdf_url).
Hypothesis R_enter : forall st url current_depth,
  url ∉ visited_urls st -> scope_check w (domain st) url = Ok true ->
  R st (entered url current_depth st).

Lemma session_get_keeps (url : string) : keeps R (session_get w url).
Proof.
  unfold session_get.
  apply keeps_bind; [apply _ | apply keeps_gets; apply _ | intros before].
  apply keeps_bind; [apply _ | apply R_emit | intros _].
  apply keeps_lift; apply _.
Qed.

Lemma is_valid_url_keeps (url : string) : keeps R (is_valid_url w url).
Proof.
  unfold is_valid_url.
  apply keeps_bind; [apply _ | apply keeps_lift; apply _ | intros parsed].
  apply keeps_bind; [apply _ | apply keeps_gets; apply _ | intros d].
  apply keeps_ret; apply _.
Qed.

Lemma process_link_keeps (crawl : string -> Z -> Z -> M unit)
    (url : string) (max_depth current_depth : Z) (href : string) :
  (forall u, keeps R (crawl u max_depth (current_depth + 1))) ->
  keeps R (process_link w crawl url max_depth current_depth href).
Proof.
  intros Hcrawl. unfold process_link.
  apply keeps_bind; [apply _ | apply keeps_lift; apply _ | intros full_url].
  destruct (is_pdf_link href); [apply R_download |].
  apply keeps_bind; [apply _ | apply is_valid_url_keeps | intros valid].
  apply keeps_bind; [apply _ | apply keeps_gets; apply _ | intros visited].
  destruct (valid && negb (bool_decide (full_url ∈ visited))).
  - apply keeps_bind; [apply _ | apply R_emit | intros _]. apply Hcrawl.
  - apply keeps_ret; apply _.
Qed.

Lemma crawl_body_keeps (crawl : string -> Z -> Z -> M unit)
    (url : string) (max_depth current_depth : Z) :
  (forall u, keeps R (crawl u max_depth (current_depth + 1))) ->
  keeps R (crawl_body w crawl url max_depth current_depth).
Proof.
  intros Hcrawl. unfold crawl_body.
  apply keeps_bind; [apply _ | apply session_get_keeps | intros response].
  destruct (is_pdf_response response); [apply R_download |].
  apply keeps_bind; [apply _ | apply keeps_lift; apply _ | intros links].
  apply keeps_for_each; [apply _ |]. intros href _.
  now apply process_link_keeps.
Qed.

Lemma crawl_page_fuel_keeps (fuel : nat) :
  forall (url : string) (max_depth current_depth : Z),
  keeps R (crawl_page_fuel w fuel url max_depth current_depth).
Proof.
  induction fuel as [|fuel IH]; intros url max_depth current_depth st;
    rewrite crawl_page_fuel_unfold;
    destruct ((current_depth >? max_depth) || bool_decide (url ∈ visited_urls st))
      eqn:Hguard; try reflexivity;
    destruct (scope_check w (domain st) url) as [[|] | e] eqn:Hscope; try reflexivity.
  apply orb_false_iff in Hguard as [_ Hvisited].
  apply bool_decide_eq_false in Hvisited.
  transitivity (entered url current_depth st); [now apply R_enter |].
  apply keeps_try_except; [apply _ | |].
  - apply crawl_body_keeps. intros u. apply IH.
  - intros e. apply R_emit.
Qed.

Lemma crawl_page_keeps (url : string) (max_depth current_depth : Z) :
  keeps R (crawl_page w url max_depth current_depth).
Proof. apply crawl_page_fuel_keeps. Qed.

End CrawlInvariant.

(** ** The crawler on the small site *)

Import Demo.

Example init_fresh (fs : gmap string string) : init site seed "out" fs = Ok (fresh fs).
Proof. reflexivity. Qed.

(** A whole crawl to depth 3 of the site: the requests in order, the pages
    visited and the files saved. *)
Example crawl_site :
  let st := after (start site 3) (fresh ∅) in
  rev (requests (trace st))
  = [ "https://site.com/"; "https://site.com/page2.html";
      "https://site.com/missing.pdf"; "https://site.com/doc.pdf";
      "https://site.com/broken.html"; "https://other.example.com/y.pdf" ]
  /\ visited_urls st
     = list_to_set [ "https://site.com/"; "https://site.com/page2.html";
                     "https://site.com/broken.html" ]
  /\ rev (writes (trace st)) = [ "out/doc.pdf"; "out/y.pdf" ].
Proof. vm_compute. repeat split. Qed.


(** * The derived file name *)

Section Filename.
Import PyStr PyStrFacts OsPath OsPathFacts.

Variable w : World.

(** C9: for every URL, the derived file name is the base name of the path
    of the URL (what follows its last slash), with [.pdf] appended if the
    base name does not end in it; a path with an empty base name gives the
    file name [.pdf]. *)
Theorem get_pdf_filename_spec (url : string) (parsed : ParseResult) :
  urlparse w url = Ok parsed ->
  let base := basename (path parsed) in
  (exists dir, path parsed = dir +:+ base /\
     (dir = "" \/ exists d, dir = d +:+ "/") /\
     forall a b, base <> a +:+ "/" +:+ b) /\
  ((exists r, base = r +:+ ".pdf") -> get_pdf_filename w url = Ok base) /\
  (~ (exists r, base = r +:+ ".pdf") ->
     get_pdf_filename w url = Ok (base +:+ ".pdf")) /\
  (base = "" -> get_pdf_filename w url = Ok ".pdf").
Proof.
  intros Hparse base. unfold get_pdf_filename. rewrite Hparse. fold base.
  repeat split.
  - destruct (basename_spec (path parsed)) as (dir & Heq & Hdir & Hno).
    exists dir. fold base in Heq, Hno. repeat split; [exact Heq | |].
    + destruct Hdir as [-> | Hdir]; [now left | right].
      now apply endswith_spec in Hdir.
    + intros a b Hab. rewrite <- occurs_contains in Hno.
      assert (contains base "/" = true) as Hc by (apply contains_spec; eauto).
      congruence.
  - intros Hend. apply endswith_spec in Hend. now rewrite Hend.
  - intros Hend. destruct (endswith base ".pdf") eqn:E; [| reflexivity].
    apply endswith_spec in E. contradiction.
  - intros ->. reflexivity.
Qed.

(** C10: the test of the ending [.pdf] in the derivation of the file name
    is case-sensitive: a base name whose ending is [.pdf] in another letter
    case gets [.pdf] appended once more, only the exact lowercase ending is
    left as it is; the link test, which lower-cases first, takes both for
    PDF links. *)
Theorem get_pdf_filename_case_sensitive (url : string) (parsed : ParseResult) :
  urlparse w url = Ok parsed ->
  let base := basename (path parsed) in
  (forall r x, base = r +:+ x -> lower x = ".pdf" -> x <> ".pdf" ->
     get_pdf_filename w url = Ok (base +:+ ".pdf") /\ is_pdf_link base = true) /\
  (forall r, base = r +:+ ".pdf" ->
     get_pdf_filename w url = Ok base /\ is_pdf_link base = true).
Proof.
  intros Hparse base. unfold get_pdf_filename. rewrite Hparse. fold base.
  assert (forall r x, base = r +:+ x -> lower x = ".pdf" -> is_pdf_link base = true)
    as Hlink.
  { intros r x -> Hx. unfold is_pdf_link. apply orb_true_iff. left.
    apply endswith_spec. exists (lower r). now rewrite lower_app, Hx. }
  split.
  - intros r x Hbase Hx Hne. split; [| now apply (Hlink r x)].
    destruct (endswith base ".pdf") eqn:E; [exfalso | reflexivity].
    apply endswith_spec in E as [r' Hr']. apply Hne.
    apply (app_inv_length r r'); [congruence |].
    rewrite <- (length_lower x), Hx. reflexivity.
  - intros r Hbase. split; [| now apply (Hlink r ".pdf")].
    assert (endswith base ".pdf" = true) as -> by (apply endswith_spec; eauto).
    reflexivity.
Qed.

End Filename.

(** On the small site: a path that ends in a slash gives [.pdf]. *)
Lemma get_pdf_filename_spec_witness :
  urlparse site "https://site.com/files/?name=a.pdf"
  = Ok {| netloc := "site.com"; path := "/files/" |}
  /\ get_pdf_filename site "https://site.com/files/?name=a.pdf" = Ok ".pdf".
Proof.
  split; [reflexivity |].
  apply (get_pdf_filename_spec site "https://site.com/files/?name=a.pdf"
           {| netloc := "site.com"; path := "/files/" |}); reflexivity.
Defined.

(** On the small site: [DOC.PDF] is saved as [DOC.PDF.pdf]. *)
Lemma get_pdf_filename_case_sensitive_witness :
  urlparse site "https://site.com/DOC.PDF"
  = Ok {| netloc := "site.com"; path := "/DOC.PDF" |}
  /\ get_pdf_filename site "https://site.com/DOC.PDF" = Ok "DOC.PDF.pdf"
  /\ is_pdf_link "DOC.PDF" = true.
Proof.
  split; [reflexivity |].
  apply (proj1 (get_pdf_filename_case_sensitive site "https://site.com/DOC.PDF"
                  {| netloc := "site.com"; path := "/DOC.PDF" |} eq_refl)
           "DOC" ".PDF");
    [reflexivity | reflexivity | discriminate].
Defined.

(** * The loop over taken names ends *)

(** C8: for every finite set of files that exist already, the loop that
    resolves a collision of file names ends: with as many tests as there
    are files, and two more, the counter has reached a path that is not
    among them, whatever the directory, the name, its two parts and the
    start of the counter are; more fuel changes nothing. *)
Theorem collision_loop_terminates (fs : gmap string string)
    (output_dir base_name ext : string) (counter : nat)
    (filename filepath : string) (more : nat) :
  exists filename' filepath',
    collision_loop (S (S (size fs)) + more) fs output_dir base_name ext
      counter filename filepath
    = Some (filename', filepath')
    /\ fs !! filepath' = None
    /\ collision_loop (S (S (size fs))) fs output_dir base_name ext
         counter filename filepath
       = Some (filename', filepath').
Proof.
  destruct (collision_loop_result fs output_dir base_name ext
              (S (S (size fs)) + more) counter filename filepath)
    as [[Hfree Hloop] | [Htaken (j & Hj & Hloop & Hfree & Hbelow)]]; [lia | |];
  destruct (collision_loop_result fs output_dir base_name ext
              (S (S (size fs))) counter filename filepath)
    as [[Hfree' Hloop'] | [Htaken' (j' & Hj' & Hloop' & Hfree' & Hbelow')]];
    try lia; try contradiction.
  - exists filename, filepath. repeat split; [exact Hloop | | exact Hloop'].
    now apply not_elem_of_dom.
  - exists (numbered base_name j ext), (candidate output_dir base_name ext j).
    repeat split; [exact Hloop | now apply not_elem_of_dom |].
    rewrite Hloop'. f_equal.
    assert (j' = j) as ->; [| reflexivity].
    destruct (Nat.lt_trichotomy j' j) as [Hlt | [Heq | Hgt]]; [| exact Heq |].
    + exfalso. apply Hfree'. apply Hbelow. lia.
    + exfalso. apply Hfree. apply Hbelow'. lia.
Qed.

(** [download_pdf] never hangs in the loop: it always returns. *)
Example download_pdf_always_returns (w : World) (pdf_url : string) (st : Crawler) :
  (download_pdf w pdf_url st).1 = Normal tt.
Proof. destruct (download_pdf_spec w pdf_url st) as (st' & -> & _). reflexivity. Qed.

(** * PDF detection *)

Section Detection.
Import PyStr PyStrFacts.

Variable w : World.

(** The link test is the second test alone: a lower-cased link that ends in
    [.pdf] contains it. *)
Lemma is_pdf_link_contains (href : string) :
  is_pdf_link href = contains (lower href) ".pdf".
Proof.
  unfold is_pdf_link. destruct (endswith (lower href) ".pdf") eqn:E; [| reflexivity].
  simpl. symmetry. now apply endswith_contains.
Qed.

(** What a turn of the loop over the links does with a PDF link and with
    another link. *)
Lemma process_link_unfold (crawl : string -> Z -> Z -> M unit)
    (url : string) (max_depth current_depth : Z) (href full_url : string)
    (st : Crawler) :
  urljoin w url href = Ok full_url ->
  process_link w crawl url max_depth current_depth href st =
  if is_pdf_link href then download_pdf w full_url st
  else
    match scope_check w (domain st) full_url with
    | Err e => (Raised e, st)
    | Ok valid =>
        if valid && negb (bool_decide (full_url ∈ visited_urls st))
        then crawl full_url max_depth (current_depth + 1)
               (set_trace (EvSleep :: trace st) st)
        else (Normal tt, st)
    end.
Proof.
  intros Hjoin. unfold process_link. unfold bind at 1. rewrite Hjoin. simpl.
  destruct (is_pdf_link href); [reflexivity |].
  unfold bind at 1. rewrite is_valid_url_unfold.
  destruct (scope_check w (domain st) full_url) as [valid | e]; [| reflexivity].
  simpl. unfold bind at 1, gets. simpl.
  destruct (valid && negb (bool_decide (full_url ∈ visited_urls st))); reflexivity.
Qed.

(** What the [try] block of [crawl_page] does once the page is fetched. *)
Lemma crawl_body_unfold (crawl : string -> Z -> Z -> M unit)
    (url : string) (max_depth current_depth : Z) (st : Crawler) :
  crawl_body w crawl url max_depth current_depth st =
  let st1 := set_trace (EvGet url :: trace st) st in
  match http_get w (trace st) url with
  | Err e => (Raised e, st1)
  | Ok response =>
      if is_pdf_response response then download_pdf w url st1
      else
        match find_links w (content response) with
        | Err e => (Raised e, st1)
        | Ok links =>
            for_each (process_link w crawl url max_depth current_depth) links st1
        end
  end.
Proof.
  unfold crawl_body, session_get, bind, gets, emit, modify, lift. simpl.
  destruct (http_get w (trace st) url) as [response | e]; [| reflexivity]. simpl.
  destruct (is_pdf_response response); [reflexivity |].
  destruct (find_links w (content response)) as [links | e]; reflexivity.
Qed.

(** A link that does not pass the link test is not downloaded: but for
    the recursive call, its turn of the loop requests and writes nothing. *)
Lemma process_link_no_download (url : string) (max_depth current_depth : Z)
    (href full_url : string) (st : Crawler) :
  urljoin w url href = Ok full_url ->
  is_pdf_link href = false ->
  let st' := after (process_link w (fun _ _ _ => ret tt) url max_depth
                      current_depth href) st in
  requests (trace st') = requests (trace st) /\
  writes (trace st') = writes (trace st) /\
  downloaded_pdfs st' = downloaded_pdfs st /\ files st' = files st.
Proof.
  intros Hjoin Hpdf st'. unfold st', after.
  rewrite (process_link_unfold _ _ _ _ _ full_url) by assumption. rewrite Hpdf.
  destruct (scope_check w (domain st) full_url) as [valid | e]; [| now repeat split].
  destruct (valid && negb (bool_decide (full_url ∈ visited_urls st)));
    now repeat split.
Qed.

(** A link with a part, its path say, that ends in [.pdf] in any letter
    case passes the link test. *)
Lemma is_pdf_link_part (href pre part post : string) :
  href = pre +:+ part +:+ post ->
  (exists r, lower part = r +:+ ".pdf") ->
  is_pdf_link href = true.
Proof.
  intros -> [r Hr]. rewrite is_pdf_link_contains. apply contains_spec.
  exists (lower pre +:+ r), (lower post).
  now rewrite !lower_app, Hr, !app_assoc.
Qed.

(** C5, as amended: a discovered link is taken for a PDF if and only if
    the text of its [href], as the page has it and lower-cased, ends in
    [.pdf] or contains [.pdf] anywhere, as it does when a part of it (its
    path, say) ends in [.pdf] in any letter case; the test is on this text,
    not on the URL it resolves to.  A link that passes is downloaded and not
    crawled: no page is visited, its URL is requested unless it is in
    [downloaded_pdfs], and when the fetch and the write go through its body
    is stored and its URL recorded.  A link that does not pass is not
    downloaded by the loop, and is crawled, after a pause, when it is in
    scope and not visited.  A fetched page is taken for a PDF if and only if
    its content type starts with [application/pdf]; it is then downloaded
    and not parsed, which requests its URL a second time. *)
Theorem pdf_detection :
  (forall href,
     is_pdf_link href = true <->
     (exists r, lower href = r +:+ ".pdf")
     \/ (exists a b, lower href = a +:+ ".pdf" +:+ b)) /\
  (forall href pre part post,
     href = pre +:+ part +:+ post -> (exists r, lower part = r +:+ ".pdf") ->
     is_pdf_link href = true) /\
  (forall crawl url max_depth current_depth href full_url st,
     urljoin w url href = Ok full_url ->
     (is_pdf_link href = true ->
      let st' := after (process_link w crawl url max_depth current_depth href) st in
      process_link w crawl url max_depth current_depth href st
      = download_pdf w full_url st /\
      visited_urls st' = visited_urls st /\
      crawled (trace st') = crawled (trace st) /\
      (full_url ∉ downloaded_pdfs st ->
       requests (trace st') = full_url :: requests (trace st) /\
       forall response filename filename' filepath,
         http_get w (EvPrint (LogDownloading full_url) :: trace st) full_url
         = Ok response ->
         get_pdf_filename w full_url = Ok filename ->
         resolve (files st) (output_dir st) filename = Some (filename', filepath) ->
         open_wb w filepath = Ok tt ->
         files st !! filepath = None /\
         files st' = <[filepath := content response]> (files st) /\
         writes (trace st') = filepath :: writes (trace st) /\
         downloaded_pdfs st' = {[full_url]} ∪ downloaded_pdfs st)) /\
     (is_pdf_link href = false ->
      (let st' := after (process_link w (fun _ _ _ => ret tt) url max_depth
                           current_depth href) st in
       requests (trace st') = requests (trace st) /\
       writes (trace st') = writes (trace st) /\
       downloaded_pdfs st' = downloaded_pdfs st /\ files st' = files st) /\
      (scope_check w (domain st) full_url = Ok true ->
       full_url ∉ visited_urls st ->
       process_link w crawl url max_depth current_depth href st
       = crawl full_url max_depth (current_depth + 1) (after sleep st)))) /\
  (forall response,
     is_pdf_response response = true <->
     exists rest, default "" (content_type response) = "application/pdf" +:+ rest) /\
  (forall crawl url max_depth current_depth st response,
     http_get w (trace st) url = Ok response ->
     let st1 := after (emit (EvGet url)) st in
     (is_pdf_response response = true ->
      let st' := after (crawl_body w crawl url max_depth current_depth) st in
      crawl_body w crawl url max_depth current_depth st = download_pdf w url st1 /\
      crawled (trace st') = crawled (trace st) /\
      (url ∉ downloaded_pdfs st ->
       requests (trace st') = url :: url :: requests (trace st) /\
       forall second filename filename' filepath,
         http_get w (EvPrint (LogDownloading url) :: trace st1) url = Ok second ->
         get_pdf_filename w url = Ok filename ->
         resolve (files st) (output_dir st) filename = Some (filename', filepath) ->
         open_wb w filepath = Ok tt ->
         files st' = <[filepath := content second]> (files st) /\
         downloaded_pdfs st' = {[url]} ∪ downloaded_pdfs st)) /\
     (is_pdf_response response = false ->
      crawl_body w crawl url max_depth current_depth st
      = (links <- lift (find_links w (content response)) ;;
         for_each (process_link w crawl url max_depth current_depth) links) st1)).
Proof.
  split; [| split; [| split; [| split]]].
  - intros href. split.
    + intros H. rewrite is_pdf_link_contains in H. right. now apply contains_spec.
    + intros [H | H].
      * unfold is_pdf_link. apply orb_true_iff. left. now apply endswith_spec.
      * rewrite is_pdf_link_contains. now apply contains_spec.
  - apply is_pdf_link_part.
  - intros crawl url max_depth current_depth href full_url st Hjoin.
    pose proof (process_link_unfold crawl url max_depth current_depth href full_url
                  st Hjoin) as Hlink.
    split.
    + intros Hpdf st'. rewrite Hpdf in Hlink. split; [exact Hlink |].
      unfold st', after. rewrite Hlink.
      split; [apply (download_pdf_crawled w full_url st) |].
      split; [apply (download_pdf_crawled w full_url st) |].
      intros Hnotin. now apply download_pdf_effects.
    + intros Hpdf. split.
      * now apply (process_link_no_download _ _ _ _ full_url).
      * intros Hscope Hnotin. rewrite Hlink, Hpdf, Hscope.
        now rewrite (bool_decide_eq_false_2 _ Hnotin).
  - intros response. apply startswith_spec.
  - intros crawl url max_depth current_depth st response Hget st1. split.
    + intros Hpdf st'.
      assert (crawl_body w crawl url max_depth current_depth st
              = download_pdf w url st1) as Heq.
      { rewrite crawl_body_unfold, Hget, Hpdf. reflexivity. }
      split; [exact Heq |]. unfold st', after. rewrite Heq.
      split; [apply (download_pdf_crawled w url st1) |].
      intros Hnotin.
      destruct (download_pdf_effects w url st1 Hnotin) as [Hreq Hsaved].
      split; [exact Hreq |].
      intros second filename filename' filepath Hsecond Hname Hres Hopen.
      destruct (Hsaved second filename filename' filepath Hsecond Hname Hres Hopen)
        as (_ & Hfiles & _ & Hrec).
      now split.
    + intros Hpdf. rewrite crawl_body_unfold, Hget, Hpdf.
      unfold bind, lift. destruct (find_links w (content response)); reflexivity.
Qed.

End Detection.

(** On the small site: the link [doc.pdf] of the seed page is downloaded. *)
Lemma pdf_detection_witness :
  let st' := after (process_link site (crawl_page site) seed 3 0 "doc.pdf") (fresh ∅) in
  urljoin site seed "doc.pdf" = Ok "https://site.com/doc.pdf"
  /\ is_pdf_link "doc.pdf" = true
  /\ requests (trace st') = ["https://site.com/doc.pdf"]
  /\ files st' = {[ "out/doc.pdf" := "%PDF doc" ]}.
Proof.
  intros st'. split; [reflexivity |]. split; [reflexivity |].
  destruct (proj1 (proj1 (proj2 (proj2 (pdf_detection site))) (crawl_page site) seed 3 0
                     "doc.pdf" "https://site.com/doc.pdf" (fresh ∅) eq_refl) eq_refl)
    as (_ & _ & _ & Hdl).
  destruct (Hdl (not_elem_of_empty _)) as [Hreq Hsaved].
  destruct (Hsaved {| content_type := Some "application/pdf"; content := "%PDF doc" |}
              "doc.pdf" "doc.pdf" "out/doc.pdf" eq_refl eq_refl eq_refl eq_refl)
    as (_ & Hfiles & _).
  fold st' in Hreq, Hfiles. split; [exact Hreq |]. now rewrite Hfiles.
Defined.

(** C5 as stated, on the path of the URL, fails both ways.  On the small
    site the page [viewer.pdf] is an HTML page.  Its link [?page=2] resolves
    to a URL whose path ends in [.pdf], and is not taken for a PDF: it is
    crawled as a page.  Its link [help.html?ref=.pdf] resolves to a URL
    whose path has no [.pdf], and is taken for a PDF: it is downloaded, as
    [help.html.pdf]. *)
Lemma pdf_detection_is_not_on_url_path :
  let page := "https://site.com/viewer.pdf" in
  let st1 := after (process_link site (crawl_page site) page 3 0 "?page=2") (fresh ∅) in
  let st2 := after (process_link site (crawl_page site) page 3 0 "help.html?ref=.pdf")
               (fresh ∅) in
  urljoin site page "?page=2" = Ok "https://site.com/viewer.pdf?page=2"
  /\ urlparse site "https://site.com/viewer.pdf?page=2"
     = Ok {| netloc := "site.com"; path := "/viewer.pdf" |}
  /\ PyStr.endswith (PyStr.lower "/viewer.pdf") ".pdf" = true
  /\ is_pdf_link "?page=2" = false
  /\ crawled (trace st1) = ["https://site.com/viewer.pdf?page=2"]
  /\ downloaded_pdfs st1 = ∅ /\ writes (trace st1) = []
  /\ urljoin site page "help.html?ref=.pdf" = Ok "https://site.com/help.html?ref=.pdf"
  /\ urlparse site "https://site.com/help.html?ref=.pdf"
     = Ok {| netloc := "site.com"; path := "/help.html" |}
  /\ PyStr.contains (PyStr.lower "/help.html") ".pdf" = false
  /\ is_pdf_link "help.html?ref=.pdf" = true
  /\ crawled (trace st2) = []
  /\ downloaded_pdfs st2 = {[ "https://site.com/help.html?ref=.pdf" ]}
  /\ writes (trace st2) = [ "out/help.html.pdf" ]
  /\ files st2 !! "out/help.html.pdf" = Some "HELP".
Proof.
  intros page st1 st2.
  repeat (split; [vm_compute; reflexivity |]). vm_compute. reflexivity.
Qed.

(** * Downloading twice *)

Section Download.

Variable w : World.

(** A URL of [downloaded_pdfs] is not downloaded again: nothing is fetched,
    written or printed. *)
Lemma download_pdf_skip (pdf_url : string) (st : Crawler) :
  pdf_url ∈ downloaded_pdfs st -> download_pdf w pdf_url st = (Normal tt, st).
Proof.
  intros Hin. rewrite download_pdf_unfold.
  now rewrite bool_decide_eq_true_2.
Qed.

(** A download that goes through: the state it leaves. *)
Lemma download_pdf_success (pdf_url : string) (st : Crawler)
    (response : Response) (filename filename' filepath : string) :
  pdf_url ∉ downloaded_pdfs st ->
  http_get w (EvPrint (LogDownloading pdf_url) :: trace st) pdf_url = Ok response ->
  get_pdf_filename w pdf_url = Ok filename ->
  resolve (files st) (output_dir st) filename = Some (filename', filepath) ->
  open_wb w filepath = Ok tt ->
  download_pdf w pdf_url st
  = (Normal tt, download_saved pdf_url filename' filepath (content response) st).
Proof.
  intros Hin Hget Hname Hres Hopen. rewrite download_pdf_unfold.
  rewrite bool_decide_eq_false_2 by assumption.
  now rewrite Hget, Hname, Hres, Hopen.
Qed.

(** C3: [download_pdf] called twice on one URL writes exactly one file:
    the first call, when it goes through, writes one file, at a path where
    there was none, and records the URL in [downloaded_pdfs]; the second
    call changes nothing: no fetch, no write. *)
Theorem download_pdf_twice (pdf_url : string) (st : Crawler)
    (response : Response) (filename filename' filepath : string) :
  pdf_url ∉ downloaded_pdfs st ->
  http_get w (EvPrint (LogDownloading pdf_url) :: trace st) pdf_url = Ok response ->
  get_pdf_filename w pdf_url = Ok filename ->
  resolve (files st) (output_dir st) filename = Some (filename', filepath) ->
  open_wb w filepath = Ok tt ->
  let st1 := after (download_pdf w pdf_url) st in
  let st2 := after (download_pdf w pdf_url) st1 in
  (download_pdf w pdf_url st).1 = Normal tt /\
  pdf_url ∈ downloaded_pdfs st1 /\
  files st !! filepath = None /\
  files st1 = <[filepath := content response]> (files st) /\
  download_pdf w pdf_url st1 = (Normal tt, st1) /\
  st2 = st1 /\
  requests (trace st2) = pdf_url :: requests (trace st) /\
  writes (trace st2) = filepath :: writes (trace st) /\
  size (files st2) = S (size (files st)).
Proof.
  intros Hin Hget Hname Hres Hopen st1 st2.
  assert (st1 = download_saved pdf_url filename' filepath (content response) st)
    as Hst1.
  { unfold st1, after. now rewrite (download_pdf_success _ _ _ _ _ _ Hin Hget Hname Hres Hopen). }
  assert (pdf_url ∈ downloaded_pdfs st1) as Hin1.
  { rewrite Hst1. simpl. set_solver. }
  assert (st2 = st1) as Hst2.
  { unfold st2, after. now rewrite download_pdf_skip. }
  assert (files st !! filepath = None) as Hfree.
  { destruct (resolve_terminates (files st) (output_dir st) filename)
      as (r & Hr & _ & Hnotin & _).
    rewrite Hres in Hr. injection Hr as <-. now apply not_elem_of_dom. }
  repeat split.
  - now rewrite (download_pdf_success _ _ _ _ _ _ Hin Hget Hname Hres Hopen).
  - exact Hin1.
  - exact Hfree.
  - now rewrite Hst1.
  - now apply download_pdf_skip.
  - exact Hst2.
  - now rewrite Hst2, Hst1.
  - now rewrite Hst2, Hst1.
  - rewrite Hst2, Hst1. simpl. now apply map_size_insert_None.
Qed.

End Download.

(** On the small site: [doc.pdf] downloaded twice is fetched and written
    once. *)
Lemma download_pdf_twice_witness :
  let st1 := after (download_pdf site "https://site.com/doc.pdf") (fresh ∅) in
  let st2 := after (download_pdf site "https://site.com/doc.pdf") st1 in
  st2 = st1
  /\ requests (trace st2) = ["https://site.com/doc.pdf"]
  /\ writes (trace st2) = ["out/doc.pdf"].
Proof.
  pose proof (download_pdf_twice site "https://site.com/doc.pdf" (fresh ∅)
                {| content_type := Some "application/pdf"; content := "%PDF doc" |}
                "doc.pdf" "doc.pdf" "out/doc.pdf") as H.
  destruct H as (_ & _ & _ & _ & _ & H2 & Hreq & Hwr & _);
    [ apply not_elem_of_empty | reflexivity | reflexivity
    | reflexivity | reflexivity | ].
  repeat split; assumption.
Defined.

(** * The guards of [crawl_page] *)

Section Guards.

Variable w : World.

Lemma extends_entered (st : Crawler) (url : string) (current_depth : Z) :
  extends st (entered url current_depth st).
Proof.
  split; try reflexivity; simpl.
  - set_solver.
  - now exists [EvPrint (LogCrawling current_depth url)].
Qed.

(** A crawl never undoes anything. *)
Lemma crawl_page_extends (url : string) (max_depth current_depth : Z) :
  keeps extends (crawl_page w url max_depth current_depth).
Proof.
  apply crawl_page_keeps.
  - apply _.
  - apply extends_emit.
  - apply download_pdf_extends.
  - intros st u d _ _. apply extends_entered.
Qed.

(** The [try] block starts with the request of the page; what follows only
    adds to the state the request leaves. *)
Lemma crawl_body_after_get (url : string) (max_depth current_depth : Z) (st : Crawler) :
  extends (set_trace (EvGet url :: trace st) st)
    (try_except (crawl_body w (crawl_page w) url max_depth current_depth)
       (fun e => print (LogErrorCrawling url e)) st).2.
Proof.
  unfold try_except. rewrite crawl_body_unfold.
  destruct (http_get w (trace st) url) as [response | e].
  2: { apply (extends_emit (EvPrint (LogErrorCrawling url e))). }
  assert (forall (m : M unit) st1, keeps extends m ->
            extends st1 (match m st1 with
                         | (Raised e, st') => print (LogErrorCrawling url e) st'
                         | r => r
                         end).2) as Hm.
  { intros m st1 Hkeeps. specialize (Hkeeps st1).
    destruct (m st1) as [[[] | e |] st']; simpl in *; try exact Hkeeps.
    etransitivity; [exact Hkeeps |].
    apply (extends_emit (EvPrint (LogErrorCrawling url e))). }
  destruct (is_pdf_response response).
  - apply (Hm (download_pdf w url)). apply download_pdf_extends.
  - destruct (find_links w (content response)) as [links | e].
    + apply (Hm (for_each (process_link w (crawl_page w) url max_depth current_depth)
                   links)).
      apply keeps_for_each; [apply _ |]. intros href _.
      apply process_link_keeps; try apply _.
      * apply extends_emit.
      * apply download_pdf_extends.
      * intros u. apply crawl_page_extends.
    + apply (extends_emit (EvPrint (LogErrorCrawling url e))).
Qed.

Lemma crawl_page_too_deep (url : string) (max_depth current_depth : Z) (st : Crawler) :
  max_depth < current_depth ->
  crawl_page w url max_depth current_depth st = (Normal tt, st).
Proof.
  intros Hgt. rewrite crawl_page_unfold.
  destruct (Z.gtb_spec current_depth max_depth); [reflexivity | lia].
Qed.

Lemma crawl_page_visited (url : string) (max_depth current_depth : Z) (st : Crawler) :
  url ∈ visited_urls st ->
  crawl_page w url max_depth current_depth st = (Normal tt, st).
Proof.
  intros Hin. rewrite crawl_page_unfold, (bool_decide_eq_true_2 _ Hin), orb_true_r.
  reflexivity.
Qed.

Lemma guards_pass_test (url : string) (max_depth current_depth : Z) (st : Crawler) :
  current_depth <= max_depth -> url ∉ visited_urls st ->
  (current_depth >? max_depth) || bool_decide (url ∈ visited_urls st) = false.
Proof.
  intros Hle Hnotin. rewrite (bool_decide_eq_false_2 _ Hnotin), orb_false_r.
  rewrite Z.gtb_ltb. apply Z.ltb_ge. exact Hle.
Qed.

Lemma crawl_page_enters (url : string) (max_depth current_depth : Z) (st : Crawler) :
  current_depth <= max_depth -> url ∉ visited_urls st ->
  scope_check w (domain st) url = Ok true ->
  crawl_page w url max_depth current_depth st
  = try_except (crawl_body w (crawl_page w) url max_depth current_depth)
      (fun e => print (LogErrorCrawling url e)) (entered url current_depth st).
Proof.
  intros Hle Hnotin Hscope.
  now rewrite crawl_page_unfold, (guards_pass_test _ _ _ _ Hle Hnotin), Hscope.
Qed.

Lemma entered_visited (url : string) (current_depth : Z) (st : Crawler) :
  url ∈ visited_urls (entered url current_depth st).
Proof. simpl. apply elem_of_union_l. now apply elem_of_singleton. Qed.

(** C2: [crawl_page] called on a URL of [visited_urls], at a depth over
    [max_depth], or on a URL out of scope, does nothing: no fetch, and the
    two sets unchanged.  The depth and the visited set are tested before
    the scope (a URL that [urlparse] refuses is not looked at when one of
    the two already stops the call, and is when none does).  A call that
    passes the guards puts the URL in [visited_urls] before the first
    request, which is the request of the URL itself. *)
Theorem crawl_page_guards (url : string) (max_depth current_depth : Z) (st : Crawler) :
  (max_depth < current_depth ->
   crawl_page w url max_depth current_depth st = (Normal tt, st)) /\
  (url ∈ visited_urls st ->
   crawl_page w url max_depth current_depth st = (Normal tt, st)) /\
  (scope_check w (domain st) url = Ok false ->
   crawl_page w url max_depth current_depth st = (Normal tt, st)) /\
  (current_depth <= max_depth -> url ∉ visited_urls st ->
   forall e, urlparse w url = Err e ->
   crawl_page w url max_depth current_depth st = (Raised e, st)) /\
  (current_depth <= max_depth -> url ∉ visited_urls st ->
   scope_check w (domain st) url = Ok true ->
   let st1 := entered url current_depth st in
   crawl_page w url max_depth current_depth st
   = try_except (crawl_body w (crawl_page w) url max_depth current_depth)
       (fun e => print (LogErrorCrawling url e)) st1
   /\ url ∈ visited_urls st1
   /\ requests (trace st1) = requests (trace st)
   /\ exists new,
        trace (after (crawl_page w url max_depth current_depth) st)
        = new ++ EvGet url :: trace st1).
Proof.
  split; [| split; [| split; [| split]]].
  - apply crawl_page_too_deep.
  - apply crawl_page_visited.
  - intros Hscope. rewrite crawl_page_unfold, Hscope.
    destruct ((current_depth >? max_depth) || bool_decide (url ∈ visited_urls st));
      reflexivity.
  - intros Hle Hnotin e He.
    rewrite crawl_page_unfold, (guards_pass_test _ _ _ _ Hle Hnotin).
    unfold scope_check. now rewrite He.
  - intros Hle Hnotin Hscope st1.
    split; [now apply crawl_page_enters |].
    split; [apply entered_visited |]. split; [reflexivity |].
    unfold after. rewrite (crawl_page_enters _ _ _ _ Hle Hnotin Hscope).
    destruct (crawl_body_after_get url max_depth current_depth st1)
      as [_ _ _ _ _ _ [new Hnew]].
    exists new. exact Hnew.
Qed.

End Guards.

(** On the small site, after a crawl: the seed is visited, and the crawl
    of it again does nothing. *)
Lemma crawl_page_guards_witness :
  let st := after (start site 3) (fresh ∅) in
  seed ∈ visited_urls st
  /\ crawl_page site seed 3 0 st = (Normal tt, st).
Proof.
  intros st.
  assert (seed ∈ visited_urls st) as Hin by (vm_compute; reflexivity).
  split; [exact Hin |].
  exact (proj1 (proj2 (crawl_page_guards site seed 3 0 st)) Hin).
Defined.

(** * Failed fetches *)

Section Failures.

Variable w : World.

Lemma requests_app (t1 t2 : list Event) :
  requests (t1 ++ t2) = requests t1 ++ requests t2.
Proof.
  induction t1 as [|ev t1 IH]; [reflexivity |].
  destruct ev; simpl; now rewrite IH.
Qed.

(** Whatever is called later in the run, nothing is undone. *)
Lemma later_extends (st st' : Crawler) : later w st st' -> extends st st'.
Proof.
  induction 1 as [st | st1 st2 st3 Hcall _ IH]; [reflexivity |].
  etransitivity; [| exact IH].
  destruct Hcall as [url max_depth current_depth | pdf_url].
  - apply crawl_page_extends.
  - apply download_pdf_extends.
Qed.

(** A download whose fetch fails: the state it leaves. *)
Lemma download_pdf_fetch_error (pdf_url : string) (st : Crawler) (e : Exn) :
  pdf_url ∉ downloaded_pdfs st ->
  http_get w (EvPrint (LogDownloading pdf_url) :: trace st) pdf_url = Err e ->
  download_pdf w pdf_url st = (Normal tt, download_failed pdf_url e st).
Proof.
  intros Hin Hget. rewrite download_pdf_unfold.
  rewrite bool_decide_eq_false_2 by assumption. now rewrite Hget.
Qed.

(** A download of a URL that is not in [downloaded_pdfs] requests it, once,
    however it ends. *)
Lemma download_pdf_requests (pdf_url : string) (st : Crawler) :
  pdf_url ∉ downloaded_pdfs st ->
  requests (trace (after (download_pdf w pdf_url) st))
  = pdf_url :: requests (trace st).
Proof.
  intros Hin. unfold after.
  destruct (download_pdf_spec w pdf_url st) as (st' & -> & H). simpl.
  destruct H as [Hin' | e _ | response filename r _ _ _ _];
    [contradiction | reflexivity | reflexivity].
Qed.

(** C1, as amended: a fetch that fails is caught where it happens, logged
    with the URL and the reason, and the caller sees a normal return.  For a
    page crawl the URL stays in [visited_urls], and whatever the run does
    afterwards, [crawl_page] on it does nothing: it is not crawled again.
    For a download the URL is not put in [downloaded_pdfs], which records
    saved files only: [download_pdf] on it again requests it again. *)
Theorem failed_fetch_is_isolated :
  (forall url max_depth current_depth st e,
     current_depth <= max_depth -> url ∉ visited_urls st ->
     scope_check w (domain st) url = Ok true ->
     http_get w (trace (entered url current_depth st)) url = Err e ->
     let st1 := after (crawl_page w url max_depth current_depth) st in
     crawl_page w url max_depth current_depth st = (Normal tt, st1) /\
     trace st1 = EvPrint (LogErrorCrawling url e) :: EvGet url
                 :: EvPrint (LogCrawling current_depth url) :: trace st /\
     url ∈ visited_urls st1 /\
     forall st2, later w st1 st2 ->
       forall max_depth' current_depth',
         crawl_page w url max_depth' current_depth' st2 = (Normal tt, st2)) /\
  (forall pdf_url st e,
     pdf_url ∉ downloaded_pdfs st ->
     http_get w (EvPrint (LogDownloading pdf_url) :: trace st) pdf_url = Err e ->
     let st1 := after (download_pdf w pdf_url) st in
     download_pdf w pdf_url st = (Normal tt, st1) /\
     trace st1 = EvPrint (LogErrorDownloading pdf_url e) :: EvGet pdf_url
                 :: EvPrint (LogDownloading pdf_url) :: trace st /\
     downloaded_pdfs st1 = downloaded_pdfs st /\
     files st1 = files st /\
     requests (trace (after (download_pdf w pdf_url) st1))
     = pdf_url :: pdf_url :: requests (trace st)).
Proof.
  split.
  - intros url max_depth current_depth st e Hle Hnotin Hscope Hget st1.
    assert (crawl_page w url max_depth current_depth st
            = (Normal tt,
               set_trace (EvPrint (LogErrorCrawling url e) :: EvGet url
                          :: trace (entered url current_depth st))
                 (entered url current_depth st))) as Heq.
    { rewrite (crawl_page_enters _ _ _ _ _ Hle Hnotin Hscope).
      unfold try_except. rewrite crawl_body_unfold, Hget. reflexivity. }
    assert (url ∈ visited_urls st1) as Hin1.
    { unfold st1, after. rewrite Heq. apply entered_visited. }
    split; [| split; [| split]].
    + unfold st1, after. now rewrite Heq.
    + unfold st1, after. now rewrite Heq.
    + exact Hin1.
    + intros st2 Hlater max_depth' current_depth'.
      apply crawl_page_visited. apply (ext_visited _ _ (later_extends _ _ Hlater)).
      exact Hin1.
  - intros pdf_url st e Hnotin Hget st1.
    assert (st1 = download_failed pdf_url e st) as Hst1.
    { unfold st1, after. now rewrite (download_pdf_fetch_error _ _ _ Hnotin Hget). }
    split; [| split; [| split; [| split]]].
    + rewrite Hst1. now apply download_pdf_fetch_error.
    + now rewrite Hst1.
    + now rewrite Hst1.
    + now rewrite Hst1.
    + rewrite download_pdf_requests; [now rewrite Hst1 | now rewrite Hst1].
Qed.

End Failures.

(** On the small site: the page [broken.html] answers with an error; the
    crawl of it returns, and it is not crawled again after a whole crawl of
    the site. *)
Lemma failed_fetch_is_isolated_witness :
  let url := "https://site.com/broken.html" in
  let st1 := after (crawl_page site url 3 0) (fresh ∅) in
  let st2 := after (crawl_page site seed 3 0) st1 in
  crawl_page site url 3 0 (fresh ∅) = (Normal tt, st1)
  /\ url ∈ visited_urls st1
  /\ crawl_page site url 3 0 st2 = (Normal tt, st2).
Proof.
  intros url st1 st2.
  destruct (proj1 (failed_fetch_is_isolated site) url 3 0 (fresh ∅)
              (RequestException "500 Server Error"))
    as (Hret & _ & Hin & Hlater);
    [lia | apply not_elem_of_empty | reflexivity | reflexivity |].
  split; [exact Hret |]. split; [exact Hin |].
  apply Hlater. apply rtc_once. apply Call_crawl_page.
Defined.

(** C1 as stated fails for downloads.  On the small site the fetch of
    [missing.pdf] fails; the URL is not in [downloaded_pdfs] afterwards, and
    the next [download_pdf] of it requests it a second time. *)
Lemma failed_download_is_fetched_again :
  let pdf_url := "https://site.com/missing.pdf" in
  let st1 := after (download_pdf site pdf_url) (fresh ∅) in
  let st2 := after (download_pdf site pdf_url) st1 in
  http_get site (EvPrint (LogDownloading pdf_url) :: trace (fresh ∅)) pdf_url
  = Err (RequestException "404 Client Error")
  /\ requests (trace st1) = [pdf_url]
  /\ downloaded_pdfs st1 = ∅
  /\ requests (trace st2) = [pdf_url; pdf_url].
Proof. vm_compute. repeat split. Qed.

(** * Links out of the domain *)

Section Scope.

Variable w : World.

Global Instance visits_in_scope_preorder : PreOrder (visits_in_scope w).
Proof.
  split.
  - intros st. split; [reflexivity | auto].
  - intros st1 st2 st3 [Hd12 Hv12] [Hd23 Hv23]. split; [congruence |].
    intros u Hu. destruct (Hv23 u Hu) as [Hin | Hscope].
    + now apply Hv12.
    + right. now rewrite <- Hd12.
Qed.

(** A download visits no page. *)
Lemma download_pdf_visited (pdf_url : string) (st : Crawler) :
  visited_urls (after (download_pdf w pdf_url) st) = visited_urls st
  /\ domain (after (download_pdf w pdf_url) st) = domain st.
Proof.
  unfold after. destruct (download_pdf_spec w pdf_url st) as (st' & -> & H).
  destruct H; now split.
Qed.

(** Every page a crawl visits is in scope. *)
Lemma crawl_page_visits_in_scope (url : string) (max_depth current_depth : Z) :
  keeps (visits_in_scope w) (crawl_page w url max_depth current_depth).
Proof.
  apply crawl_page_keeps.
  - apply _.
  - intros ev st. split; [reflexivity | auto].
  - intros pdf_url st. destruct (download_pdf_visited pdf_url st) as [Hv Hd].
    unfold after in Hv, Hd. split; [exact Hd |]. intros u Hu. left. now rewrite <- Hv.
  - intros st u d _ Hscope. split; [reflexivity |]. simpl. intros u' Hu'.
    apply elem_of_union in Hu' as [Hu' | Hu']; [| now left].
    apply elem_of_singleton in Hu' as ->. now right.
Qed.



End Scope.


(** * A crawl at depth zero *)

Section DepthZero.

Variable w : World.
Variable allowed : string -> Prop.

Global Instance only_requests_preorder : PreOrder (only_requests allowed).
Proof.
  split.
  - intros st. split; [reflexivity |]. exists []. split; [reflexivity |].
    intros u Hu. simpl in Hu. now apply elem_of_nil in Hu.
  - intros st1 st2 st3 (Hv12 & n1 & Ht12 & Ha1) (Hv23 & n2 & Ht23 & Ha2).
    split; [congruence |]. exists (n2 ++ n1).
    split; [now rewrite Ht23, Ht12, app_assoc |].
    intros u Hu. rewrite requests_app in Hu.
    apply elem_of_app in Hu as [Hu | Hu]; auto.
Qed.

(** An effect keeps the relation when it is no request, or the request of
    an allowed URL. *)
Lemma only_requests_emit (ev : Event) :
  (forall u, ev = EvGet u -> allowed u) -> keeps (only_requests allowed) (emit ev).
Proof.
  intros Hev st. split; [reflexivity |]. exists [ev]. split; [reflexivity |].
  intros u Hu. destruct ev; simpl in Hu;
    try (now apply elem_of_nil in Hu).
  apply list_elem_of_singleton in Hu as ->. now apply Hev.
Qed.

(** A download requests its URL and nothing else. *)
Lemma only_requests_download (pdf_url : string) :
  allowed pdf_url -> keeps (only_requests allowed) (download_pdf w pdf_url).
Proof.
  intros Hallowed st. destruct (download_pdf_spec w pdf_url st) as (st' & -> & H).
  simpl. destruct H as [_ | e _ | response filename r _ _ _ _].
  - reflexivity.
  - split; [reflexivity |].
    exists [EvPrint (LogErrorDownloading pdf_url e); EvGet pdf_url;
            EvPrint (LogDownloading pdf_url)].
    split; [reflexivity |]. intros u Hu. simpl in Hu.
    apply list_elem_of_singleton in Hu as ->. exact Hallowed.
  - split; [reflexivity |].
    exists [EvPrint (LogSaved r.1); EvWrite r.2 (content response); EvGet pdf_url;
            EvPrint (LogDownloading pdf_url)].
    split; [reflexivity |]. intros u Hu. simpl in Hu.
    apply list_elem_of_singleton in Hu as ->. exact Hallowed.
Qed.

End DepthZero.

Section DepthZeroCrawl.

Variable w : World.
Variable seed : string.

(** At depth zero a link either is downloaded or costs a pause: the
    recursive call returns at once. *)
Lemma process_link_depth_zero (allowed : string -> Prop) (href : string) :
  (forall full_url, urljoin w seed href = Ok full_url ->
                    is_pdf_link href = true -> allowed full_url) ->
  keeps (only_requests allowed) (process_link w (crawl_page w) seed 0 0 href).
Proof.
  intros Hallowed st. destruct (urljoin w seed href) as [full_url | e] eqn:Hjoin.
  - rewrite (process_link_unfold w _ _ _ _ _ full_url st Hjoin).
    destruct (is_pdf_link href) eqn:Hpdf.
    + apply only_requests_download. now apply Hallowed.
    + destruct (scope_check w (domain st) full_url) as [valid | e]; [| reflexivity].
      destruct (valid && negb (bool_decide (full_url ∈ visited_urls st)));
        [| reflexivity].
      rewrite crawl_page_too_deep by lia.
      apply (only_requests_emit allowed EvSleep). intros u Hu. discriminate.
  - unfold process_link, bind. rewrite Hjoin. simpl. reflexivity.
Qed.

(** The [try] block of a crawl at depth zero, with its handler: it requests
    the page, and then nothing but PDF links of the page. *)
Lemma crawl_body_depth_zero (st1 : Crawler) :
  only_requests
    (fun u => u = seed \/
       exists response links,
         http_get w (trace st1) seed = Ok response /\
         find_links w (content response) = Ok links /\
         linked_pdf w links seed u)
    st1
    (try_except (crawl_body w (crawl_page w) seed 0 0)
       (fun e => print (LogErrorCrawling seed e)) st1).2.
Proof.
  set (allowed := fun u => u = seed \/ _).
  assert (forall m : M unit, keeps (only_requests allowed) m ->
            keeps (only_requests allowed)
              (try_except m (fun e => print (LogErrorCrawling seed e)))) as Htry.
  { intros m Hm. apply keeps_try_except; [apply _ | exact Hm |].
    intros e. apply only_requests_emit. intros u Hu. discriminate. }
  assert (forall st, only_requests allowed st (set_trace (EvGet seed :: trace st) st))
    as Hget.
  { intros st. apply (only_requests_emit allowed (EvGet seed)).
    intros u Hu. injection Hu as <-. now left. }
  transitivity (set_trace (EvGet seed :: trace st1) st1); [apply Hget |].
  unfold try_except. rewrite crawl_body_unfold.
  destruct (http_get w (trace st1) seed) as [response | e] eqn:Hresponse.
  2: { apply (only_requests_emit allowed (EvPrint (LogErrorCrawling seed e))).
       intros u Hu. discriminate. }
  destruct (is_pdf_response response).
  { apply (Htry (download_pdf w seed)). apply only_requests_download. now left. }
  destruct (find_links w (content response)) as [links | e] eqn:Hlinks.
  2: { apply (only_requests_emit allowed (EvPrint (LogErrorCrawling seed e))).
       intros u Hu. discriminate. }
  apply (Htry (for_each (process_link w (crawl_page w) seed 0 0) links)).
  apply keeps_for_each; [apply _ |]. intros href Hin.
  apply process_link_depth_zero. intros full_url Hjoin Hpdf.
  right. exists response, links.
  split; [reflexivity |]. split; [exact Hlinks |].
  exists href. auto.
Qed.

(** A download records a URL only after it has requested it. *)
Lemma download_pdf_recorded (pdf_url : string) (st : Crawler) :
  exists new,
    trace (after (download_pdf w pdf_url) st) = new ++ trace st /\
    (forall u, u ∈ downloaded_pdfs (after (download_pdf w pdf_url) st) ->
               u ∈ downloaded_pdfs st \/ u ∈ requests new) /\
    (pdf_url ∈ downloaded_pdfs st \/ pdf_url ∈ requests new).
Proof.
  unfold after. destruct (download_pdf_spec w pdf_url st) as (st' & -> & H). simpl.
  destruct H as [Hin | e Hin | response filename r Hin Hget Hname Hsettled].
  - exists []. split; [reflexivity |]. split; [auto | now left].
  - exists [EvPrint (LogErrorDownloading pdf_url e); EvGet pdf_url;
            EvPrint (LogDownloading pdf_url)].
    split; [reflexivity |]. simpl. split; [auto |]. right. left.
  - exists [EvPrint (LogSaved r.1); EvWrite r.2 (content response); EvGet pdf_url;
            EvPrint (LogDownloading pdf_url)].
    split; [reflexivity |]. simpl. split; [| right; left].
    intros u Hu. apply elem_of_union in Hu as [Hu | Hu]; [| now left].
    apply elem_of_singleton in Hu as ->. right. left.
Qed.

(** At depth zero the loop over links that all resolve runs to its end, and
    requests every link that passes the link test, unless it is downloaded
    already. *)
Lemma for_each_depth_zero (links : list string) : forall st1,
  (forall href, href ∈ links ->
     exists u, urljoin w seed href = Ok u /\
               (is_pdf_link href = false -> exists parsed, urlparse w u = Ok parsed)) ->
  let r := for_each (process_link w (crawl_page w) seed 0 0) links st1 in
  r.1 = Normal tt /\
  exists new,
    trace r.2 = new ++ trace st1 /\
    (forall u, u ∈ downloaded_pdfs r.2 -> u ∈ downloaded_pdfs st1 \/ u ∈ requests new) /\
    (forall u, linked_pdf w links seed u ->
               u ∈ downloaded_pdfs st1 \/ u ∈ requests new).
Proof.
  induction links as [|href links IH]; intros st1 Hlinks; simpl.
  - split; [reflexivity |]. exists []. split; [reflexivity |]. split; [auto |].
    intros u (href & Hin & _). now apply elem_of_nil in Hin.
  - destruct (Hlinks href) as (full_url & Hjoin & Hparse); [left |].
    assert (exists st2 new,
              process_link w (crawl_page w) seed 0 0 href st1 = (Normal tt, st2) /\
              trace st2 = new ++ trace st1 /\
              (forall u, u ∈ downloaded_pdfs st2 ->
                         u ∈ downloaded_pdfs st1 \/ u ∈ requests new) /\
              (is_pdf_link href = true ->
               full_url ∈ downloaded_pdfs st1 \/ full_url ∈ requests new))
      as (st2 & new1 & Hproc & Ht1 & Hd1 & Hpdf1).
    { rewrite (process_link_unfold w _ _ _ _ _ full_url st1 Hjoin).
      destruct (is_pdf_link href) eqn:Hpdf.
      - destruct (download_pdf_recorded full_url st1) as (new & Ht & Hd & Hu).
        unfold after in Ht, Hd.
        destruct (download_pdf_spec w full_url st1) as (st2 & Heq & _).
        rewrite Heq in Ht, Hd |- *. exists st2, new. auto.
      - destruct (Hparse eq_refl) as [parsed Hparsed]. unfold scope_check.
        rewrite Hparsed.
        destruct ((String.eqb (netloc parsed) (domain st1)
                   || String.eqb (netloc parsed) "")
                  && negb (bool_decide (full_url ∈ visited_urls st1))).
        + rewrite crawl_page_too_deep by lia.
          exists (set_trace (EvSleep :: trace st1) st1), [EvSleep].
          split; [reflexivity |]. split; [reflexivity |]. split; [auto | discriminate].
        + exists st1, []. split; [reflexivity |]. split; [reflexivity |].
          split; [auto | discriminate]. }
    destruct (IH st2) as (Hret & new2 & Ht2 & Hd2 & Hpdf2).
    { intros h Hh. apply Hlinks. now right. }
    assert ((process_link w (crawl_page w) seed 0 0 href ;;
             for_each (process_link w (crawl_page w) seed 0 0) links) st1
            = for_each (process_link w (crawl_page w) seed 0 0) links st2) as ->.
    { unfold bind. now rewrite Hproc. }
    split; [exact Hret |]. exists (new2 ++ new1).
    split; [rewrite Ht2, Ht1; apply app_assoc |].
    assert (forall u, u ∈ downloaded_pdfs st2 \/ u ∈ requests new2 ->
                      u ∈ downloaded_pdfs st1 \/ u ∈ requests (new2 ++ new1)) as Hstep.
    { intros u [Hu | Hu]; rewrite requests_app.
      - destruct (Hd1 u Hu) as [H | H]; [now left |]. right.
        apply elem_of_app. now right.
      - right. apply elem_of_app. now left. }
    split.
    + intros u Hu. apply Hstep. exact (Hd2 u Hu).
    + intros u (h & Hin & Hpdf & Hu). apply elem_of_cons in Hin as [-> | Hin].
      * rewrite Hjoin in Hu. injection Hu as <-.
        destruct (Hpdf1 Hpdf) as [H | H]; [now left |]. right.
        rewrite requests_app. apply elem_of_app. now right.
      * apply Hstep. apply Hpdf2. exists h. auto.
Qed.

(** C6, as amended: with [max_depth = 0] the seed is the only page
    crawled: no other URL enters [visited_urls], and every request made is
    the request of the seed or that of a link of the seed page that passes
    the link test, which is downloaded; no other linked page is requested,
    in scope or not.  The seed is crawled, when it is in scope and not
    visited: it is the first URL requested.  And the links of its page that
    pass the link test are requested too, each one that is not downloaded
    already, when the page is fetched and parsed, is no PDF, and each of its
    links resolves. *)
Theorem depth_zero_crawl (st : Crawler) :
  let st' := after (crawl_page w seed 0 0) st in
  (forall u, u ∈ visited_urls st' -> u ∈ visited_urls st \/ u = seed) /\
  (exists new, trace st' = new ++ trace st /\
     forall u, u ∈ requests new ->
       u = seed \/
       exists response links,
         http_get w (trace (entered seed 0 st)) seed = Ok response /\
         find_links w (content response) = Ok links /\
         linked_pdf w links seed u) /\
  (seed ∉ visited_urls st -> scope_check w (domain st) seed = Ok true ->
   seed ∈ visited_urls st' /\
   exists new,
     trace st' = new ++ EvGet seed :: EvPrint (LogCrawling 0 seed) :: trace st /\
     forall response links,
       http_get w (trace (entered seed 0 st)) seed = Ok response ->
       is_pdf_response response = false ->
       find_links w (content response) = Ok links ->
       (forall href, href ∈ links ->
          exists u, urljoin w seed href = Ok u /\
                    (is_pdf_link href = false ->
                     exists parsed, urlparse w u = Ok parsed)) ->
       forall u, linked_pdf w links seed u ->
                 u ∈ downloaded_pdfs st \/ u ∈ requests new).
Proof.
  intros st'. split; [| split].
  - unfold st', after. rewrite crawl_page_unfold.
    destruct ((0 >? 0) || bool_decide (seed ∈ visited_urls st)); [simpl; auto |].
    destruct (scope_check w (domain st) seed) as [[|] | e]; [| simpl; auto ..].
    destruct (crawl_body_depth_zero (entered seed 0 st)) as (Hvisited & _).
    intros u Hu. rewrite Hvisited in Hu. simpl in Hu.
    apply elem_of_union in Hu as [Hu | Hu]; [| now left].
    apply elem_of_singleton in Hu. now right.
  - unfold st', after. rewrite crawl_page_unfold.
    destruct ((0 >? 0) || bool_decide (seed ∈ visited_urls st)).
    { simpl. exists []. split; [reflexivity |].
      intros u Hu. simpl in Hu. now apply elem_of_nil in Hu. }
    destruct (scope_check w (domain st) seed) as [[|] | e].
    2, 3: simpl; exists []; (split; [reflexivity |]);
          intros u Hu; simpl in Hu; now apply elem_of_nil in Hu.
    destruct (crawl_body_depth_zero (entered seed 0 st))
      as (_ & new & Htrace & Hallowed).
    exists (new ++ [EvPrint (LogCrawling 0 seed)]). split.
    + rewrite Htrace. simpl. now rewrite <- app_assoc.
    + intros u Hu. rewrite requests_app in Hu. simpl in Hu.
      rewrite app_nil_r in Hu. now apply Hallowed.
  - intros Hnotin Hscope. unfold st', after.
    rewrite (crawl_page_enters w seed 0 0 st) by (lia || assumption).
    destruct (crawl_body_after_get w seed 0 0 (entered seed 0 st))
      as [_ _ _ Hsub _ _ [new Hnew]].
    split; [apply Hsub; apply entered_visited |].
    exists new. split; [exact Hnew |].
    intros response links Hget Hpdf Hlinks Hresolve u Hu.
    revert Hnew. unfold try_except. rewrite crawl_body_unfold, Hget, Hpdf, Hlinks.
    cbv zeta.
    destruct (for_each_depth_zero links
                (set_trace (EvGet seed :: trace (entered seed 0 st)) (entered seed 0 st))
                Hresolve) as (Hret & new' & Hnew' & _ & Hreq).
    destruct (for_each (process_link w (crawl_page w) seed 0 0) links _)
      as [[[] | e |] st2]; simpl in Hret; try discriminate.
    simpl in Hnew' |- *. intros Hnew. rewrite Hnew' in Hnew.
    apply app_inv_tail in Hnew as <-. now apply Hreq.
Qed.

End DepthZeroCrawl.

(** C6 as stated fails when the seed page links to PDFs.  On the small
    site a crawl with [max_depth = 0] visits the seed alone and skips its
    in-scope links [page2.html] and [broken.html], but requests three URLs:
    the seed and the two PDFs it links to. *)
Lemma depth_zero_fetches_linked_pdfs :
  let st := after (start site 0) (fresh ∅) in
  find_links site "SEED"
  = Ok [ "page2.html"; "doc.pdf"; "broken.html";
         "https://other.example.com/x"; "https://other.example.com/y.pdf" ]
  /\ visited_urls st = {[ seed ]}
  /\ rev (requests (trace st))
     = [ seed; "https://site.com/doc.pdf"; "https://other.example.com/y.pdf" ].
Proof. vm_compute. repeat split. Qed.

(** * Names that are taken *)

Section Names.
Import PyStr PyStrFacts OsPath OsPathFacts.

(** A derived file name is a stem with no slash followed by [.pdf]. *)
Lemma get_pdf_filename_form (w : World) (url filename : string) :
  get_pdf_filename w url = Ok filename ->
  exists stem, filename = stem +:+ ".pdf" /\ occurs "/" stem = false.
Proof.
  unfold get_pdf_filename. destruct (urlparse w url) as [parsed | e]; [| discriminate].
  destruct (basename_spec (path parsed)) as (dir & _ & _ & Hno).
  destruct (endswith (basename (path parsed)) ".pdf") eqn:Hend; simpl;
    intros H; injection H as <-.
  - apply endswith_spec in Hend as [stem Hstem]. exists stem. split; [exact Hstem |].
    rewrite Hstem, occurs_app in Hno. now apply orb_false_iff in Hno as [Hno _].
  - now exists (basename (path parsed)).
Qed.

(** The name a file is saved under, for a derived name [stem.pdf] whose stem
    has a character that is not a dot: [stem.pdf] when that path is free,
    else [stem_k.pdf] for the least [k], from 1 on, whose path is free. *)
Lemma collision_names (fs : gmap string string) (output_dir stem : string) :
  occurs "/" stem = false -> all_dots stem = false ->
  exists filename,
    resolve fs output_dir (stem +:+ ".pdf") = Some (filename, join output_dir filename)
    /\ fs !! join output_dir filename = None
    /\ ((fs !! join output_dir (stem +:+ ".pdf") = None
         /\ filename = stem +:+ ".pdf")
        \/ (is_Some (fs !! join output_dir (stem +:+ ".pdf"))
            /\ exists k, (1 <= k)%nat
                 /\ filename = stem +:+ "_" +:+ pretty k +:+ ".pdf"
                 /\ forall i, (1 <= i < k)%nat ->
                      is_Some (fs !! join output_dir
                                       (stem +:+ "_" +:+ pretty i +:+ ".pdf")))).
Proof.
  intros Hslash Hdots.
  destruct (resolve_terminates fs output_dir (stem +:+ ".pdf"))
    as ([filename filepath] & Hres & Hpath & Hfree & Hname).
  rewrite (splitext_pdf stem Hslash), Hdots in Hname. simpl in Hpath, Hfree, Hname.
  subst filepath. exists filename. split; [exact Hres |].
  split; [now apply not_elem_of_dom |].
  destruct Hname as [[Hfree0 ->] | [Htaken (k & Hk & -> & Hbelow)]].
  - left. split; [now apply not_elem_of_dom | reflexivity].
  - right. split; [now apply elem_of_dom |]. exists k.
    split; [exact Hk |]. split; [reflexivity |].
    intros i Hi. apply elem_of_dom. now apply Hbelow.
Qed.

(** The same for a stem that is empty or made of dots: the number comes
    after [.pdf]. *)
Lemma collision_names_dots (fs : gmap string string) (output_dir stem : string) :
  occurs "/" stem = false -> all_dots stem = true ->
  is_Some (fs !! join output_dir (stem +:+ ".pdf")) ->
  exists k, (1 <= k)%nat /\
    resolve fs output_dir (stem +:+ ".pdf")
    = Some ((stem +:+ ".pdf") +:+ "_" +:+ pretty k,
            join output_dir ((stem +:+ ".pdf") +:+ "_" +:+ pretty k)).
Proof.
  intros Hslash Hdots Htaken.
  destruct (resolve_terminates fs output_dir (stem +:+ ".pdf"))
    as ([filename filepath] & Hres & Hpath & Hfree & Hname).
  rewrite (splitext_pdf stem Hslash), Hdots in Hname. simpl in Hpath, Hfree, Hname.
  subst filepath.
  destruct Hname as [[Hfree0 _] | [_ (k & Hk & -> & _)]].
  - exfalso. apply Hfree0. now apply elem_of_dom.
  - exists k. split; [exact Hk |]. rewrite Hres. unfold numbered.
    now rewrite !app_nil_r, !app_assoc.
Qed.

End Names.

(** The example of the specification: with [report.pdf] in the directory,
    a download that derives [report.pdf] is saved as [report_1.pdf], and the
    next one as [report_2.pdf]; the file that was there is untouched. *)
Example report_collisions :
  let st0 := fresh {[ "out/report.pdf" := "%PDF first" ]} in
  let st1 := after (download_pdf site "https://site.com/2023/report.pdf") st0 in
  let st2 := after (download_pdf site "https://site.com/2024/report.pdf") st1 in
  rev (writes (trace st2)) = [ "out/report_1.pdf"; "out/report_2.pdf" ]
  /\ files st2 !! "out/report.pdf" = Some "%PDF first"
  /\ files st2 !! "out/report_1.pdf" = Some "%PDF 2023"
  /\ files st2 !! "out/report_2.pdf" = Some "%PDF 2024".
Proof. vm_compute. repeat split. Qed.

(** C7 fails on the code for a derived name that is [.pdf] alone (an
    empty base name): [os.path.splitext] takes the leading dot for a part
    of the name and finds no extension, so the number is put after [.pdf].
    On the small site two URLs with the path [/files/] are saved as [.pdf]
    and [.pdf_1], not [.pdf] and [_1.pdf]. *)
Lemma empty_basename_collision :
  let st1 := after (download_pdf site "https://site.com/files/?name=a.pdf") (fresh ∅) in
  let st2 := after (download_pdf site "https://site.com/files/?name=b.pdf") st1 in
  get_pdf_filename site "https://site.com/files/?name=b.pdf" = Ok ".pdf"
  /\ OsPath.splitext ".pdf" = (".pdf", "")
  /\ rev (writes (trace st2)) = [ "out/.pdf"; "out/.pdf_1" ]
  /\ files st2 !! "out/_1.pdf" = None.
Proof. vm_compute. repeat split. Qed.

(** * Further properties of a crawl *)

Section Further.

Variable w : World.

(** X1: a file is saved under its derived name [stem.pdf] when no file has
    that path, else under [stem_k.pdf] for the least [k], from 1 on, whose
    path is free, for every stem with a character that is not a dot; the
    path chosen is never one of a file that exists. *)
Theorem saved_name_is_first_free (fs : gmap string string) (output_dir stem : string) :
  PyStr.occurs "/" stem = false -> all_dots stem = false ->
  exists filename,
    resolve fs output_dir (stem +:+ ".pdf")
    = Some (filename, OsPath.join output_dir filename)
    /\ fs !! OsPath.join output_dir filename = None
    /\ ((fs !! OsPath.join output_dir (stem +:+ ".pdf") = None
         /\ filename = stem +:+ ".pdf")
        \/ (is_Some (fs !! OsPath.join output_dir (stem +:+ ".pdf"))
            /\ exists k, (1 <= k)%nat
                 /\ filename = stem +:+ "_" +:+ pretty k +:+ ".pdf"
                 /\ forall i, (1 <= i < k)%nat ->
                      is_Some (fs !! OsPath.join output_dir
                                       (stem +:+ "_" +:+ pretty i +:+ ".pdf")))).
Proof. apply collision_names. Qed.

(** X3: a crawl undoes nothing: the two sets only grow, every file that
    existed is still there with what it held, and the effects so far are
    the oldest of the effects afterwards. *)
Theorem crawl_page_grows (url : string) (max_depth current_depth : Z) (st : Crawler) :
  extends st (after (crawl_page w url max_depth current_depth) st).
Proof. apply crawl_page_extends. Qed.

(** X4: every URL a crawl adds to [visited_urls] is in scope: its host is
    the domain of the crawler, or it has none. *)
Theorem crawl_page_stays_in_scope (url : string) (max_depth current_depth : Z)
    (st : Crawler) :
  visits_in_scope w st (after (crawl_page w url max_depth current_depth) st).
Proof. apply crawl_page_visits_in_scope. Qed.

End Further.

(** On the small site: [report.pdf] is taken, [report_1.pdf] is free. *)
Lemma saved_name_is_first_free_witness :
  exists filename,
    resolve {[ "out/report.pdf" := "%PDF first" ]} "out" ("report" +:+ ".pdf")
    = Some (filename, OsPath.join "out" filename)
    /\ filename = "report_1.pdf".
Proof.
  destruct (saved_name_is_first_free {[ "out/report.pdf" := "%PDF first" ]}
              "out" "report" eq_refl eq_refl) as (filename & Hres & _ & _).
  exists filename. split; [exact Hres |].
  vm_compute in Hres. now injection Hres as <-.
Defined.

(** * The steps of a crawl *)

(** An invariant of a crawl, by the depth of the calls. *)
Section Steps.

Variable w : World.
Variable max_depth : Z.

(** [R d] is what the steps of a call at depth [d] keep, after the request
    of its page; [Q url d] is what a call on [url] at depth [d] does. *)
Variable R : Z -> relation Crawler.
Variable Q : string -> Z -> relation Crawler.
Context `{!forall d, PreOrder (R d)}.

Hypothesis R_log : forall d url e, keeps (R d) (print (LogErrorCrawling url e)).
Hypothesis R_download : forall d pdf_url, keeps (R d) (download_pdf w pdf_url).
Hypothesis Q_skip : forall url d st, Q url d st st.
Hypothesis Q_enter : forall url d st st',
  d <= max_depth -> url ∉ visited_urls st -> scope_check w (domain st) url = Ok true ->
  R d (after (emit (EvGet url)) (entered url d st)) st' -> Q url d st st'.
Hypothesis R_call : forall url d st st',
  Q url (d + 1) (after sleep st) st' -> R d st st'.

Lemma process_link_steps (crawl : string -> Z -> Z -> M unit)
    (url : string) (current_depth : Z) (href : string) :
  (forall u st, Q u (current_depth + 1) st
                  (after (crawl u max_depth (current_depth + 1)) st)) ->
  keeps (R current_depth) (process_link w crawl url max_depth current_depth href).
Proof.
  intros Hcrawl st. destruct (urljoin w url href) as [full_url | e] eqn:Hjoin.
  - rewrite (process_link_unfold w _ _ _ _ _ full_url st Hjoin).
    destruct (is_pdf_link href); [apply R_download |].
    destruct (scope_check w (domain st) full_url) as [valid | e]; [| reflexivity].
    destruct (valid && negb (bool_decide (full_url ∈ visited_urls st)));
      [| reflexivity].
    apply (R_call full_url). apply Hcrawl.
  - unfold process_link, bind. rewrite Hjoin. simpl. reflexivity.
Qed.

Lemma crawl_body_steps (crawl : string -> Z -> Z -> M unit)
    (url : string) (current_depth : Z) (st : Crawler) :
  (forall u st, Q u (current_depth + 1) st
                  (after (crawl u max_depth (current_depth + 1)) st)) ->
  R current_depth (after (emit (EvGet url)) st)
    (after (try_except (crawl_body w crawl url max_depth current_depth)
              (fun e => print (LogErrorCrawling url e))) st).
Proof.
  intros Hcrawl. unfold after, try_except. rewrite crawl_body_unfold.
  assert (forall (m : M unit) st1, keeps (R current_depth) m ->
            R current_depth st1
              (match m st1 with
               | (Raised e, st') => print (LogErrorCrawling url e) st'
               | r => r
               end).2) as Hm.
  { intros m st1 Hkeeps. specialize (Hkeeps st1).
    destruct (m st1) as [[[] | e |] st']; simpl in *; try exact Hkeeps.
    etransitivity; [exact Hkeeps | apply R_log]. }
  destruct (http_get w (trace st) url) as [response | e]; [| apply R_log].
  destruct (is_pdf_response response).
  - apply (Hm (download_pdf w url)). apply R_download.
  - destruct (find_links w (content response)) as [links | e]; [| apply R_log].
    apply (Hm (for_each (process_link w crawl url max_depth current_depth) links)).
    apply keeps_for_each; [apply _ |]. intros href _.
    now apply process_link_steps.
Qed.

Lemma crawl_page_fuel_steps (fuel : nat) :
  forall (url : string) (current_depth : Z) (st : Crawler),
  Q url current_depth st
    (after (crawl_page_fuel w fuel url max_depth current_depth) st).
Proof.
  induction fuel as [|fuel IH]; intros url current_depth st;
    unfold after; rewrite crawl_page_fuel_unfold;
    destruct (current_depth >? max_depth) eqn:Hdepth; try apply Q_skip;
    destruct (bool_decide (url ∈ visited_urls st)) eqn:Hvisited; try apply Q_skip;
    destruct (scope_check w (domain st) url) as [[|] | e] eqn:Hscope; try apply Q_skip.
  simpl. rewrite Z.gtb_ltb, Z.ltb_ge in Hdepth.
  apply bool_decide_eq_false in Hvisited.
  apply Q_enter; [exact Hdepth | exact Hvisited | exact Hscope |].
  apply crawl_body_steps. intros u st'. apply IH.
Qed.

Lemma crawl_page_steps (url : string) (current_depth : Z) (st : Crawler) :
  Q url current_depth st (after (crawl_page w url max_depth current_depth) st).
Proof. apply crawl_page_fuel_steps. Qed.

End Steps.

Section TraceFacts.

Lemma writes_app (t1 t2 : list Event) : writes (t1 ++ t2) = writes t1 ++ writes t2.
Proof.
  induction t1 as [|ev t1 IH]; [reflexivity |].
  destruct ev; simpl; now rewrite IH.
Qed.

Lemma crawled_app (t1 t2 : list Event) : crawled (t1 ++ t2) = crawled t1 ++ crawled t2.
Proof.
  induction t1 as [|ev t1 IH]; [reflexivity |].
  destruct ev as [[] | | |]; simpl; now rewrite IH.
Qed.

Lemma elem_of_writes (t : list Event) (p : string) :
  p ∈ writes t <-> exists data, EvWrite p data ∈ t.
Proof.
  induction t as [|ev t IH]; simpl.
  - split; [intros H; now apply elem_of_nil in H |].
    intros [data H]. now apply elem_of_nil in H.
  - destruct ev as [l | u | | q d]; simpl; rewrite ?elem_of_cons, IH;
      (split; [intros H | intros [data H]]).
    1, 3, 5: destruct H as [data H]; exists data; now right.
    1, 2, 3: apply elem_of_cons in H as [H | H]; [discriminate | now exists data].
    + destruct H as [-> | [data H]]; [exists d; now left | exists data; now right].
    + apply elem_of_cons in H as [H | H]; [injection H as -> ->; now left |].
      right. now exists data.
Qed.

End TraceFacts.

Global Instance crawls_once_preorder : PreOrder crawls_once.
Proof.
  split.
  - intros st. exists []. simpl. split; [reflexivity |]. split; [constructor |].
    split; [intros u Hu; now apply elem_of_nil in Hu |].
    now rewrite (left_id_L ∅ (∪)).
  - intros st1 st2 st3 (n1 & Ht1 & Hnd1 & Hnew1 & Hv1) (n2 & Ht2 & Hnd2 & Hnew2 & Hv2).
    exists (n2 ++ n1). split; [now rewrite Ht2, Ht1, app_assoc |].
    rewrite crawled_app. split; [| split].
    + apply NoDup_app. split; [exact Hnd2 |]. split; [| exact Hnd1].
      intros u Hu2 Hu1. apply (Hnew2 u Hu2). rewrite Hv1.
      apply elem_of_union_l. now apply elem_of_list_to_set.
    + intros u Hu. apply elem_of_app in Hu as [Hu | Hu]; [| now apply Hnew1].
      intros Hin. apply (Hnew2 u Hu). rewrite Hv1. now apply elem_of_union_r.
    + now rewrite Hv2, Hv1, list_to_set_app_L, (assoc_L (∪)).
Qed.

(** An invariant of a crawl whose recursive calls need nothing of their own. *)
Section Walk.

Variable w : World.
Variable R : relation Crawler.
Context `{!PreOrder R}.

Hypothesis R_log : forall url e, keeps R (print (LogErrorCrawling url e)).
Hypothesis R_download : forall pdf_url, keeps R (download_pdf w pdf_url).
Hypothesis R_sleep : keeps R sleep.
Hypothesis R_page : forall url d st,
  url ∉ visited_urls st -> scope_check w (domain st) url = Ok true ->
  R st (after (emit (EvGet url)) (entered url d st)).

Lemma crawl_page_walk (url : string) (max_depth current_depth : Z) :
  keeps R (crawl_page w url max_depth current_depth).
Proof.
  intros st.
  apply (crawl_page_steps w max_depth (fun _ => R) (fun _ _ => R)).
  - intros _. apply R_log.
  - intros _. apply R_download.
  - intros u d st1. reflexivity.
  - intros u d st1 st2 _ Hvisited Hscope H.
    etransitivity; [now apply (R_page u d) | exact H].
  - intros u d st1 st2 H. etransitivity; [apply R_sleep | exact H].
Qed.

End Walk.

Section Counting.

Variable w : World.

Lemma crawls_once_quiet (st st' : Crawler) (new : list Event) :
  trace st' = new ++ trace st -> crawled new = [] ->
  visited_urls st' = visited_urls st -> crawls_once st st'.
Proof.
  intros Ht Hc Hv. exists new. split; [exact Ht |]. rewrite Hc.
  split; [constructor |].
  split; [intros u Hu; now apply elem_of_nil in Hu |].
  simpl. now rewrite Hv, (left_id_L ∅ (∪)).
Qed.

Lemma download_pdf_crawls_once (pdf_url : string) :
  keeps crawls_once (download_pdf w pdf_url).
Proof.
  intros st. destruct (download_pdf_spec w pdf_url st) as (st' & -> & H). simpl.
  destruct H as [Hin | e Hin | response filename r Hin Hget Hname Hsettled].
  - reflexivity.
  - now apply (crawls_once_quiet _ _ [EvPrint (LogErrorDownloading pdf_url e);
                                       EvGet pdf_url; EvPrint (LogDownloading pdf_url)]).
  - now apply (crawls_once_quiet _ _ [EvPrint (LogSaved r.1);
                                       EvWrite r.2 (content response); EvGet pdf_url;
                                       EvPrint (LogDownloading pdf_url)]).
Qed.

Lemma crawl_page_crawls_once (url : string) (max_depth current_depth : Z) :
  keeps crawls_once (crawl_page w url max_depth current_depth).
Proof.
  apply crawl_page_walk.
  - apply _.
  - intros u e st.
    now apply (crawls_once_quiet _ _ [EvPrint (LogErrorCrawling u e)]).
  - apply download_pdf_crawls_once.
  - intros st. now apply (crawls_once_quiet _ _ [EvSleep]).
  - intros u d st Hvisited _.
    exists [EvGet u; EvPrint (LogCrawling d u)]. simpl.
    split; [reflexivity |]. split; [apply NoDup_singleton |].
    split; [intros u' Hu'; apply list_elem_of_singleton in Hu' as ->; exact Hvisited |].
    now rewrite (right_id_L ∅ (∪)).
Qed.

End Counting.

Section Follows.

Variable ok : Event -> option Event -> bool.

(** No effect is allowed as the first one that is not allowed after
    another. *)
Hypothesis ok_first : forall ev before, ok ev None = true -> ok ev before = true.

Lemma follows_app (t1 t2 : list Event) :
  follows ok t1 = true -> follows ok t2 = true -> follows ok (t1 ++ t2) = true.
Proof.
  intros H1 H2. induction t1 as [|ev t1 IH]; [exact H2 |].
  simpl in *. apply andb_true_iff in H1 as [Hev H1].
  apply andb_true_iff. split; [| now apply IH].
  destruct t1 as [|ev' t1]; [| exact Hev]. simpl in *. now apply ok_first.
Qed.

Global Instance steps_preorder : PreOrder (steps ok).
Proof.
  split.
  - intros st. now exists [].
  - intros st1 st2 st3 (n1 & Ht1 & H1) (n2 & Ht2 & H2). exists (n2 ++ n1).
    split; [now rewrite Ht2, Ht1, app_assoc | now apply follows_app].
Qed.

End Follows.

Lemma after_pause_first (ev : Event) (before : option Event) :
  after_pause ev None = true -> after_pause ev before = true.
Proof. destruct ev as [[] | | |]; simpl; (discriminate || reflexivity). Qed.

Lemma announced_first (w : World) (domain : string) (ev : Event)
    (before : option Event) :
  announced w domain ev None = true -> announced w domain ev before = true.
Proof. destruct ev; simpl; (discriminate || reflexivity). Qed.

Section Pauses.

Variable w : World.

Local Abbreviation paused := (steps after_pause).

Local Instance paused_preorder : PreOrder paused.
Proof. apply steps_preorder. apply after_pause_first. Qed.

Lemma download_pdf_paused (pdf_url : string) : keeps paused (download_pdf w pdf_url).
Proof.
  intros st. destruct (download_pdf_spec w pdf_url st) as (st' & -> & H). simpl.
  destruct H as [Hin | e Hin | response filename r Hin Hget Hname Hsettled].
  - reflexivity.
  - now exists [EvPrint (LogErrorDownloading pdf_url e); EvGet pdf_url;
                EvPrint (LogDownloading pdf_url)].
  - now exists [EvPrint (LogSaved r.1); EvWrite r.2 (content response); EvGet pdf_url;
                EvPrint (LogDownloading pdf_url)].
Qed.

Lemma crawl_page_pauses (url : string) (max_depth current_depth : Z) (st : Crawler) :
  crawls_after_pauses url current_depth st
    (after (crawl_page w url max_depth current_depth) st).
Proof.
  apply (crawl_page_steps w max_depth (fun _ => paused) crawls_after_pauses).
  - intros _ u e st1. now exists [EvPrint (LogErrorCrawling u e)].
  - intros _. apply download_pdf_paused.
  - intros u d st1. now left.
  - intros u d st1 st2 _ _ _ (new & Ht & Hnew). right. exists (new ++ [EvGet u]).
    split; [rewrite Ht; simpl; now rewrite <- app_assoc |].
    apply follows_app; [apply after_pause_first | exact Hnew | reflexivity].
  - intros u d st1 st2 [-> | (new & Ht & Hnew)].
    + now exists [EvSleep].
    + exists (new ++ [EvPrint (LogCrawling (d + 1) u); EvSleep]).
      split; [rewrite Ht; simpl; now rewrite <- app_assoc |].
      apply follows_app; [apply after_pause_first | exact Hnew | reflexivity].
Qed.

End Pauses.

Section Announced.

Variable w : World.

Global Instance requests_announced_preorder : PreOrder (requests_announced w).
Proof.
  split.
  - intros st. split; [reflexivity |]. now exists [].
  - intros st1 st2 st3 [Hd1 H1] [Hd2 H2]. split; [congruence |].
    rewrite Hd1 in H2.
    eapply (@transitivity _ _ (@PreOrder_Transitive _ _
              (steps_preorder _ (announced_first w (domain st1))))); eassumption.
Qed.

Lemma requests_announced_quiet (st st' : Crawler) (new : list Event) :
  domain st' = domain st -> trace st' = new ++ trace st ->
  follows (announced w (domain st)) new = true -> requests_announced w st st'.
Proof. intros Hd Ht Hnew. split; [exact Hd |]. now exists new. Qed.

Lemma download_pdf_announced (pdf_url : string) :
  keeps (requests_announced w) (download_pdf w pdf_url).
Proof.
  intros st. destruct (download_pdf_spec w pdf_url st) as (st' & -> & H). simpl.
  destruct H as [Hin | e Hin | response filename r Hin Hget Hname Hsettled].
  - reflexivity.
  - apply (requests_announced_quiet _ _
             [EvPrint (LogErrorDownloading pdf_url e); EvGet pdf_url;
              EvPrint (LogDownloading pdf_url)]); try reflexivity.
    simpl. now rewrite String.eqb_refl.
  - apply (requests_announced_quiet _ _
             [EvPrint (LogSaved r.1); EvWrite r.2 (content response); EvGet pdf_url;
              EvPrint (LogDownloading pdf_url)]); try reflexivity.
    simpl. now rewrite String.eqb_refl.
Qed.

Lemma crawl_page_announced (url : string) (max_depth current_depth : Z) :
  keeps (requests_announced w) (crawl_page w url max_depth current_depth).
Proof.
  apply crawl_page_walk.
  - apply _.
  - intros u e st.
    now apply (requests_announced_quiet _ _ [EvPrint (LogErrorCrawling u e)]).
  - apply download_pdf_announced.
  - intros st. now apply (requests_announced_quiet _ _ [EvSleep]).
  - intros u d st _ Hscope.
    apply (requests_announced_quiet _ _ [EvGet u; EvPrint (LogCrawling d u)]);
      try reflexivity.
    simpl. unfold in_scope. now rewrite Hscope, String.eqb_refl.
Qed.

End Announced.

Section Depth.

Variable w : World.

Global Instance crawls_within_preorder (lo hi : Z) : PreOrder (crawls_within lo hi).
Proof.
  split.
  - intros st. exists []. split; [reflexivity |].
    intros d u H. now apply elem_of_nil in H.
  - intros st1 st2 st3 (n1 & Ht1 & H1) (n2 & Ht2 & H2). exists (n2 ++ n1).
    split; [now rewrite Ht2, Ht1, app_assoc |].
    intros d u H. apply elem_of_app in H as [H | H]; eauto.
Qed.

Lemma crawls_within_quiet (lo hi : Z) (st st' : Crawler) (new : list Event) :
  trace st' = new ++ trace st -> crawled new = [] -> crawls_within lo hi st st'.
Proof.
  intros Ht Hc. exists new. split; [exact Ht |]. intros d u H.
  assert (u ∈ crawled new) as Hu.
  { clear Ht Hc. induction new as [|ev new IH]; [now apply elem_of_nil in H |].
    apply elem_of_cons in H as [<- | H]; [now left |].
    destruct ev as [[] | | |]; simpl; try right; now apply IH. }
  rewrite Hc in Hu. now apply elem_of_nil in Hu.
Qed.

Lemma crawls_within_weaken (lo lo' hi : Z) (st st' : Crawler) :
  lo <= lo' -> crawls_within lo' hi st st' -> crawls_within lo hi st st'.
Proof.
  intros Hlo (new & Ht & H). exists new. split; [exact Ht |].
  intros d u Hd. specialize (H d u Hd). lia.
Qed.

Lemma download_pdf_crawls_within (lo hi : Z) (pdf_url : string) :
  keeps (crawls_within lo hi) (download_pdf w pdf_url).
Proof.
  intros st. destruct (download_pdf_spec w pdf_url st) as (st' & -> & H). simpl.
  destruct H as [Hin | e Hin | response filename r Hin Hget Hname Hsettled].
  - reflexivity.
  - now apply (crawls_within_quiet _ _ _ _
                 [EvPrint (LogErrorDownloading pdf_url e); EvGet pdf_url;
                  EvPrint (LogDownloading pdf_url)]).
  - now apply (crawls_within_quiet _ _ _ _
                 [EvPrint (LogSaved r.1); EvWrite r.2 (content response);
                  EvGet pdf_url; EvPrint (LogDownloading pdf_url)]).
Qed.

Lemma crawl_page_crawls_within (url : string) (max_depth current_depth : Z)
    (st : Crawler) :
  crawls_within current_depth max_depth st
    (after (crawl_page w url max_depth current_depth) st).
Proof.
  apply (crawl_page_steps w max_depth (fun d => crawls_within (d + 1) max_depth)
           (fun _ d => crawls_within d max_depth)).
  - intros d u e st1.
    now apply (crawls_within_quiet _ _ _ _ [EvPrint (LogErrorCrawling u e)]).
  - intros d. apply download_pdf_crawls_within.
  - intros u d st1. reflexivity.
  - intros u d st1 st2 Hle _ _ H. apply (crawls_within_weaken d (d + 1)) in H; [| lia].
    etransitivity; [| exact H].
    exists [EvGet u; EvPrint (LogCrawling d u)]. split; [reflexivity |].
    intros d' u' Hin. apply elem_of_cons in Hin as [Hin | Hin]; [discriminate |].
    apply list_elem_of_singleton in Hin. injection Hin as -> ->. lia.
  - intros u d st1 st2 H. etransitivity; [| exact H].
    now apply (crawls_within_quiet _ _ _ _ [EvSleep]).
Qed.

End Depth.

(** * A whole run *)

Section Start.

Variable w : World.

Lemma start_unfold (max_depth : Z) (st : Crawler) :
  start w max_depth st =
  let st0 :=
    after (print (LogStart (base_url st) (output_dir st) max_depth)) st in
  match crawl_page w (base_url st) max_depth 0 st0 with
  | (Normal _, st1) =>
      (Normal tt,
       after (print (LogComplete (size (visited_urls st1))
                       (size (downloaded_pdfs st1)) (output_dir st))) st1)
  | (Raised e, st1) => (Raised e, st1)
  | (Diverged, st1) => (Diverged, st1)
  end.
Proof.
  unfold start, bind, gets, print, emit, modify, after. simpl.
  destruct (crawl_page w (base_url st) max_depth 0 _) as [[[] | e |] st1]; reflexivity.
Qed.

(** What [__init__] makes: the fields as given, the two sets empty, and a
    base URL that passes the scope test. *)
Lemma init_spec (base out : string) (fs : gmap string string) (c : Crawler) :
  init w base out fs = Ok c ->
  base_url c = base /\ output_dir c = out /\ visited_urls c = ∅ /\
  downloaded_pdfs c = ∅ /\ files c = fs /\ trace c = [] /\
  scope_check w (domain c) base = Ok true.
Proof.
  unfold init, scope_check. destruct (urlparse w base) as [parsed | e]; [| discriminate].
  intros H. injection H as <-. simpl. now rewrite String.eqb_refl.
Qed.

(** A call of [crawl_page] on a URL that [urlparse] accepts returns. *)
Lemma crawl_page_parsed (url : string) (max_depth current_depth : Z) (st : Crawler)
    (valid : bool) :
  scope_check w (domain st) url = Ok valid ->
  (crawl_page w url max_depth current_depth st).1 = Normal tt.
Proof.
  intros Hscope. rewrite crawl_page_unfold, Hscope.
  destruct ((current_depth >? max_depth) || bool_decide (url ∈ visited_urls st));
    [reflexivity |].
  destruct valid; [| reflexivity].
  destruct (returns_try_except
              (crawl_body w (crawl_page w) url max_depth current_depth)
              (fun e => print (LogErrorCrawling url e))) with
    (st := entered url current_depth st) as [[] Hret].
  - apply crawl_body_terminates. intros u. apply crawl_page_terminates.
  - intros e st'. now exists tt.
  - exact Hret.
Qed.

(** [start] on a crawler as [__init__] makes it: the crawl of the base URL
    between the two reports. *)
Lemma start_after_init (base out : string) (fs : gmap string string) (c : Crawler)
    (max_depth : Z) :
  init w base out fs = Ok c ->
  let st0 := after (print (LogStart base out max_depth)) c in
  let st1 := after (crawl_page w base max_depth 0) st0 in
  start w max_depth c
  = (Normal tt,
     after (print (LogComplete (size (visited_urls st1))
                     (size (downloaded_pdfs st1)) out)) st1).
Proof.
  intros Hinit st0 st1.
  destruct (init_spec _ _ _ _ Hinit) as (Hbase & Hout & _ & _ & _ & _ & Hscope).
  rewrite start_unfold, Hbase, Hout. simpl. fold st0.
  pose proof (crawl_page_parsed base max_depth 0 st0 true Hscope) as Hret.
  unfold st1, after.
  destruct (crawl_page w base max_depth 0 st0) as [[[] | e |] st1'];
    simpl in Hret; try discriminate. reflexivity.
Qed.

End Start.

(** * Further properties of a run *)

Section Runs.

Variable w : World.

(** X6: [start] with a negative [max_depth] crawls nothing: no request, no
    page visited, no file written.  With any other [max_depth] the base URL
    is visited, and it is the first URL requested. *)
Theorem start_crawls_base_url (base out : string) (fs : gmap string string)
    (c : Crawler) (max_depth : Z) :
  init w base out fs = Ok c ->
  let st' := after (start w max_depth) c in
  (max_depth < 0 ->
   visited_urls st' = ∅ /\ downloaded_pdfs st' = ∅ /\ files st' = fs /\
   trace st' = [ EvPrint (LogComplete 0 0 out);
                 EvPrint (LogStart base out max_depth) ]) /\
  (0 <= max_depth ->
   base ∈ visited_urls st' /\
   exists earlier, rev (requests (trace st')) = base :: earlier).
Proof.
  intros Hinit st'. unfold st', after.
  rewrite (start_after_init _ _ _ _ _ _ Hinit).
  destruct (init_spec _ _ _ _ _ Hinit)
    as (_ & _ & Hvisited & Hdownloaded & Hfiles & Htrace & Hscope).
  set (st0 := after (print (LogStart base out max_depth)) c).
  split.
  - intros Hneg. unfold after. rewrite crawl_page_too_deep by lia. simpl.
    rewrite Hvisited, Hdownloaded, Hfiles, Htrace, !size_empty. auto.
  - intros Hpos.
    assert (base ∉ visited_urls st0) as Hnotin.
    { simpl. rewrite Hvisited. apply not_elem_of_empty. }
    unfold after. rewrite (crawl_page_enters w base max_depth 0 st0 Hpos Hnotin Hscope).
    destruct (crawl_body_after_get w base max_depth 0 (entered base 0 st0))
      as [_ _ _ Hsub _ _ [new Hnew]].
    simpl. split.
    + apply Hsub. apply entered_visited.
    + simpl in Hnew. rewrite Hnew, Htrace, requests_app. simpl.
      rewrite rev_app_distr. simpl. eauto.
Qed.

(** X9: in a crawl no page is crawled twice, none that was visited before
    is crawled, and the pages crawled are what [visited_urls] gains. *)
Theorem crawl_page_visits_once (url : string) (max_depth current_depth : Z)
    (st : Crawler) :
  crawls_once st (after (crawl_page w url max_depth current_depth) st).
Proof. apply crawl_page_crawls_once. Qed.

(** X10: a call of [crawl_page] either adds no effect or starts with the
    line [Crawling] of its URL; every other page crawled during the call is
    crawled right after a pause of [time.sleep(0.5)]. *)
Theorem crawl_page_pauses_before_pages (url : string) (max_depth current_depth : Z)
    (st : Crawler) :
  crawls_after_pauses url current_depth st
    (after (crawl_page w url max_depth current_depth) st).
Proof. apply crawl_page_pauses. Qed.

(** X11: every request of a crawl comes right after the line that announces
    it: the line [Crawling] of the URL, which is then in scope, or the line
    [Downloading] of the URL.  No URL out of scope is requested as a page. *)
Theorem crawl_page_requests_announced (url : string) (max_depth current_depth : Z)
    (st : Crawler) :
  requests_announced w st (after (crawl_page w url max_depth current_depth) st).
Proof. apply crawl_page_announced. Qed.

(** X12: a crawl to [max_depth] from [current_depth] crawls no page at a
    depth over [max_depth], nor under [current_depth]. *)
Theorem crawl_page_respects_depth (url : string) (max_depth current_depth : Z)
    (st : Crawler) :
  crawls_within current_depth max_depth st
    (after (crawl_page w url max_depth current_depth) st).
Proof. apply crawl_page_crawls_within. Qed.

(** X13: a page that answers with a PDF content type is handed to
    [download_pdf].  When its URL is in [downloaded_pdfs] already, nothing
    more is done.  When it is not, the URL is requested a second time, by
    [download_pdf]; when it is then saved, the file holds the body of the
    second answer. *)
Theorem pdf_page_is_downloaded (url : string) (max_depth current_depth : Z)
    (st : Crawler) (response : Response) :
  current_depth <= max_depth -> url ∉ visited_urls st ->
  scope_check w (domain st) url = Ok true ->
  http_get w (trace (entered url current_depth st)) url = Ok response ->
  is_pdf_response response = true ->
  let st1 := after (emit (EvGet url)) (entered url current_depth st) in
  let st' := after (crawl_page w url max_depth current_depth) st in
  crawl_page w url max_depth current_depth st = download_pdf w url st1 /\
  (url ∈ downloaded_pdfs st ->
   st' = st1 /\ requests (trace st') = url :: requests (trace st)) /\
  (url ∉ downloaded_pdfs st ->
   requests (trace st') = url :: url :: requests (trace st) /\
   (url ∈ downloaded_pdfs st' ->
    exists second filepath,
      http_get w (EvPrint (LogDownloading url) :: trace st1) url = Ok second /\
      files st !! filepath = None /\
      files st' !! filepath = Some (content second))).
Proof.
  intros Hle Hnotin Hscope Hget Hpdf st1 st'.
  assert (crawl_page w url max_depth current_depth st = download_pdf w url st1) as Heq.
  { rewrite (crawl_page_enters w _ _ _ _ Hle Hnotin Hscope).
    unfold try_except. rewrite crawl_body_unfold, Hget, Hpdf. cbv zeta.
    change (set_trace (EvGet url :: trace (entered url current_depth st))
              (entered url current_depth st)) with st1.
    destruct (download_pdf_spec w url st1) as (st2 & -> & _). reflexivity. }
  split; [exact Heq |]. unfold st', after. rewrite Heq.
  fold (after (download_pdf w url) st1). split.
  - intros Hin. unfold after. rewrite download_pdf_skip by exact Hin. now split.
  - intros Hnew. split; [now rewrite download_pdf_requests |].
    unfold after. destruct (download_pdf_spec w url st1) as (st2 & -> & H). simpl.
    destruct H as [Hin | e _ | second filename r _ Hsecond _ Hsettled].
    + contradiction.
    + intros Hin. contradiction.
    + intros _. exists second, r.2. split; [exact Hsecond |].
      destruct Hsettled as (_ & Hfree & _). simpl.
      split; [now apply not_elem_of_dom | apply lookup_insert_eq].
Qed.
End Runs.

(** On the small site: the seed is visited. *)
Lemma start_crawls_base_url_witness :
  seed ∈ visited_urls (after (start site 3) (fresh ∅)).
Proof.
  exact (proj1 (proj2 (start_crawls_base_url site seed "out" ∅ (fresh ∅) 3 eq_refl)
                  ltac:(lia))).
Defined.

(** On the small site: a crawl that starts at [doc.pdf] requests it twice. *)
Lemma pdf_page_is_downloaded_witness :
  requests (trace (after (crawl_page site "https://site.com/doc.pdf" 3 0) (fresh ∅)))
  = [ "https://site.com/doc.pdf"; "https://site.com/doc.pdf" ].
Proof.
  refine (proj1 (proj2 (proj2 (pdf_page_is_downloaded site "https://site.com/doc.pdf"
                                 3 0 (fresh ∅)
                                 {| content_type := Some "application/pdf";
                                    content := "%PDF doc" |} _ _ _ _ _)) _)).
  - lia.
  - apply not_elem_of_empty.
  - reflexivity.
  - reflexivity.
  - reflexivity.
  - apply not_elem_of_empty.
Defined.

(** * A second run *)

Section Again.

Variable w : World.

(** After [start] to a depth that is not negative, the base URL is
    visited. *)
Lemma start_visits_base (base out : string) (fs : gmap string string) (c : Crawler)
    (max_depth : Z) :
  init w base out fs = Ok c -> 0 <= max_depth ->
  let st1 := after (start w max_depth) c in
  base_url st1 = base /\ output_dir st1 = out /\ base ∈ visited_urls st1.
Proof.
  intros Hinit Hpos st1.
  pose proof (start_after_init w _ _ _ _ max_depth Hinit) as Hstart.
  cbv zeta in Hstart.
  destruct (init_spec _ _ _ _ _ Hinit) as (Hbase & Hout & Hvisited & _ & _ & _ & Hscope).
  set (st0 := after (print (LogStart base out max_depth)) c) in *.
  assert (base ∉ visited_urls st0) as Hnotin.
  { simpl. rewrite Hvisited. apply not_elem_of_empty. }
  pose proof (crawl_page_extends w base max_depth 0 st0) as [Hb _ Ho _ _ _ _].
  pose proof (crawl_body_after_get w base max_depth 0 (entered base 0 st0))
    as [_ _ _ Hsub _ _ _].
  rewrite <- (crawl_page_enters w base max_depth 0 st0 Hpos Hnotin Hscope) in Hsub.
  unfold st1, after. rewrite Hstart. simpl. unfold after.
  split; [rewrite Hb; exact Hbase | split; [rewrite Ho; exact Hout |]].
  apply Hsub. apply entered_visited.
Qed.

(** X18: [start] called again on the same crawler, to whatever depth,
    crawls nothing: the base URL is visited already, so that nothing is
    requested, visited or written; the two reports alone are printed. *)
Theorem start_again_crawls_nothing (base out : string) (fs : gmap string string)
    (c : Crawler) (max_depth max_depth' : Z) :
  init w base out fs = Ok c -> 0 <= max_depth ->
  let st1 := after (start w max_depth) c in
  let st2 := after (start w max_depth') st1 in
  (start w max_depth' st1).1 = Normal tt /\
  visited_urls st2 = visited_urls st1 /\
  downloaded_pdfs st2 = downloaded_pdfs st1 /\
  files st2 = files st1 /\
  trace st2
  = EvPrint (LogComplete (size (visited_urls st1)) (size (downloaded_pdfs st1)) out)
    :: EvPrint (LogStart base out max_depth') :: trace st1.
Proof.
  intros Hinit Hpos st1 st2.
  destruct (start_visits_base _ _ _ _ _ Hinit Hpos) as (Hbase & Hout & Hin).
  fold st1 in Hbase, Hout, Hin.
  assert (start w max_depth' st1
          = (Normal tt,
             after (print (LogComplete (size (visited_urls st1))
                             (size (downloaded_pdfs st1)) out))
               (after (print (LogStart base out max_depth')) st1))) as Heq.
  { rewrite start_unfold, Hbase, Hout. cbv zeta.
    now rewrite crawl_page_visited by exact Hin. }
  unfold st2, after at 1 2 3 4. rewrite Heq. auto.
Qed.

End Again.

(** On the small site: a run to depth 3 after a run to depth 1 requests
    nothing. *)
Lemma start_again_crawls_nothing_witness :
  let st1 := after (start site 1) (fresh ∅) in
  requests (trace (after (start site 3) st1)) = requests (trace st1).
Proof.
  intros st1.
  destruct (start_again_crawls_nothing site seed "out" ∅ (fresh ∅) 1 3 eq_refl)
    as (_ & _ & _ & _ & Ht); [lia |].
  fold st1 in Ht. now rewrite Ht.
Defined.

(** * The crawler when printing and writing can fail *)

Section FineSteps.

Variable w : World.

Lemma fine_print_unfold (l : LogLine) (st : Crawler) :
  Fine.print w l st =
  match stdout w (trace st) l with
  | Ok _ => (Normal tt, set_trace (EvPrint l :: trace st) st)
  | Err e => (Raised e, st)
  end.
Proof.
  unfold Fine.print, bind, gets, lift. simpl.
  destruct (stdout w (trace st) l) as [[] | e]; reflexivity.
Qed.

(** A [print] adds its line, or raises and changes nothing. *)
Lemma fine_print_spec (l : LogLine) (st : Crawler) :
  Fine.print w l st = (Normal tt, set_trace (EvPrint l :: trace st) st)
  \/ exists e, print_error w e /\ Fine.print w l st = (Raised e, st).
Proof.
  rewrite fine_print_unfold. destruct (stdout w (trace st) l) as [[] | e] eqn:Hout.
  - now left.
  - right. exists e. split; [now exists (trace st), l | reflexivity].
Qed.

Lemma fine_write_file_unfold (filepath data : string) (st : Crawler) :
  Fine.write_file w filepath data st =
  match open_wb w filepath with
  | Err e => (Raised e, st)
  | Ok _ =>
      match f_write w filepath data with
      | WriteOk =>
          (Normal tt,
           set_trace (EvWrite filepath data :: trace st)
             (set_files (<[filepath := data]> (files st)) st))
      | WriteFailed e written =>
          (Raised e, set_files (<[filepath := written]> (files st)) st)
      end
  end.
Proof.
  unfold Fine.write_file, bind, lift. simpl.
  destruct (open_wb w filepath) as [[] | e]; [| reflexivity]. simpl.
  destruct (f_write w filepath data); reflexivity.
Qed.

End FineSteps.

Section FineDownload.

Variable w : World.

Lemma download_left_print (pdf_url : string) (st st' : Crawler) (new : list Event)
    (l : LogLine) :
  download_left w pdf_url st st' new ->
  download_left w pdf_url st (set_trace (EvPrint l :: trace st') st')
    (EvPrint l :: new).
Proof.
  intros [Hd Hf Hw | filepath data e written Hfree Hfail Hd Hf Hw
          | filepath data Hnotin Hfree Hok Hd Hf Hw Hin].
  - now apply Left_nothing.
  - now apply (Left_part _ _ _ _ _ filepath data e written).
  - apply (Left_saved _ _ _ _ _ filepath data); try assumption. now right.
Qed.

(** The handler of [download_pdf]: it prints its line or raises what the
    [print] raises, and leaves the rest as it is. *)
Lemma fine_download_handler (pdf_url : string) (st st1 : Crawler) (new : list Event)
    (e : Exn) :
  only_effects st st1 new -> download_left w pdf_url st st1 new ->
  exists o st' new',
    Fine.print w (LogErrorDownloading pdf_url e) st1 = (o, st') /\
    (o = Normal tt \/ exists e', o = Raised e' /\ print_error w e') /\
    only_effects st st' new' /\ download_left w pdf_url st st' new'.
Proof.
  intros (Hb & Hdom & Ho & Hv & Ht) Hleft.
  destruct (fine_print_spec w (LogErrorDownloading pdf_url e) st1)
    as [-> | (e' & He' & ->)].
  - exists (Normal tt), (set_trace (EvPrint (LogErrorDownloading pdf_url e) :: trace st1) st1),
      (EvPrint (LogErrorDownloading pdf_url e) :: new).
    split; [reflexivity |]. split; [now left |]. split.
    + repeat split; try assumption. simpl. now rewrite Ht.
    + now apply download_left_print.
  - exists (Raised e'), st1, new. split; [reflexivity |].
    split; [right; eauto |]. split; [now repeat split | exact Hleft].
Qed.

(** The [try] block of [download_pdf]. *)
Lemma fine_download_body (pdf_url : string) (st : Crawler) :
  pdf_url ∉ downloaded_pdfs st ->
  exists o st1 new,
    (Fine.print w (LogDownloading pdf_url) ;;
     response <- session_get w pdf_url ;;
     filename <- lift (get_pdf_filename w pdf_url) ;;
     r <- resolve_collision filename ;;
     let '(filename, filepath) := r in
     Fine.write_file w filepath (content response) ;;
     modify (fun st => set_downloaded_pdfs ({[pdf_url]} ∪ downloaded_pdfs st) st) ;;
     Fine.print w (LogSaved filename)) st = (o, st1) /\
    o <> Diverged /\
    (forall e, o = Raised e ->
       only_effects st st1 new /\ download_left w pdf_url st st1 new) /\
    (o = Normal tt ->
       only_effects st st1 new /\ download_left w pdf_url st st1 new).
Proof.
  intros Hnotin. unfold bind at 1. rewrite fine_print_unfold.
  destruct (stdout w (trace st) (LogDownloading pdf_url)) as [[] | e].
  2: { exists (Raised e), st, []. split; [reflexivity |]. split; [discriminate |].
       split; [intros _ _ | discriminate].
       split; [now repeat split | now apply Left_nothing]. }
  set (st_a := set_trace (EvPrint (LogDownloading pdf_url) :: trace st) st).
  unfold bind at 1, session_get, bind, gets, emit, modify, lift. simpl.
  set (st_b := set_trace (EvGet pdf_url :: EvPrint (LogDownloading pdf_url) :: trace st)
                 st_a).
  assert (only_effects st st_b [EvGet pdf_url; EvPrint (LogDownloading pdf_url)])
    as Hfail by now repeat split.
  assert (download_left w pdf_url st st_b
            [EvGet pdf_url; EvPrint (LogDownloading pdf_url)]) as Hleft
    by now apply Left_nothing.
  destruct (http_get w _ pdf_url) as [response | e]; simpl.
  2: { exists (Raised e), st_b, [EvGet pdf_url; EvPrint (LogDownloading pdf_url)].
       split; [reflexivity |]. split; [discriminate |].
       split; [intros _ _; now split | discriminate]. }
  destruct (get_pdf_filename w pdf_url) as [filename | e]; simpl.
  2: { exists (Raised e), st_b, [EvGet pdf_url; EvPrint (LogDownloading pdf_url)].
       split; [reflexivity |]. split; [discriminate |].
       split; [intros _ _; now split | discriminate]. }
  unfold resolve_collision, bind, gets. simpl.
  destruct (resolve_terminates (files st) (output_dir st) filename)
    as ([filename' filepath] & -> & _ & Hfree & _).
  simpl in Hfree. apply not_elem_of_dom in Hfree. simpl.
  rewrite fine_write_file_unfold.
  destruct (open_wb w filepath) as [[] | e].
  2: { exists (Raised e), st_b, [EvGet pdf_url; EvPrint (LogDownloading pdf_url)].
       split; [reflexivity |]. split; [discriminate |].
       split; [intros _ _; now split | discriminate]. }
  destruct (f_write w filepath (content response)) as [| e written] eqn:Hwrite.
  2: { exists (Raised e), (set_files (<[filepath := written]> (files st_b)) st_b),
         [EvGet pdf_url; EvPrint (LogDownloading pdf_url)].
       split; [reflexivity |]. split; [discriminate |].
       split; [intros _ _ | discriminate]. split; [now repeat split |].
       now apply (Left_part _ _ _ _ _ filepath (content response) e written). }
  simpl. rewrite fine_print_unfold. simpl.
  set (st_c := set_downloaded_pdfs _ _).
  assert (only_effects st st_c
            [EvWrite filepath (content response); EvGet pdf_url;
             EvPrint (LogDownloading pdf_url)]) as Hc by now repeat split.
  assert (download_left w pdf_url st st_c
            [EvWrite filepath (content response); EvGet pdf_url;
             EvPrint (LogDownloading pdf_url)]) as Hsaved.
  { apply (Left_saved _ _ _ _ _ filepath (content response)); try easy. now left. }
  destruct (stdout w _ (LogSaved filename')) as [[] | e].
  - exists (Normal tt), (set_trace (EvPrint (LogSaved filename') :: trace st_c) st_c),
      [EvPrint (LogSaved filename'); EvWrite filepath (content response);
       EvGet pdf_url; EvPrint (LogDownloading pdf_url)].
    split; [reflexivity |]. split; [discriminate |].
    split; [discriminate | intros _].
    split; [now repeat split |]. now apply download_left_print.
  - exists (Raised e), st_c,
      [EvWrite filepath (content response); EvGet pdf_url;
       EvPrint (LogDownloading pdf_url)].
    split; [reflexivity |]. split; [discriminate |].
    split; [intros _ _; now split | discriminate].
Qed.

(** [download_pdf] ends; it returns, or raises what a [print] raises. *)
Lemma fine_download_pdf_spec (pdf_url : string) (st : Crawler) :
  exists o st' new,
    Fine.download_pdf w pdf_url st = (o, st') /\
    (o = Normal tt \/ exists e, o = Raised e /\ print_error w e) /\
    only_effects st st' new /\ download_left w pdf_url st st' new.
Proof.
  unfold Fine.download_pdf, bind at 1, gets.
  destruct (bool_decide (pdf_url ∈ downloaded_pdfs st)) eqn:Hin.
  { exists (Normal tt), st, []. split; [reflexivity |]. split; [now left |].
    split; [now repeat split | now apply Left_nothing]. }
  apply bool_decide_eq_false in Hin. unfold try_except.
  destruct (fine_download_body pdf_url st Hin)
    as (o & st1 & new & -> & Hend & Hraised & Hnormal).
  destruct o as [[] | e |]; [| | congruence].
  - destruct (Hnormal eq_refl) as [Heff Hleft].
    exists (Normal tt), st1, new. split; [reflexivity |]. split; [now left |]. now split.
  - destruct (Hraised e eq_refl) as [Heff Hleft].
    exact (fine_download_handler pdf_url st st1 new e Heff Hleft).
Qed.

End FineDownload.

Section FineEnds.

Variable w : World.

Lemma fine_print_terminates (l : LogLine) : terminates (Fine.print w l).
Proof.
  intros st. destruct (fine_print_spec w l st) as [-> | (e & _ & ->)]; discriminate.
Qed.

Lemma fine_download_pdf_terminates (pdf_url : string) :
  terminates (Fine.download_pdf w pdf_url).
Proof.
  intros st. destruct (fine_download_pdf_spec w pdf_url st)
    as (o & st' & new & -> & [-> | (e & -> & _)] & _); discriminate.
Qed.

Lemma fine_process_link_terminates (crawl : string -> Z -> Z -> M unit)
    (url : string) (max_depth current_depth : Z) (href : string) :
  (forall u, terminates (crawl u max_depth (current_depth + 1))) ->
  terminates (Fine.process_link w crawl url max_depth current_depth href).
Proof.
  intros Hcrawl. unfold Fine.process_link.
  apply terminates_bind; [apply terminates_lift | intros full_url].
  destruct (is_pdf_link href); [apply fine_download_pdf_terminates |].
  apply terminates_bind; [apply is_valid_url_terminates | intros valid].
  apply terminates_bind; [apply terminates_gets | intros visited].
  destruct (valid && negb (bool_decide (full_url ∈ visited))).
  - apply terminates_bind; [apply terminates_modify | intros _]. apply Hcrawl.
  - apply terminates_ret.
Qed.

Lemma fine_crawl_body_terminates (crawl : string -> Z -> Z -> M unit)
    (url : string) (max_depth current_depth : Z) :
  (forall u, terminates (crawl u max_depth (current_depth + 1))) ->
  terminates (Fine.crawl_body w crawl url max_depth current_depth).
Proof.
  intros Hcrawl. unfold Fine.crawl_body.
  apply terminates_bind; [apply session_get_terminates | intros response].
  destruct (is_pdf_response response); [apply fine_download_pdf_terminates |].
  apply terminates_bind; [apply terminates_lift | intros links].
  apply terminates_for_each. intros href _.
  now apply fine_process_link_terminates.
Qed.

Lemma fine_crawl_page_fuel_unfold (fuel : nat) (url : string)
    (max_depth current_depth : Z) (st : Crawler) :
  Fine.crawl_page_fuel w fuel url max_depth current_depth st =
  if (current_depth >? max_depth) || bool_decide (url ∈ visited_urls st)
  then (Normal tt, st)
  else
    match scope_check w (domain st) url with
    | Err e => (Raised e, st)
    | Ok false => (Normal tt, st)
    | Ok true =>
        match fuel with
        | O => (Diverged, st)
        | S fuel' =>
            (Fine.print w (LogCrawling current_depth url) ;;
             try_except
               (Fine.crawl_body w (Fine.crawl_page_fuel w fuel') url max_depth
                  current_depth)
               (fun e => Fine.print w (LogErrorCrawling url e)))
              (set_visited_urls ({[url]} ∪ visited_urls st) st)
        end
    end.
Proof.
  destruct fuel as [|fuel']; simpl; unfold bind at 1, gets at 1;
    (destruct ((current_depth >? max_depth) || bool_decide (url ∈ visited_urls st));
     [reflexivity |]);
    unfold bind at 1; rewrite is_valid_url_unfold;
    destruct (scope_check w (domain st) url) as [[|] | e]; reflexivity.
Qed.

Lemma fine_crawl_page_fuel_terminates (fuel : nat) :
  forall (url : string) (max_depth current_depth : Z),
  (Z.to_nat (max_depth - current_depth + 1) <= fuel)%nat ->
  terminates (Fine.crawl_page_fuel w fuel url max_depth current_depth).
Proof.
  induction fuel as [|fuel IH]; intros url max_depth current_depth Hfuel st;
    rewrite fine_crawl_page_fuel_unfold;
    destruct (current_depth >? max_depth) eqn:Hdepth; simpl; try discriminate;
    destruct (bool_decide (url ∈ visited_urls st)); try discriminate;
    destruct (scope_check w (domain st) url) as [[|] | e]; try discriminate.
  - rewrite Z.gtb_ltb, Z.ltb_ge in Hdepth. lia.
  - rewrite Z.gtb_ltb, Z.ltb_ge in Hdepth.
    apply terminates_bind; [apply fine_print_terminates | intros _].
    apply terminates_try_except.
    + apply fine_crawl_body_terminates. intros u. apply IH. lia.
    + intros e. apply fine_print_terminates.
Qed.

Lemma fine_crawl_page_terminates (url : string) (max_depth current_depth : Z) :
  terminates (Fine.crawl_page w url max_depth current_depth).
Proof. apply fine_crawl_page_fuel_terminates. reflexivity. Qed.

(** *** What gets out *)

Lemma print_raises_print_errors (l : LogLine) : raises_print_errors w (Fine.print w l).
Proof.
  intros st. destruct (fine_print_spec w l st) as [-> | (e & He & ->)];
    [exact I | exact He].
Qed.

Lemma bind_raises_print_errors {A B} (m : M A) (k : A -> M B) :
  raises_print_errors w m -> (forall a, raises_print_errors w (k a)) ->
  raises_print_errors w (bind m k).
Proof.
  intros Hm Hk st. unfold bind. specialize (Hm st).
  destruct (m st) as [[a | e |] st']; simpl in *; [apply Hk | exact Hm | exact Hm].
Qed.

Lemma gets_raises_print_errors {A} (f : Crawler -> A) : raises_print_errors w (gets f).
Proof. intros st. exact I. Qed.

(** A [try] whose body ends lets out what its handler lets out. *)
Lemma try_except_raises_print_errors (m : M unit) (h : Exn -> M unit) :
  terminates m -> (forall e, raises_print_errors w (h e)) ->
  raises_print_errors w (try_except m h).
Proof.
  intros Hm Hh st. unfold try_except. specialize (Hm st).
  destruct (m st) as [[[] | e |] st']; simpl in *; [exact I | apply Hh | congruence].
Qed.

(** A call of [crawl_page] that passes its guards, from the line it
    prints. *)
Lemma crawl_page_entered_raises_print_errors (fuel : nat) (url : string)
    (max_depth current_depth : Z) :
  (Z.to_nat (max_depth - (current_depth + 1) + 1) <= fuel)%nat ->
  raises_print_errors w
    (Fine.print w (LogCrawling current_depth url) ;;
     try_except
       (Fine.crawl_body w (Fine.crawl_page_fuel w fuel) url max_depth current_depth)
       (fun e => Fine.print w (LogErrorCrawling url e))).
Proof.
  intros Hfuel.
  apply bind_raises_print_errors; [apply print_raises_print_errors | intros _].
  apply try_except_raises_print_errors.
  - apply fine_crawl_body_terminates. intros u.
    now apply fine_crawl_page_fuel_terminates.
  - intros e. apply print_raises_print_errors.
Qed.

(** How a call of [crawl_page] ends. *)
Lemma fine_crawl_page_ends (url : string) (max_depth current_depth : Z) (st : Crawler) :
  (Fine.crawl_page w url max_depth current_depth st).1 = Normal tt
  \/ (exists e, urlparse w url = Err e /\
                Fine.crawl_page w url max_depth current_depth st = (Raised e, st))
  \/ (exists e, print_error w e /\
                (Fine.crawl_page w url max_depth current_depth st).1 = Raised e).
Proof.
  unfold Fine.crawl_page. rewrite fine_crawl_page_fuel_unfold.
  destruct (current_depth >? max_depth) eqn:Hdepth; [now left |].
  rewrite Z.gtb_ltb, Z.ltb_ge in Hdepth. simpl.
  destruct (bool_decide (url ∈ visited_urls st)); [now left |].
  unfold scope_check. destruct (urlparse w url) as [parsed | e]; [| right; left; eauto].
  destruct (String.eqb (netloc parsed) (domain st) || String.eqb (netloc parsed) "");
    [| now left].
  replace (Z.to_nat (max_depth - current_depth + 1))
    with (S (Z.to_nat (max_depth - (current_depth + 1) + 1))) by lia.
  pose proof (crawl_page_entered_raises_print_errors
                (Z.to_nat (max_depth - (current_depth + 1) + 1)) url max_depth
                current_depth (le_n _)
                (set_visited_urls ({[url]} ∪ visited_urls st) st)) as H.
  destruct ((Fine.print w (LogCrawling current_depth url) ;; _) _) as [[[] | e |] st'];
    simpl in *; [now left | right; right; eauto | contradiction].
Qed.

End FineEnds.

(** ** Invariants of a crawl that can fail to print or to write *)

Section FineInvariant.

Variable w : World.
Variable R : relation Crawler.
Context `{!PreOrder R}.

Hypothesis R_print : forall l, keeps R (Fine.print w l).
Hypothesis R_get : forall url, keeps R (emit (EvGet url)).
Hypothesis R_sleep : keeps R sleep.
Hypothesis R_visit : forall url,
  keeps R (modify (fun st => set_visited_urls ({[url]} ∪ visited_urls st) st)).
Hypothesis R_download : forall pdf_url, keeps R (Fine.download_pdf w pdf_url).

Lemma fine_process_link_keeps (crawl : string -> Z -> Z -> M unit)
    (url : string) (max_depth current_depth : Z) (href : string) :
  (forall u, keeps R (crawl u max_depth (current_depth + 1))) ->
  keeps R (Fine.process_link w crawl url max_depth current_depth href).
Proof.
  intros Hcrawl. unfold Fine.process_link.
  apply keeps_bind; [apply _ | apply keeps_lift; apply _ | intros full_url].
  destruct (is_pdf_link href); [apply R_download |].
  apply keeps_bind; [apply _ | apply is_valid_url_keeps; apply _ | intros valid].
  apply keeps_bind; [apply _ | apply keeps_gets; apply _ | intros visited].
  destruct (valid && negb (bool_decide (full_url ∈ visited))).
  - apply keeps_bind; [apply _ | apply R_sleep | intros _]. apply Hcrawl.
  - apply keeps_ret; apply _.
Qed.

Lemma fine_crawl_body_keeps (crawl : string -> Z -> Z -> M unit)
    (url : string) (max_depth current_depth : Z) :
  (forall u, keeps R (crawl u max_depth (current_depth + 1))) ->
  keeps R (Fine.crawl_body w crawl url max_depth current_depth).
Proof.
  intros Hcrawl. unfold Fine.crawl_body.
  apply keeps_bind; [apply _ | | intros response].
  { unfold session_get.
    apply keeps_bind; [apply _ | apply keeps_gets; apply _ | intros before].
    apply keeps_bind; [apply _ | apply R_get | intros _].
    apply keeps_lift; apply _. }
  destruct (is_pdf_response response); [apply R_download |].
  apply keeps_bind; [apply _ | apply keeps_lift; apply _ | intros links].
  apply keeps_for_each; [apply _ |]. intros href _.
  now apply fine_process_link_keeps.
Qed.

Lemma fine_crawl_page_fuel_keeps (fuel : nat) :
  forall (url : string) (max_depth current_depth : Z),
  keeps R (Fine.crawl_page_fuel w fuel url max_depth current_depth).
Proof.
  induction fuel as [|fuel IH]; intros url max_depth current_depth; simpl;
    (apply keeps_bind; [apply _ | apply keeps_gets; apply _ | intros visited]);
    (destruct ((current_depth >? max_depth) || bool_decide (url ∈ visited));
     [apply keeps_ret; apply _ |]);
    (apply keeps_bind; [apply _ | apply is_valid_url_keeps; apply _ | intros valid]);
    (destruct (negb valid); [apply keeps_ret; apply _ |]).
  - intros st. simpl. reflexivity.
  - apply keeps_bind; [apply _ | apply R_visit | intros _].
    apply keeps_bind; [apply _ | apply R_print | intros _].
    apply keeps_try_except; [apply _ | | intros e; apply R_print].
    apply fine_crawl_body_keeps. intros u. apply IH.
Qed.

Lemma fine_crawl_page_keeps (url : string) (max_depth current_depth : Z) :
  keeps R (Fine.crawl_page w url max_depth current_depth).
Proof. apply fine_crawl_page_fuel_keeps. Qed.

End FineInvariant.

Section FineGrows.

Variable w : World.

Lemma fine_print_extends (l : LogLine) : keeps extends (Fine.print w l).
Proof.
  intros st. destruct (fine_print_spec w l st) as [-> | (e & _ & ->)]; simpl.
  - apply (extends_emit (EvPrint l)).
  - reflexivity.
Qed.

Lemma fine_download_pdf_extends (pdf_url : string) :
  keeps extends (Fine.download_pdf w pdf_url).
Proof.
  intros st. destruct (fine_download_pdf_spec w pdf_url st)
    as (o & st' & new & -> & _ & (Hb & Hd & Ho & Hv & Ht) & Hleft). simpl.
  assert (downloaded_pdfs st ⊆ downloaded_pdfs st' /\ files st ⊆ files st')
    as [Hdown Hfiles].
  { destruct Hleft as [Hdl Hf _ | filepath data e written Hfree _ Hdl Hf _
                       | filepath data _ Hfree _ Hdl Hf _ _]; rewrite Hdl, Hf.
    - split; reflexivity.
    - split; [reflexivity | now apply insert_subseteq].
    - split; [apply union_subseteq_r | now apply insert_subseteq]. }
  split; try assumption; [now rewrite Hv | now exists new].
Qed.

Lemma fine_crawl_page_extends (url : string) (max_depth current_depth : Z) :
  keeps extends (Fine.crawl_page w url max_depth current_depth).
Proof.
  apply fine_crawl_page_keeps.
  - apply _.
  - apply fine_print_extends.
  - intros u. apply extends_emit.
  - apply extends_emit.
  - intros u st. simpl. split; try reflexivity; simpl;
      [apply union_subseteq_r | now exists []].
  - apply fine_download_pdf_extends.
Qed.

End FineGrows.

Section FineSaves.

Variable w : World.

Global Instance saves_preorder : PreOrder (saves w).
Proof.
  split.
  - intros st. split; [reflexivity |]. exists []. simpl.
    split; [reflexivity |]. split; [constructor |].
    split; [intros p Hp; now apply elem_of_nil in Hp |].
    split; [intros p data Hp; now apply elem_of_nil in Hp |].
    split; [lia | intros _; now rewrite (left_id_L ∅ (∪))].
  - intros st1 st2 st3 (Hf12 & n1 & Ht1 & Hnd1 & Hfree1 & Hheld1 & Hsz1 & Hdom1)
      (Hf23 & n2 & Ht2 & Hnd2 & Hfree2 & Hheld2 & Hsz2 & Hdom2).
    assert (forall p, p ∈ writes n1 -> p ∈ dom (files st2)) as Hin1.
    { intros p Hp. apply elem_of_writes in Hp as [data Hp].
      apply elem_of_dom. rewrite (Hheld1 p data Hp). eauto. }
    split; [now transitivity (files st2) |]. exists (n2 ++ n1).
    split; [now rewrite Ht2, Ht1, app_assoc |]. rewrite writes_app.
    split; [| split; [| split; [| split]]].
    + apply NoDup_app. split; [exact Hnd2 |]. split; [| exact Hnd1].
      intros p Hp2 Hp1. apply (Hfree2 p Hp2). now apply Hin1.
    + intros p Hp. apply elem_of_app in Hp as [Hp | Hp]; [| now apply Hfree1].
      intros Hin. apply (Hfree2 p Hp).
      apply (subseteq_dom _ _ Hf12). exact Hin.
    + intros p data Hp. apply elem_of_app in Hp as [Hp | Hp]; [now apply Hheld2 |].
      apply (lookup_weaken (files st2)); [now apply Hheld1 | exact Hf23].
    + rewrite Hsz2, Hsz1, length_app. lia.
    + intros Hw. now rewrite (Hdom2 Hw), (Hdom1 Hw), list_to_set_app_L, (assoc_L (∪)).
Qed.

(** Effects with one write have one event of it. *)
Lemma writes_single (new : list Event) (p d d' : string) :
  writes new = [p] -> EvWrite p d ∈ new -> EvWrite p d' ∈ new -> d = d'.
Proof.
  induction new as [|ev new IH]; intros Hw Hd Hd'; [now apply elem_of_nil in Hd |].
  assert (forall q x, writes new = [] -> EvWrite q x ∈ new -> False) as Hnone.
  { intros q x Hnil Hin. assert (q ∈ writes new) as Hq by (apply elem_of_writes; eauto).
    rewrite Hnil in Hq. now apply elem_of_nil in Hq. }
  apply elem_of_cons in Hd as [Hd | Hd], Hd' as [Hd' | Hd'].
  - congruence.
  - subst ev. simpl in Hw. injection Hw as Hw. now destruct (Hnone p d' Hw Hd').
  - subst ev. simpl in Hw. injection Hw as Hw. now destruct (Hnone p d Hw Hd).
  - destruct ev as [l | u | | q x]; simpl in Hw; try now apply IH.
    injection Hw as _ Hw. now destruct (Hnone p d Hw Hd).
Qed.

(** What writes nothing in full and records nothing keeps the relation,
    also when it leaves a file more. *)
Lemma saves_quiet (st st' : Crawler) (new : list Event) :
  trace st' = new ++ trace st -> writes new = [] ->
  files st ⊆ files st' -> (writes_through w -> files st' = files st) ->
  downloaded_pdfs st' = downloaded_pdfs st ->
  saves w st st'.
Proof.
  intros Ht Hw Hf Hsame Hd. split; [exact Hf |]. exists new.
  split; [exact Ht |]. rewrite Hw. split; [constructor |].
  split; [intros p Hp; now apply elem_of_nil in Hp |].
  split.
  { intros p data Hp. assert (p ∈ writes new) as Hin by (apply elem_of_writes; eauto).
    rewrite Hw in Hin. now apply elem_of_nil in Hin. }
  split; [rewrite Hd; simpl; lia |].
  intros Hthrough. simpl. now rewrite (Hsame Hthrough), (left_id_L ∅ (∪)).
Qed.

Lemma saves_emit (ev : Event) :
  (forall p data, ev <> EvWrite p data) -> keeps (saves w) (emit ev).
Proof.
  intros Hev st. apply (saves_quiet _ _ [ev]); try reflexivity.
  destruct ev; try reflexivity. now destruct (Hev filepath data).
Qed.

Lemma fine_print_saves (l : LogLine) : keeps (saves w) (Fine.print w l).
Proof.
  intros st. destruct (fine_print_spec w l st) as [-> | (e & _ & ->)]; simpl.
  - apply (saves_emit (EvPrint l)). discriminate.
  - reflexivity.
Qed.

Lemma fine_download_pdf_saves (pdf_url : string) :
  keeps (saves w) (Fine.download_pdf w pdf_url).
Proof.
  intros st. destruct (fine_download_pdf_spec w pdf_url st)
    as (o & st' & new & -> & _ & (_ & _ & _ & _ & Ht) & Hleft). simpl.
  destruct Hleft as [Hd Hf Hw | filepath data e written Hfree Hfail Hd Hf Hw
                     | filepath data Hnotin Hfree Hok Hd Hf Hw Hin].
  - apply (saves_quiet _ _ new); try assumption; [now rewrite Hf | auto].
  - apply (saves_quiet _ _ new); try assumption.
    + rewrite Hf. now apply insert_subseteq.
    + intros Hthrough. rewrite (Hthrough filepath data) in Hfail. discriminate.
  - split; [rewrite Hf; now apply insert_subseteq |]. exists new.
    split; [exact Ht |]. rewrite Hw. split; [apply NoDup_singleton |].
    split; [intros p Hp; apply list_elem_of_singleton in Hp as ->;
            now apply not_elem_of_dom |].
    split.
    { intros p data' Hp.
      assert (p ∈ writes new) as Hp' by (apply elem_of_writes; eauto).
      rewrite Hw in Hp'. apply list_elem_of_singleton in Hp' as ->.
      rewrite (writes_single new filepath data' data Hw Hp Hin), Hf.
      apply lookup_insert_eq. }
    split.
    { rewrite Hd, size_union by (now apply disjoint_singleton_l).
      rewrite size_singleton. simpl. lia. }
    intros _. rewrite Hf, dom_insert_L. simpl. now rewrite (right_id_L ∅ (∪)).
Qed.

Lemma fine_crawl_page_saves (url : string) (max_depth current_depth : Z) :
  keeps (saves w) (Fine.crawl_page w url max_depth current_depth).
Proof.
  apply fine_crawl_page_keeps.
  - apply _.
  - apply fine_print_saves.
  - intros u. apply saves_emit. discriminate.
  - apply saves_emit. discriminate.
  - intros u st. now apply (saves_quiet _ _ []).
  - apply fine_download_pdf_saves.
Qed.

End FineSaves.

Section FineStart.

Variable w : World.

Lemma fine_start_unfold (max_depth : Z) (st : Crawler) :
  Fine.start w max_depth st =
  match stdout w (trace st) (LogStart (base_url st) (output_dir st) max_depth) with
  | Err e => (Raised e, st)
  | Ok _ =>
      let st0 :=
        after (print (LogStart (base_url st) (output_dir st) max_depth)) st in
      match Fine.crawl_page w (base_url st) max_depth 0 st0 with
      | (Normal _, st1) =>
          Fine.print w (LogComplete (size (visited_urls st1))
                          (size (downloaded_pdfs st1)) (output_dir st)) st1
      | (Raised e, st1) => (Raised e, st1)
      | (Diverged, st1) => (Diverged, st1)
      end
  end.
Proof.
  unfold Fine.start, bind at 1 2, gets. simpl. unfold bind at 1.
  rewrite fine_print_unfold.
  destruct (stdout w (trace st) _) as [[] | e]; [| reflexivity].
  unfold bind at 1, after. simpl.
  destruct (Fine.crawl_page w (base_url st) max_depth 0 _) as [[[] | e |] st1];
    reflexivity.
Qed.

(** How [start] ends on a crawler as [__init__] makes it. *)
Lemma fine_start_ends (base out : string) (fs : gmap string string) (c : Crawler)
    (max_depth : Z) :
  init w base out fs = Ok c ->
  (Fine.start w max_depth c).1 = Normal tt
  \/ exists e, print_error w e /\ (Fine.start w max_depth c).1 = Raised e.
Proof.
  intros Hinit.
  destruct (init_spec _ _ _ _ _ Hinit) as (Hbase & Hout & _ & _ & _ & _ & Hscope).
  rewrite fine_start_unfold, Hbase, Hout.
  destruct (stdout w (trace c) _) as [[] | e] eqn:Hstart;
    [| right; exists e; split; [now exists (trace c), (LogStart base out max_depth)
                               | reflexivity]].
  cbv zeta. set (st0 := after (print (LogStart base out max_depth)) c).
  destruct (fine_crawl_page_ends w base max_depth 0 st0)
    as [Hret | [(e & He & _) | (e & He & Hraised)]].
  - destruct (Fine.crawl_page w base max_depth 0 st0) as [[[] | e |] st1];
      simpl in Hret; try discriminate.
    destruct (fine_print_spec w (LogComplete (size (visited_urls st1))
                                   (size (downloaded_pdfs st1)) out) st1)
      as [-> | (e & He & ->)]; [now left | right; eauto].
  - unfold scope_check in Hscope. now rewrite He in Hscope.
  - destruct (Fine.crawl_page w base max_depth 0 st0) as [[[] | e' |] st1];
      simpl in Hraised; try discriminate.
    injection Hraised as ->. right. eauto.
Qed.

(** A run of [start] that returns: the crawl of the base URL between the
    two reports. *)
Lemma fine_start_returned (base out : string) (fs : gmap string string) (c : Crawler)
    (max_depth : Z) (st' : Crawler) :
  init w base out fs = Ok c ->
  Fine.start w max_depth c = (Normal tt, st') ->
  let st0 := after (print (LogStart base out max_depth)) c in
  let st1 := after (Fine.crawl_page w base max_depth 0) st0 in
  st' = after (print (LogComplete (size (visited_urls st1))
                        (size (downloaded_pdfs st1)) out)) st1.
Proof.
  intros Hinit Hstart st0 st1.
  destruct (init_spec _ _ _ _ _ Hinit) as (Hbase & Hout & _).
  rewrite fine_start_unfold, Hbase, Hout in Hstart.
  destruct (stdout w (trace c) _) as [[] | e]; [| discriminate].
  cbv zeta in Hstart. fold st0 in Hstart. subst st1. unfold after.
  destruct (Fine.crawl_page w base max_depth 0 st0) as [[[] | e |] st2];
    try discriminate.
  rewrite fine_print_unfold in Hstart. simpl.
  destruct (stdout w (trace st2) _) as [[] | e]; [| discriminate].
  now injection Hstart as <-.
Qed.

End FineStart.

(** ** With a standard output and writes that do not fail *)

Section Reliable.

Variable w : World.
Hypothesis Hprints : prints w.
Hypothesis Hwrites : writes_through w.

Lemma bind_cong {A B} (m1 m2 : M A) (k1 k2 : A -> M B) (st : Crawler) :
  m1 st = m2 st -> (forall a st', k1 a st' = k2 a st') ->
  bind m1 k1 st = bind m2 k2 st.
Proof.
  intros Hm Hk. unfold bind. rewrite Hm.
  destruct (m2 st) as [[a | e |] st']; [apply Hk | |]; reflexivity.
Qed.

Lemma try_except_cong (m1 m2 : M unit) (h1 h2 : Exn -> M unit) (st : Crawler) :
  m1 st = m2 st -> (forall e st', h1 e st' = h2 e st') ->
  try_except m1 h1 st = try_except m2 h2 st.
Proof.
  intros Hm Hh. unfold try_except. rewrite Hm.
  destruct (m2 st) as [[[] | e |] st']; [| apply Hh |]; reflexivity.
Qed.

Lemma fine_print_reliable (l : LogLine) (st : Crawler) :
  Fine.print w l st = print l st.
Proof. now rewrite fine_print_unfold, Hprints. Qed.

Lemma fine_write_file_reliable (filepath data : string) (st : Crawler) :
  Fine.write_file w filepath data st = write_file w filepath data st.
Proof.
  rewrite fine_write_file_unfold, Hwrites.
  unfold write_file, bind, lift, modify, emit, modify.
  destruct (open_wb w filepath) as [[] | e]; reflexivity.
Qed.

Lemma fine_download_pdf_reliable (pdf_url : string) (st : Crawler) :
  Fine.download_pdf w pdf_url st = download_pdf w pdf_url st.
Proof.
  unfold Fine.download_pdf, download_pdf. apply bind_ext. intros downloaded st1.
  destruct (bool_decide (pdf_url ∈ downloaded)); [reflexivity |].
  apply try_except_cong; [| intros e st2; apply fine_print_reliable].
  apply bind_cong; [apply fine_print_reliable | intros _ st2].
  apply bind_ext. intros response st3. apply bind_ext. intros filename st4.
  apply bind_ext. intros [filename' filepath] st5.
  apply bind_cong; [apply fine_write_file_reliable | intros _ st6].
  apply bind_ext. intros _ st7. apply fine_print_reliable.
Qed.

Lemma fine_process_link_reliable (crawl1 crawl2 : string -> Z -> Z -> M unit)
    (url : string) (max_depth current_depth : Z) (href : string) (st : Crawler) :
  (forall u st', crawl1 u max_depth (current_depth + 1) st'
                 = crawl2 u max_depth (current_depth + 1) st') ->
  Fine.process_link w crawl1 url max_depth current_depth href st
  = process_link w crawl2 url max_depth current_depth href st.
Proof.
  intros H. unfold Fine.process_link, process_link. apply bind_ext. intros full_url st1.
  destruct (is_pdf_link href); [apply fine_download_pdf_reliable |].
  apply bind_ext. intros valid st2. apply bind_ext. intros visited st3.
  destruct (valid && negb (bool_decide (full_url ∈ visited))); [| reflexivity].
  apply bind_ext. intros _ st4. apply H.
Qed.

Lemma fine_crawl_body_reliable (crawl1 crawl2 : string -> Z -> Z -> M unit)
    (url : string) (max_depth current_depth : Z) (st : Crawler) :
  (forall u st', crawl1 u max_depth (current_depth + 1) st'
                 = crawl2 u max_depth (current_depth + 1) st') ->
  Fine.crawl_body w crawl1 url max_depth current_depth st
  = crawl_body w crawl2 url max_depth current_depth st.
Proof.
  intros H. unfold Fine.crawl_body, crawl_body. apply bind_ext. intros response st1.
  destruct (is_pdf_response response); [apply fine_download_pdf_reliable |].
  apply bind_ext. intros links st2. apply for_each_ext. intros href st3.
  now apply fine_process_link_reliable.
Qed.

Lemma fine_crawl_page_fuel_reliable (fuel : nat) :
  forall (url : string) (max_depth current_depth : Z) (st : Crawler),
  Fine.crawl_page_fuel w fuel url max_depth current_depth st
  = crawl_page_fuel w fuel url max_depth current_depth st.
Proof.
  induction fuel as [|fuel IH]; intros url max_depth current_depth st; simpl;
    apply bind_ext; intros visited st1;
    (destruct ((current_depth >? max_depth) || bool_decide (url ∈ visited));
     [reflexivity |]);
    apply bind_ext; intros valid st2; (destruct (negb valid); [reflexivity |]);
    [reflexivity |].
  apply bind_ext. intros _ st3.
  apply bind_cong; [apply fine_print_reliable | intros _ st4].
  apply try_except_cong; [| intros e st5; apply fine_print_reliable].
  apply fine_crawl_body_reliable. intros u st5. apply IH.
Qed.

(** On such a world the crawler is the one of the first part. *)
Lemma fine_crawl_page_reliable (url : string) (max_depth current_depth : Z)
    (st : Crawler) :
  Fine.crawl_page w url max_depth current_depth st
  = crawl_page w url max_depth current_depth st.
Proof. apply fine_crawl_page_fuel_reliable. Qed.

Lemma fine_start_reliable (max_depth : Z) (st : Crawler) :
  Fine.start w max_depth st = start w max_depth st.
Proof.
  unfold Fine.start, start. apply bind_ext. intros base st1.
  apply bind_ext. intros out st2.
  apply bind_cong; [apply fine_print_reliable | intros _ st3].
  apply bind_cong; [apply fine_crawl_page_reliable | intros _ st4].
  apply bind_ext. intros pages st5. apply bind_ext. intros pdfs st6.
  apply fine_print_reliable.
Qed.

End Reliable.

(** * How calls end, and what they leave, when printing and writing can fail *)

Section FineRuns.

Variable w : World.

(** X2: a call of [crawl_page] ends, also when [print] or a write can
    fail.  It returns; or it raises the error of [urlparse] on its own URL,
    at the scope test, which is outside the [try] block, and has then done
    nothing; or it raises what a [print] has raised, the line [Crawling]
    and the handler of the [try] block being printed outside of it.
    Whatever else fails inside (a fetch, the parse of a page, the
    resolution of a link, a write) stays inside.  On a standard output
    that takes every line, the third case is out. *)
Theorem crawl_page_ends (url : string) (max_depth current_depth : Z) (st : Crawler) :
  let r := Fine.crawl_page w url max_depth current_depth st in
  (r.1 = Normal tt
   \/ (exists e, urlparse w url = Err e /\ r = (Raised e, st))
   \/ (exists e, print_error w e /\ r.1 = Raised e)) /\
  (prints w ->
   r.1 = Normal tt \/ exists e, urlparse w url = Err e /\ r = (Raised e, st)).
Proof.
  intros r. pose proof (fine_crawl_page_ends w url max_depth current_depth st) as H.
  split; [exact H |]. intros Hprints.
  destruct H as [H | [H | (e & (before & l & He) & _)]]; [now left | now right |].
  rewrite Hprints in He. discriminate.
Qed.

(** X5: on a crawler as [__init__] makes it, [start] ends: it returns, or
    raises what a [print] has raised, and nothing else.  On a standard
    output that takes every line it returns; the first line printed is then
    the start report and the last one the end report, with the sizes of the
    two sets at that time. *)
Theorem start_ends (base out : string) (fs : gmap string string) (c : Crawler)
    (max_depth : Z) :
  init w base out fs = Ok c ->
  let r := Fine.start w max_depth c in
  (r.1 = Normal tt \/ exists e, print_error w e /\ r.1 = Raised e) /\
  (prints w ->
   exists st' new,
     r = (Normal tt, st') /\
     trace st'
     = EvPrint (LogComplete (size (visited_urls st')) (size (downloaded_pdfs st')) out)
       :: new ++ [EvPrint (LogStart base out max_depth)]).
Proof.
  intros Hinit r. pose proof (fine_start_ends w _ _ _ _ max_depth Hinit) as H.
  split; [exact H |]. intros Hprints.
  destruct H as [H | (e & (before & l & He) & _)];
    [| rewrite Hprints in He; discriminate].
  fold r in H. destruct r as [o st'] eqn:Hr. simpl in H. subst o.
  pose proof (fine_start_returned w _ _ _ _ _ _ Hinit Hr) as Hst'.
  cbv zeta in Hst'.
  destruct (init_spec _ _ _ _ _ Hinit) as (_ & _ & _ & _ & _ & Htrace & _).
  set (st0 := after (print (LogStart base out max_depth)) c) in *.
  destruct (fine_crawl_page_extends w base max_depth 0 st0) as [_ _ _ _ _ _ [new Hnew]].
  fold (after (Fine.crawl_page w base max_depth 0) st0) in Hnew.
  set (st1 := after (Fine.crawl_page w base max_depth 0) st0) in *.
  exists st', new. split; [reflexivity |].
  rewrite Hst'. simpl. rewrite Hnew. simpl. now rewrite Htrace.
Qed.

(** X7: when [start] returns, on a crawler as [__init__] makes it, the
    total of PDFs of the end report is exact: it is the number of files
    written in full during the run, each at a path of its own where no file
    was, and each holding at the end what was written.  The files that were
    there are unchanged, and the directory has gained at least that many
    files: exactly that many when no write fails, a write that fails
    leaving a file that is not counted. *)
Theorem start_report_counts (base out : string) (fs : gmap string string)
    (c : Crawler) (max_depth : Z) (st' : Crawler) :
  init w base out fs = Ok c ->
  Fine.start w max_depth c = (Normal tt, st') ->
  exists run,
    trace st'
    = EvPrint (LogComplete (size (visited_urls st')) (length (writes run)) out) :: run /\
    NoDup (writes run) /\
    (forall p, p ∈ writes run -> p ∉ dom fs) /\
    (forall p data, EvWrite p data ∈ run -> files st' !! p = Some data) /\
    fs ⊆ files st' /\
    (size fs + length (writes run) <= size (files st'))%nat /\
    (writes_through w ->
     dom (files st') = dom fs ∪ list_to_set (writes run) /\
     size (files st') = (size fs + length (writes run))%nat).
Proof.
  intros Hinit Hstart.
  pose proof (fine_start_returned w _ _ _ _ _ _ Hinit Hstart) as Hst'.
  cbv zeta in Hst'.
  destruct (init_spec _ _ _ _ _ Hinit)
    as (_ & _ & _ & Hdownloaded & Hfiles & Htrace & _).
  set (st0 := after (print (LogStart base out max_depth)) c) in *.
  destruct (fine_crawl_page_saves w base max_depth 0 st0)
    as (Hsub & new & Hnew & Hnd & Hfree & Hheld & Hsize & Hdom).
  fold (after (Fine.crawl_page w base max_depth 0) st0) in Hsub, Hnew, Hheld, Hsize, Hdom.
  set (st1 := after (Fine.crawl_page w base max_depth 0) st0) in *.
  simpl in Hsub, Hnew, Hfree, Hsize, Hdom.
  rewrite Hfiles in Hsub, Hfree, Hdom. rewrite Htrace in Hnew.
  rewrite Hdownloaded, size_empty in Hsize. simpl in Hsize.
  assert (writes (trace st1) = writes new) as Hw.
  { rewrite Hnew, writes_app. simpl. apply app_nil_r. }
  assert (list_to_set (writes new) ⊆ dom (files st1)) as Hin.
  { intros p Hp. apply elem_of_list_to_set, elem_of_writes in Hp as [data Hp].
    apply elem_of_dom. rewrite (Hheld p data Hp). eauto. }
  assert (dom fs ## list_to_set (C := gset string) (writes new)) as Hdisj.
  { intros p Hp Hq. apply elem_of_list_to_set in Hq. now apply (Hfree p). }
  exists (trace st1). rewrite Hst'. simpl. rewrite Hw, Hsize.
  split; [reflexivity |]. split; [exact Hnd |]. split; [exact Hfree |].
  split.
  { intros p data Hp. apply Hheld. rewrite Hnew in Hp.
    apply elem_of_app in Hp as [Hp | Hp]; [exact Hp |].
    apply list_elem_of_singleton in Hp. discriminate. }
  split; [exact Hsub |]. split.
  - rewrite <- (size_list_to_set (C := gset string) (writes new)) by exact Hnd.
    rewrite <- !size_dom, <- size_union by exact Hdisj.
    apply subseteq_size. apply union_least; [now apply subseteq_dom | exact Hin].
  - intros Hthrough. rewrite (Hdom Hthrough), (comm_L (∪)).
    split; [reflexivity |].
    rewrite <- !size_dom, (Hdom Hthrough), (comm_L (∪)), size_union by exact Hdisj.
    now rewrite size_list_to_set.
Qed.

(** X8: in a crawl, also when [print] or a write can fail, every file
    written in full is written at a path of its own where no file was, and
    holds at the end what was written; the files that were there are
    unchanged; [downloaded_pdfs] gains one URL for each file written in
    full; and when no write fails, the files at the end are those that were
    there and those written. *)
Theorem crawl_page_writes_new_files (url : string) (max_depth current_depth : Z)
    (st : Crawler) :
  saves w st (after (Fine.crawl_page w url max_depth current_depth) st).
Proof. apply fine_crawl_page_saves. Qed.

(** X14: [download_pdf] ends: it returns, or raises what a [print] has
    raised (the line [Saved], or the line of the handler).  It changes
    neither the settings nor [visited_urls].  It records its URL exactly
    when it has written the whole file, at a path where there was none;
    otherwise it records nothing and writes no file in full, and leaves the
    files as they were, or with one file more, at such a path, when the
    write has failed after [open] made the file. *)
Theorem download_pdf_records_what_it_saves (pdf_url : string) (st : Crawler) :
  exists o st' new,
    Fine.download_pdf w pdf_url st = (o, st') /\
    (o = Normal tt \/ exists e, o = Raised e /\ print_error w e) /\
    only_effects st st' new /\ download_left w pdf_url st st' new.
Proof. apply fine_download_pdf_spec. Qed.

End FineRuns.

(** On the small site. *)
Lemma start_ends_witness :
  (Fine.start site 3 (fresh ∅)).1 = Normal tt
  \/ exists e, print_error site e /\ (Fine.start site 3 (fresh ∅)).1 = Raised e.
Proof. exact (proj1 (start_ends site seed "out" ∅ (fresh ∅) 3 eq_refl)). Defined.

(** On the small site: the totals of a run to depth 3. *)
Lemma start_report_counts_witness :
  exists run,
    trace (after (Fine.start site 3) (fresh ∅))
    = EvPrint (LogComplete (size (visited_urls (after (Fine.start site 3) (fresh ∅))))
                 (length (writes run)) "out") :: run
    /\ NoDup (writes run).
Proof.
  destruct (start_report_counts site seed "out" ∅ (fresh ∅) 3
              (after (Fine.start site 3) (fresh ∅)) eq_refl)
    as (run & Hrun & Hnd & _); [vm_compute; reflexivity |].
  exists run. split; assumption.
Defined.

(** On a standard output that cannot encode the sign of the line [Saved],
    [download_pdf] raises, with the file written and the URL recorded; and
    [start] raises after three requests, at the first line [Error]. *)
Example download_pdf_on_ascii_output :
  let r := Fine.download_pdf ascii_site "https://site.com/doc.pdf" (fresh ∅) in
  r.1 = Raised (ValueError "UnicodeEncodeError")
  /\ files r.2 !! "out/doc.pdf" = Some "%PDF doc"
  /\ elements (downloaded_pdfs r.2) = [ "https://site.com/doc.pdf" ].
Proof. vm_compute. repeat split. Qed.

Example start_on_ascii_output :
  let r := Fine.start ascii_site 3 (fresh ∅) in
  r.1 = Raised (ValueError "UnicodeEncodeError")
  /\ rev (requests (trace r.2))
     = [ "https://site.com/"; "https://site.com/page2.html";
         "https://site.com/missing.pdf" ].
Proof. vm_compute. repeat split. Qed.

(** On a disk where the write of [out/doc.pdf] fails, the download leaves a
    part of the file and records nothing; the next download of the URL
    finds the name taken. *)
Example download_pdf_on_short_disk :
  let st1 := after (Fine.download_pdf short_site "https://site.com/doc.pdf") (fresh ∅) in
  let st2 := after (Fine.download_pdf short_site "https://site.com/doc.pdf") st1 in
  files st1 !! "out/doc.pdf" = Some "%PDF"
  /\ elements (downloaded_pdfs st1) = []
  /\ writes (trace st1) = []
  /\ writes (trace st2) = [ "out/doc_1.pdf" ]
  /\ files st2 !! "out/doc.pdf" = Some "%PDF"
  /\ files st2 !! "out/doc_1.pdf" = Some "%PDF doc".
Proof. vm_compute. repeat split. Qed.

(** * The identifier of a document *)

Example replace_ex1 : PyStr.replace "a.pdf b.pdf" ".pdf" "" = "a b".
Proof. reflexivity. Qed.
Example replace_ex2 : PyStr.replace "aaa" "aa" "b" = "ba".
Proof. reflexivity. Qed.
Example replace_ex3 : PyStr.replace "abc" "" "-" = "-a-b-c-".
Proof. reflexivity. Qed.
Example generate_document_id_ex1 :
  generate_document_id "Annual Report 2023.pdf" = "annual-report-2023".
Proof. reflexivity. Qed.
Example generate_document_id_ex2 : generate_document_id "DOC.PDF.pdf" = "doc.pdf".
Proof. reflexivity. Qed.
Example generate_document_id_ex3 :
  generate_document_id "my report.pdf" = generate_document_id "My-Report.pdf".
Proof. reflexivity. Qed.

Section DocumentId.
Import PyStr PyStrFacts.

Local Arguments Ascii.eqb : simpl never.
Local Arguments replace : simpl never.

Lemma replace_space_cons (c : ascii) (s : string) :
  replace (String c s) " " "-" = String (dash c) (replace s " " "-").
Proof.
  unfold replace, dash. simpl. rewrite andb_true_r.
  destruct (Ascii.eqb " " c); [| reflexivity]. now rewrite app_cons, app_nil_l.
Qed.

Lemma replace_space_nil : replace "" " " "-" = "".
Proof. reflexivity. Qed.

Lemma dash_eqb (x c : ascii) :
  Ascii.eqb x " " = false -> Ascii.eqb x "-" = false ->
  Ascii.eqb x (dash c) = Ascii.eqb x c.
Proof.
  intros Hs Hd. unfold dash. destruct (Ascii.eqb_spec " " c) as [<- | _]; [| reflexivity].
  now rewrite Hs, Hd.
Qed.

Lemma dash_dash (c : ascii) : dash (dash c) = dash c.
Proof.
  unfold dash at 2. destruct (Ascii.eqb_spec " " c) as [<- | Hc]; [reflexivity |].
  unfold dash. now destruct (Ascii.eqb_spec " " c).
Qed.

Lemma replace_space_twice (s : string) :
  replace (replace s " " "-") " " "-" = replace s " " "-".
Proof.
  induction s as [|c s IH]; [reflexivity |].
  now rewrite !replace_space_cons, dash_dash, IH.
Qed.

Lemma occurs_replace_space (s : string) : occurs " " (replace s " " "-") = false.
Proof.
  induction s as [|c s IH]; [reflexivity |].
  rewrite replace_space_cons. simpl. rewrite IH, orb_false_r.
  unfold dash. destruct (Ascii.eqb_spec " " c) as [<- | Hc]; [reflexivity |].
  destruct (Ascii.eqb_spec c " "); congruence.
Qed.

Lemma lower_char_space (c : ascii) : Ascii.eqb (lower_char c) " " = Ascii.eqb c " ".
Proof. destruct c as [[] [] [] [] [] [] [] []]; reflexivity. Qed.

Lemma lower_char_twice (c : ascii) : lower_char (lower_char c) = lower_char c.
Proof. destruct c as [[] [] [] [] [] [] [] []]; reflexivity. Qed.

Lemma occurs_lower_space (s : string) : occurs " " (lower s) = occurs " " s.
Proof.
  induction s as [|c s IH]; [reflexivity |]. simpl. now rewrite lower_char_space, IH.
Qed.

Lemma lower_twice (s : string) : lower (lower s) = lower s.
Proof.
  induction s as [|c s IH]; [reflexivity |]. simpl. now rewrite lower_char_twice, IH.
Qed.

(** A pattern with no space and no dash is found in a string where it is
    found once the spaces are dashes. *)
Lemma startswith_replace_space (p : string) : forall s,
  occurs " " p = false -> occurs "-" p = false ->
  startswith (replace s " " "-") p = startswith s p.
Proof.
  induction p as [|x p IH]; intros s Hs Hd; [reflexivity |].
  simpl in Hs, Hd. apply orb_false_iff in Hs as [Hxs Hs].
  apply orb_false_iff in Hd as [Hxd Hd].
  destruct s as [|c s]; [reflexivity |].
  rewrite replace_space_cons. simpl. now rewrite dash_eqb, IH.
Qed.

Lemma replace_from_space (s : string) : forall skip,
  replace_from skip (replace s " " "-") ".pdf" ""
  = replace (replace_from skip s ".pdf" "") " " "-".
Proof.
  induction s as [|c s IH]; intros skip; [reflexivity |].
  rewrite replace_space_cons. destruct skip as [|skip].
  - cbn [replace_from]. rewrite <- replace_space_cons.
    rewrite startswith_replace_space by reflexivity.
    destruct (startswith (String c s) ".pdf").
    + now rewrite !app_nil_l, IH.
    + now rewrite replace_space_cons, IH.
  - cbn [replace_from]. apply IH.
Qed.

(** The pattern [.pdf] does not overlap with itself. *)
Lemma startswith_app_pdf (s : string) :
  s <> "" -> startswith (s +:+ ".pdf") ".pdf" = startswith s ".pdf".
Proof.
  intros Hs. destruct s as [|a [|b [|c [|d s]]]]; [congruence | | | |];
    rewrite ?app_cons, ?app_nil_l; simpl;
    repeat match goal with
           | |- context [Ascii.eqb ?x ?y] => destruct (Ascii.eqb x y); simpl
           end; reflexivity.
Qed.

Lemma replace_pdf_suffix (stem : string) :
  contains stem ".pdf" = false -> replace (stem +:+ ".pdf") ".pdf" "" = stem.
Proof.
  unfold replace. induction stem as [|c stem IH]; [reflexivity |].
  rewrite contains_cons. intros H. apply orb_false_iff in H as [Hstart Hrest].
  rewrite app_cons. cbn [replace_from]. rewrite <- app_cons.
  rewrite startswith_app_pdf by discriminate. rewrite Hstart.
  now rewrite IH.
Qed.


(** X15: a document identifier has no space and no upper-case letter. *)
Theorem document_id_lower_case_no_space (filename : string) :
  occurs " " (generate_document_id filename) = false /\
  lower (generate_document_id filename) = generate_document_id filename.
Proof.
  unfold generate_document_id. split.
  - now rewrite occurs_lower_space, occurs_replace_space.
  - apply lower_twice.
Qed.

(** X16: the identifier of a file [stem.pdf] whose stem does not contain
    [.pdf] is the stem, lower-cased and with a dash for each space: the
    extension is removed, and nothing else. *)
Theorem document_id_of_pdf_name (stem : string) :
  contains stem ".pdf" = false ->
  generate_document_id (stem +:+ ".pdf") = lower (replace stem " " "-").
Proof.
  intros H. unfold generate_document_id. now rewrite replace_pdf_suffix.
Qed.

(** X17: identifiers are not unique: a file name and the same name with
    dashes for its spaces have the same identifier. *)
Theorem document_id_same_with_dashes (filename : string) :
  generate_document_id (replace filename " " "-") = generate_document_id filename.
Proof.
  unfold generate_document_id. unfold replace at 2 4.
  now rewrite replace_from_space, replace_space_twice.
Qed.

End DocumentId.

(** The identifier of [Annual Report 2023.pdf]. *)
Lemma document_id_of_pdf_name_witness :
  generate_document_id ("Annual Report 2023" +:+ ".pdf")
  = PyStr.lower (PyStr.replace "Annual Report 2023" " " "-").
Proof. exact (document_id_of_pdf_name "Annual Report 2023" eq_refl). Defined.
